(** * FHEVM Example Hub scaffolding scripts

    A shallow embedding of the three Node.js scripts of the repository,

      - [scripts/create-fhevm-example.js]   (one example -> one project),
      - [scripts/create-fhevm-category.js]  (one category -> one project),
      - [scripts/generate-docs.js]          (GitBook pages and their index),

    over an explicit model of what they touch: the file system, the two
    console streams and the process exit status.  The scripts are
    synchronous and single-threaded, so a run is a function from the world
    before to an outcome and the world after. *)

From Stdlib Require Import Ascii String.
From stdpp Require Import gmap strings list fin_maps pretty.

Set Warnings "-register-all".

Open Scope string_scope.
Open Scope list_scope.

(** ** JavaScript strings

    Strings are byte strings (UTF-8).  Case conversion is the ASCII part of
    [String.prototype.toUpperCase] / [toLowerCase]; every identifier and
    description of the catalogs is ASCII. *)

Module Js.

Definition dquote : ascii := "034"%char.
Definition newline : ascii := "010"%char.
Definition nl : string := String newline "".

Definition upper_ascii (c : ascii) : ascii :=
  let n := nat_of_ascii c in
  if (97 <=? n)%nat && (n <=? 122)%nat then ascii_of_nat (n - 32) else c.

Definition lower_ascii (c : ascii) : ascii :=
  let n := nat_of_ascii c in
  if (65 <=? n)%nat && (n <=? 90)%nat then ascii_of_nat (n + 32) else c.

Fixpoint map_chars (f : ascii → ascii) (s : string) : string :=
  match s with
  | EmptyString => EmptyString
  | String c r => String (f c) (map_chars f r)
  end.

Definition toUpperCase : string → string := map_chars upper_ascii.
Definition toLowerCase : string → string := map_chars lower_ascii.

(** [s.charAt(0)] and [s.slice(1)]. *)
Definition charAt0 (s : string) : string :=
  match s with
  | EmptyString => EmptyString
  | String c _ => String c EmptyString
  end.

Definition slice1 (s : string) : string :=
  match s with
  | EmptyString => EmptyString
  | String _ r => r
  end.

(** [name.charAt(0).toUpperCase() + name.slice(1)], the heading of both
    generated READMEs. *)
Definition capitalize (s : string) : string :=
  toUpperCase (charAt0 s) +:+ slice1 s.

(** [s.includes(t)]: [t] occurs in [s] as a contiguous substring. *)
Fixpoint includes (s t : string) : bool :=
  String.prefix t s ||
  match s with
  | EmptyString => false
  | String _ r => includes r t
  end.

(** [xs.join(sep)]. *)
Fixpoint join (sep : string) (xs : list string) : string :=
  match xs with
  | [] => EmptyString
  | [x] => x
  | x :: rest => x +:+ sep +:+ join sep rest
  end.

(** [s.split(sep)] for a one-character separator. *)
Fixpoint split_on (sep : ascii) (s : string) : list string :=
  match s with
  | EmptyString => [EmptyString]
  | String c r =>
      if Ascii.eqb c sep then EmptyString :: split_on sep r
      else match split_on sep r with
           | l :: ls => String c l :: ls
           | [] => [String c EmptyString]
           end
  end.

Definition lines (s : string) : list string := split_on newline s.

(** How many lines of [s] are exactly [l]. *)
Definition count_lines (l s : string) : nat :=
  length (filter (λ x, x = l) (lines s)).

Definition ends_with_newline (s : string) : bool :=
  match last (lines s) with
  | Some EmptyString => true
  | _ => false
  end.

End Js.

(** ** Paths ([require('path')], POSIX flavour)

    A path is kept in the normal form [path.join] produces for an absolute
    path: the list of its segments from the root.  [[]] is the root
    directory itself. *)

Abbreviation path := (list string).

Module Path.

Definition segments (s : string) : list string :=
  filter (λ x, x ≠ EmptyString) (Js.split_on "/"%char s).

Definition join_seg (p : path) (seg : string) : path :=
  if decide (seg = "") then p
  else if decide (seg = ".") then p
  else if decide (seg = "..") then removelast p
  else p ++ [seg].

(** [path.join(base, part_1, ..., part_n)]. *)
Definition join (base : path) (parts : list string) : path :=
  foldl join_seg base (concat (map segments parts)).

(** [path.basename(s)]. *)
Definition basename (s : string) : string :=
  default EmptyString (last (segments s)).

(** The last segment of a normalised path, what [cp] names the copy. *)
Definition leaf (p : path) : string := default EmptyString (last p).

Definition parent (p : path) : path := removelast p.

(** The non-empty prefixes of [p], shortest first: the directories that
    [mkdir -p] visits. *)
Definition ancestors_and_self (p : path) : list path :=
  map (λ n, take n p) (seq 1 (length p)).

Definition is_prefix (p q : path) : bool :=
  bool_decide (take (length p) q = p).

End Path.

(** ** JSON ([JSON.parse], [JSON.stringify(v, null, 2)])

    Values keep the order of object members, as a JavaScript object keeps
    the insertion order of its string keys.  A number is kept as the
    literal that was read (the engine's re-printing of doubles is outside
    the model), and integer-like keys are not moved to the front. *)

Inductive json : Type :=
| JNull
| JBool (b : bool)
| JNum (literal : string)
| JStr (s : string)
| JArr (items : list json)
| JObj (members : list (string * json)).

Module Json.

(** *** Own properties of a parsed object *)

Fixpoint get_prop (kv : list (string * json)) (k : string) : option json :=
  match kv with
  | [] => None
  | (k', v) :: rest => if decide (k' = k) then Some v else get_prop rest k
  end.

(** [o[k] = v] on an ordinary object: an existing key keeps its place,
    a new key goes last. *)
Fixpoint set_prop (kv : list (string * json)) (k : string) (v : json)
  : list (string * json) :=
  match kv with
  | [] => [(k, v)]
  | (k', v') :: rest =>
      if decide (k' = k) then (k, v) :: rest else (k', v') :: set_prop rest k v
  end.

(** [value.k = v] in sloppy mode, as far as [JSON.stringify] can see it
    afterwards: [null] throws a TypeError ([None]); on a string, number
    or boolean the store is dropped; on an array it adds a non-index
    property, which is not serialised. *)
Definition assign (value : json) (k : string) (v : json) : option json :=
  match value with
  | JNull => None
  | JObj kv => Some (JObj (set_prop kv k v))
  | other => Some other
  end.

Definition field (value : json) (k : string) : option json :=
  match value with
  | JObj kv => get_prop kv k
  | _ => None
  end.

(** *** Printing *)

Definition hex_digit (n : nat) : ascii :=
  if (n <? 10)%nat then ascii_of_nat (48 + n) else ascii_of_nat (87 + n).

Definition escape_char (c : ascii) : string :=
  let n := nat_of_ascii c in
  if Ascii.eqb c Js.dquote then String "\" (String Js.dquote "")
  else if Ascii.eqb c "\" then "\\"
  else if (n =? 8)%nat then "\b"
  else if (n =? 9)%nat then "\t"
  else if (n =? 10)%nat then "\n"
  else if (n =? 12)%nat then "\f"
  else if (n =? 13)%nat then "\r"
  else if (n <? 32)%nat then
    "\u00" +:+ String (hex_digit (n / 16)) (String (hex_digit (n mod 16)) "")
  else String c "".

Fixpoint escape (s : string) : string :=
  match s with
  | EmptyString => EmptyString
  | String c r => escape_char c +:+ escape r
  end.

Definition quote (s : string) : string :=
  String Js.dquote (escape s +:+ String Js.dquote "").

(** [JSON.stringify(v, null, 2)] at the current indentation [ind]. *)
Fixpoint stringify_at (ind : string) (v : json) : string :=
  match v with
  | JNull => "null"
  | JBool true => "true"
  | JBool false => "false"
  | JNum l => l
  | JStr s => quote s
  | JArr [] => "[]"
  | JArr xs =>
      let ind' := ind +:+ "  " in
      "[" +:+ Js.nl +:+ ind' +:+
      Js.join ("," +:+ Js.nl +:+ ind') (map (stringify_at ind') xs)
      +:+ Js.nl +:+ ind +:+ "]"
  | JObj [] => "{}"
  | JObj kv =>
      let ind' := ind +:+ "  " in
      "{" +:+ Js.nl +:+ ind' +:+
      Js.join ("," +:+ Js.nl +:+ ind')
        (map (λ m, quote (fst m) +:+ ": " +:+ stringify_at ind' (snd m)) kv)
      +:+ Js.nl +:+ ind +:+ "}"
  end.

Definition stringify (v : json) : string := stringify_at "" v.

(** *** Parsing *)

Definition is_ws (c : ascii) : bool :=
  let n := nat_of_ascii c in
  (n =? 32)%nat || (n =? 9)%nat || (n =? 10)%nat || (n =? 13)%nat.

Definition is_digit (c : ascii) : bool :=
  let n := nat_of_ascii c in (48 <=? n)%nat && (n <=? 57)%nat.

Fixpoint skip_ws (s : string) : string :=
  match s with
  | String c r => if is_ws c then skip_ws r else s
  | EmptyString => EmptyString
  end.

Fixpoint take_digits (s : string) : string * string :=
  match s with
  | String c r =>
      if is_digit c then let '(d, rest) := take_digits r in (String c d, rest)
      else (EmptyString, s)
  | EmptyString => (EmptyString, EmptyString)
  end.

Definition hex_value (c : ascii) : option N :=
  let n := N_of_ascii c in
  if (48 <=? n)%N && (n <=? 57)%N then Some (n - 48)%N
  else if (97 <=? n)%N && (n <=? 102)%N then Some (n - 87)%N
  else if (65 <=? n)%N && (n <=? 70)%N then Some (n - 55)%N
  else None.

(** Four hex digits of a [\u] escape. *)
Definition take_hex4 (s : string) : option (N * string) :=
  match s with
  | String a (String b (String c (String d rest))) =>
      match hex_value a, hex_value b, hex_value c, hex_value d with
      | Some x, Some y, Some z, Some w =>
          Some ((((x * 16 + y) * 16 + z) * 16 + w)%N, rest)
      | _, _, _, _ => None
      end
  | _ => None
  end.

(** UTF-8 bytes of a code point (an unpaired surrogate is written like
    any other three-byte value). *)
Definition utf8 (n : N) : string :=
  let b := ascii_of_N in
  (if n <? 128 then String (b n) ""
   else if n <? 2048 then
     String (b (192 + n / 64)) (String (b (128 + n mod 64)) "")
   else if n <? 65536 then
     String (b (224 + n / 4096))
       (String (b (128 + (n / 64) mod 64)) (String (b (128 + n mod 64)) ""))
   else
     String (b (240 + n / 262144))
       (String (b (128 + (n / 4096) mod 64))
          (String (b (128 + (n / 64) mod 64))
             (String (b (128 + n mod 64)) ""))))%N.

Definition is_high_surrogate (n : N) : bool := (55296 <=? n)%N && (n <=? 56319)%N.
Definition is_low_surrogate (n : N) : bool := (56320 <=? n)%N && (n <=? 57343)%N.

(** What follows a backslash inside a string. *)
Definition parse_escape (s : string) : option (string * string) :=
  match s with
  | String c r =>
      if Ascii.eqb c Js.dquote then Some (String Js.dquote "", r)
      else if Ascii.eqb c "\" then Some ("\", r)
      else if Ascii.eqb c "/" then Some ("/", r)
      else if Ascii.eqb c "b" then Some (String (ascii_of_nat 8) "", r)
      else if Ascii.eqb c "f" then Some (String (ascii_of_nat 12) "", r)
      else if Ascii.eqb c "n" then Some (String (ascii_of_nat 10) "", r)
      else if Ascii.eqb c "r" then Some (String (ascii_of_nat 13) "", r)
      else if Ascii.eqb c "t" then Some (String (ascii_of_nat 9) "", r)
      else if Ascii.eqb c "u" then
        match take_hex4 r with
        | Some (hi, r1) =>
            match r1 with
            | String "\" (String "u" r2) =>
                match take_hex4 r2 with
                | Some (lo, r3) =>
                    if is_high_surrogate hi && is_low_surrogate lo
                    then Some (utf8 (65536 + (hi - 55296) * 1024 + (lo - 56320))%N, r3)
                    else Some (utf8 hi, r1)
                | None => Some (utf8 hi, r1)
                end
            | _ => Some (utf8 hi, r1)
            end
        | None => None
        end
      else None
  | EmptyString => None
  end.

(** The characters of a string literal after its opening quote, up to
    and including the closing quote. *)
Fixpoint parse_chars (fuel : nat) (s : string) : option (string * string) :=
  match fuel with
  | O => None
  | S fuel' =>
      match s with
      | EmptyString => None
      | String c r =>
          if Ascii.eqb c Js.dquote then Some (EmptyString, r)
          else if Ascii.eqb c "\" then
            match parse_escape r with
            | Some (bytes, r') =>
                match parse_chars fuel' r' with
                | Some (str, rest) => Some (bytes +:+ str, rest)
                | None => None
                end
            | None => None
            end
          else if (nat_of_ascii c <? 32)%nat then None
          else
            match parse_chars fuel' r with
            | Some (str, rest) => Some (String c str, rest)
            | None => None
            end
      end
  end.

(** A number literal: an optional minus sign, an integer part without a
    leading zero, an optional fraction and an optional exponent. *)
Definition parse_number (s : string) : option (string * string) :=
  let '(sign, s1) :=
    match s with
    | String "-" r => ("-", r)
    | _ => (EmptyString, s)
    end in
  let '(int, s2) := take_digits s1 in
  match int with
  | EmptyString => None
  | String "0" (String _ _) => None
  | _ =>
      let frac :=
        match s2 with
        | String "." r =>
            let '(d, r') := take_digits r in
            match d with
            | EmptyString => None
            | _ => Some ("." +:+ d, r')
            end
        | _ => Some (EmptyString, s2)
        end in
      match frac with
      | None => None
      | Some (f, s3) =>
          let exp :=
            match s3 with
            | String e r =>
                if Ascii.eqb e "e" || Ascii.eqb e "E" then
                  let '(sg, r1) :=
                    match r with
                    | String "+" r' => ("+", r')
                    | String "-" r' => ("-", r')
                    | _ => (EmptyString, r)
                    end in
                  let '(d, r2) := take_digits r1 in
                  match d with
                  | EmptyString => None
                  | _ => Some (String e sg +:+ d, r2)
                  end
                else Some (EmptyString, s3)
            | EmptyString => Some (EmptyString, s3)
            end in
          match exp with
          | None => None
          | Some (x, s4) => Some (sign +:+ int +:+ f +:+ x, s4)
          end
      end
  end.

Definition expect (lit : string) (v : json) (s : string) : option (json * string) :=
  if String.prefix lit s
  then Some (v, String.substring (String.length lit) (String.length s - String.length lit) s)
  else None.

(** Recursive descent.  Every call consumes fuel; [parse] supplies more
    than the text can use. *)
Fixpoint parse_value (fuel : nat) (s : string) : option (json * string) :=
  match fuel with
  | O => None
  | S fuel' =>
      match skip_ws s with
      | EmptyString => None
      | String c r as s' =>
          if Ascii.eqb c "{" then
            match skip_ws r with
            | String "}" r' => Some (JObj [], r')
            | r' => parse_members fuel' r' []
            end
          else if Ascii.eqb c "[" then
            match skip_ws r with
            | String "]" r' => Some (JArr [], r')
            | r' => parse_items fuel' r' []
            end
          else if Ascii.eqb c Js.dquote then
            match parse_chars (String.length r) r with
            | Some (str, rest) => Some (JStr str, rest)
            | None => None
            end
          else if Ascii.eqb c "t" then expect "true" (JBool true) s'
          else if Ascii.eqb c "f" then expect "false" (JBool false) s'
          else if Ascii.eqb c "n" then expect "null" JNull s'
          else
            match parse_number s' with
            | Some (lit, rest) => Some (JNum lit, rest)
            | None => None
            end
      end
  end

with parse_items (fuel : nat) (s : string) (acc : list json)
  : option (json * string) :=
  match fuel with
  | O => None
  | S fuel' =>
      match parse_value fuel' s with
      | Some (v, rest) =>
          match skip_ws rest with
          | String "," r => parse_items fuel' r (acc ++ [v])
          | String "]" r => Some (JArr (acc ++ [v]), r)
          | _ => None
          end
      | None => None
      end
  end

with parse_members (fuel : nat) (s : string) (acc : list (string * json))
  : option (json * string) :=
  match fuel with
  | O => None
  | S fuel' =>
      match skip_ws s with
      | String c r =>
          if Ascii.eqb c Js.dquote then
            match parse_chars (String.length r) r with
            | Some (k, rest) =>
                match skip_ws rest with
                | String ":" r1 =>
                    match parse_value fuel' r1 with
                    | Some (v, r2) =>
                        match skip_ws r2 with
                        | String "," r3 => parse_members fuel' r3 (set_prop acc k v)
                        | String "}" r3 => Some (JObj (set_prop acc k v), r3)
                        | _ => None
                        end
                    | None => None
                    end
                | _ => None
                end
            | None => None
            end
          else None
      | EmptyString => None
      end
  end.

(** [JSON.parse(text)]; [None] stands for the SyntaxError. *)
Definition parse (text : string) : option json :=
  match parse_value (2 * String.length text + 2) text with
  | Some (v, rest) =>
      match skip_ws rest with
      | EmptyString => Some v
      | _ => None
      end
  | None => None
  end.

End Json.


(** ** The world a script runs in *)

(** The file system is a finite map from normalised absolute paths to
    nodes.  Symbolic links, permissions and devices are not modelled. *)
Inductive node : Type :=
| File (content : string)
| Dir.

#[global] Instance node_eq_dec : EqDecision node.
Proof. solve_decision. Defined.

Record world : Type := World {
  files : gmap path node;
  stdout : list string;   (* lines written by console.log *)
  stderr : list string    (* lines written by console.error *)
}.

(** What can stop a script: an uncaught exception or [process.exit]. *)
Inductive error : Type :=
| ENOENT | ENOTDIR | EISDIR | EEXIST
| CommandFailed        (* execSync: the command ended with a non-zero status *)
| SyntaxError          (* JSON.parse *)
| TypeError.

Inductive outcome (A : Type) : Type :=
| Returned (a : A)
| Exited (code : nat)
| Thrown (e : error).
Arguments Returned {A} a.
Arguments Exited {A} code.
Arguments Thrown {A} e.

(** The exit status the shell sees: Node ends with status 1 on an uncaught
    exception. *)
Definition exit_status {A} (o : outcome A) : nat :=
  match o with
  | Returned _ => 0
  | Exited code => code
  | Thrown _ => 1
  end.

Definition js (A : Type) : Type := world → outcome A * world.

#[global] Instance js_ret : MRet js := λ A a w, (Returned a, w).

#[global] Instance js_bind : MBind js := λ A B k m w,
  match m w with
  | (Returned a, w') => k a w'
  | (Exited code, w') => (Exited code, w')
  | (Thrown e, w') => (Thrown e, w')
  end.

Definition throw {A} (e : error) : js A := λ w, (Thrown e, w).
Definition process_exit {A} (code : nat) : js A := λ w, (Exited code, w).

Definition console_log (line : string) : js unit :=
  λ w, (Returned tt, World (files w) (stdout w ++ [line]) (stderr w)).

Definition console_error (line : string) : js unit :=
  λ w, (Returned tt, World (files w) (stdout w) (stderr w ++ [line])).

Definition get_files : js (gmap path node) := λ w, (Returned (files w), w).

Definition put_files (fs : gmap path node) : js unit :=
  λ w, (Returned tt, World fs (stdout w) (stderr w)).

(** [if (b) { m }] *)
Definition when (b : bool) (m : js unit) : js unit :=
  if b then m else mret tt.

(** [forEach]: the callback on every element, in order. *)
Fixpoint forEach {A} (xs : list A) (f : A → js unit) : js unit :=
  match xs with
  | [] => mret tt
  | x :: rest => f x ;; forEach rest f
  end.

(** ** [require('fs')] *)

Module Fs.

(** What is at a path; the root directory always exists. *)
Definition stat (fs : gmap path node) (p : path) : option node :=
  match p with
  | [] => Some Dir
  | _ => fs !! p
  end.

Definition is_file (o : option node) : bool :=
  match o with Some (File _) => true | _ => false end.

Definition is_dir (o : option node) : bool :=
  match o with Some Dir => true | _ => false end.

(** [fs.existsSync(p)] *)
Definition existsSync (p : path) : js bool :=
  λ w, (Returned (bool_decide (is_Some (stat (files w) p))), w).

(** The map after [mkdir -p p]: every missing prefix of [p] becomes a
    directory, what exists stays. *)
Definition mkdirp (fs : gmap path node) (p : path) : gmap path node :=
  fs ∪ list_to_map (map (λ q, (q, Dir)) (Path.ancestors_and_self p)).

(** [fs.mkdirSync(p, { recursive: true })]: fails, creating nothing, when
    a prefix of [p] is a regular file. *)
Definition mkdirSync_recursive (p : path) : js unit :=
  fs ← get_files;
  if existsb (λ q, is_file (stat fs q)) (Path.ancestors_and_self p)
  then throw (if is_file (stat fs p) then EEXIST else ENOTDIR)
  else put_files (mkdirp fs p).

(** Creating or overwriting the regular file [p]: its directory must exist
    and [p] must not be a directory. *)
Definition store (p : path) (content : string) : js unit :=
  fs ← get_files;
  match stat fs (Path.parent p) with
  | None => throw ENOENT
  | Some (File _) => throw ENOTDIR
  | Some Dir =>
      match stat fs p with
      | Some Dir => throw EISDIR
      | _ => put_files (<[p := File content]> fs)
      end
  end.

(** [fs.readFileSync(p, 'utf8')] *)
Definition readFileSync (p : path) : js string :=
  fs ← get_files;
  match stat fs p with
  | None => throw ENOENT
  | Some Dir => throw EISDIR
  | Some (File content) => mret content
  end.

(** [fs.writeFileSync(p, content)] *)
Definition writeFileSync (p : path) (content : string) : js unit :=
  store p content.

(** [fs.copyFileSync(src, dest)] *)
Definition copyFileSync (src dest : path) : js unit :=
  content ← readFileSync src;
  store dest content.

End Fs.

(** ** [execSync] of the two [cp -r] command lines

    The scripts build the command line by pasting the two paths into it
    without quotes.  The definitions below say what the command does when
    [/bin/sh] hands both paths to [cp] as they are; they say nothing
    about a path with a blank or another character that the shell
    interprets, which it would split or expand.  The theorems about runs
    that reach a [cp] state this as a hypothesis ([shell_safe], below).
    The child's own diagnostics are not recorded.  A command that ends
    with a non-zero status makes [execSync] throw. *)

Module Shell.

(** A name the pattern [*] matches: it does not start with a dot. *)
Definition visible (name : string) : bool := negb (String.prefix "." name).

Definition strip_prefix (pre p : path) : option path :=
  if Path.is_prefix pre p then Some (drop (length pre) p) else None.

(** What is at and below [src], keyed by the path relative to [src]. *)
Definition subtree (fs : gmap path node) (src : path) : gmap path node :=
  list_to_map
    (omap (λ e, (λ rel, (rel, e.2)) <$> strip_prefix src e.1) (map_to_list fs)).

Definition proper_prefixes (rel : path) : list path :=
  map (λ n, take n rel) (seq 0 (length rel)).

(** [cp] reaches the entry at [src ++ rel] and can put it at [dst ++ rel]:
    everything above it is a directory in the source and not a regular
    file in the destination, and the entry does not meet a node of the
    other kind. *)
Definition copy_ok (fs : gmap path node) (src dst rel : path) (n : node) : bool :=
  forallb (λ r, Fs.is_dir (fs !! (src ++ r)) && negb (Fs.is_file (Fs.stat fs (dst ++ r))))
          (proper_prefixes rel)
  && match n, Fs.stat fs (dst ++ rel) with
     | Dir, Some (File _) => false
     | File _, Some Dir => false
     | _, _ => true
     end.

(** The recursive copy of the selected entries below [src] onto [dst]:
    existing directories are merged, existing files overwritten, nothing
    is removed.  The flag tells whether every selected entry was copied. *)
Definition copy_tree (fs : gmap path node) (src dst : path) (sel : path → bool)
  : gmap path node * bool :=
  let chosen := filter (λ e, sel e.1 = true) (subtree fs src) in
  let good := filter (λ e, copy_ok fs src dst e.1 e.2 = true) chosen in
  (kmap (app dst) good ∪ fs, bool_decide (good = chosen)).

(** The entries that the words of [src/*] stand for. *)
Definition under_glob (fs : gmap path node) (src : path) (rel : path) : bool :=
  match rel with
  | [] => false
  | name :: _ => visible name && bool_decide (is_Some (fs !! (src ++ [name])))
  end.

(** [cp -r src/* dst/].  When the pattern matches nothing the shell hands
    it to [cp] as it is and [cp] fails; [dst/] must be a directory; a
    destination inside the source tree is refused (the model then copies
    nothing). *)
Definition cp_r_glob (src dst : path) : js unit :=
  fs ← get_files;
  if negb (Fs.is_dir (Fs.stat fs src)) then throw CommandFailed
  else if bool_decide (filter (λ e, under_glob fs src e.1 = true) (subtree fs src) = ∅)
  then throw CommandFailed
  else if negb (Fs.is_dir (Fs.stat fs dst)) then throw CommandFailed
  else if Path.is_prefix src dst then throw CommandFailed
  else
    let r := copy_tree fs src dst (under_glob fs src) in
    put_files r.1;;
    if r.2 then mret tt else throw CommandFailed.

(** [cp -r src dst]: into [dst] when that is a directory, as [dst]
    otherwise. *)
Definition cp_r (src dst : path) : js unit :=
  fs ← get_files;
  if negb (bool_decide (is_Some (Fs.stat fs src))) then throw CommandFailed
  else
    let target := if Fs.is_dir (Fs.stat fs dst) then dst ++ [Path.leaf src] else dst in
    if Path.is_prefix src target then throw CommandFailed
    else if negb (Fs.is_dir (Fs.stat fs (Path.parent target))) then throw CommandFailed
    else
      let r := copy_tree fs src target (λ _, true) in
      put_files r.1;;
      if r.2 then mret tt else throw CommandFailed.

End Shell.

(** ** Property lookup on an object literal

    The catalogs are object literals, so [table[key]] also finds what
    [Object.prototype] provides.  [Object.keys] lists own keys in
    insertion order. *)

Module Object.

Definition prototype_keys : list string :=
  [ "constructor"; "__defineGetter__"; "__defineSetter__"; "hasOwnProperty";
    "__lookupGetter__"; "__lookupSetter__"; "isPrototypeOf";
    "propertyIsEnumerable"; "toString"; "valueOf"; "__proto__";
    "toLocaleString" ].

Inductive property (A : Type) : Type :=
| Own (a : A)
| Inherited (key : string)   (* a method of Object.prototype, or the prototype itself *)
| Undefined.
Arguments Own {A} a.
Arguments Inherited {A} key.
Arguments Undefined {A}.

Fixpoint own {A} (table : list (string * A)) (key : string) : option A :=
  match table with
  | [] => None
  | (k, a) :: rest => if decide (k = key) then Some a else own rest key
  end.

(** [table[key]] *)
Definition get {A} (table : list (string * A)) (key : string) : property A :=
  match own table key with
  | Some a => Own a
  | None => if bool_decide (key ∈ prototype_keys) then Inherited key else Undefined
  end.

(** [Object.keys(table)] *)
Definition keys {A} (table : list (string * A)) : list string := map fst table.

(** How a template literal prints an inherited value. *)
Definition inherited_to_string (key : string) : string :=
  if decide (key = "__proto__") then "[object Object]"
  else "function " +:+ (if decide (key = "constructor") then "Object" else key)
       +:+ "() { [native code] }".

End Object.

(** The text of a path.  The scripts print the output directory as it
    was given to them; a [path] stands for a directory that was given in
    absolute, normalised form, and that form is printed.  For a
    directory given in another way (['./out/x'], the default ['./docs'])
    the console lines that name it differ from the model's in that text;
    what is written to the file system is the same. *)
Definition show_path (p : path) : string := "/" +:+ Js.join "/" p.

(** How [fs] and the shell read a non-empty path given on the command
    line: an absolute one as it is, a relative one against the working
    directory. *)
Definition resolve (cwd : path) (arg : string) : path :=
  if String.prefix "/" arg then Path.join [] [arg] else Path.join cwd [arg].

(** ** The manifest as the scripts handle it *)

(** One property store on the parsed manifest. *)
Definition set_field (value : json) (key : string) (v : json) : js json :=
  match Json.assign value key v with
  | Some value' => mret value'
  | None => throw TypeError
  end.

Definition JSON_parse (text : string) : js json :=
  match Json.parse text with
  | Some value => mret value
  | None => throw SyntaxError
  end.

(** ** scripts/create-fhevm-example.js *)

Module Example.

Record config : Type := Config {
  contract : string;
  test : string;
  description : string;
  category : string
}.

Definition EXAMPLES_MAP : list (string * config) :=
  [ ("blind-auction",
     {| contract := "auctions/BlindAuction.sol";
        test := "auctions/BlindAuction.ts";
        description := "Sealed-bid auction with encrypted bids";
        category := "auctions" |});
    ("fhe-counter",
     {| contract := "basic/FHECounter.sol";
        test := "basic/FHECounter.ts";
        description := "Simple encrypted counter demonstrating FHE basics";
        category := "basic" |}) ].

Definition generateReadme (exampleName : string) (config : config) : string :=
  "# " +:+
  Js.capitalize exampleName +:+
  " - FHEVM Example

" +:+
  description config +:+
  "

## Overview

This example demonstrates " +:+
  Js.toLowerCase (description config) +:+
  " using FHEVM (Fully Homomorphic Encryption Virtual Machine) by Zama.

## Quick Start

```bash
# Install dependencies
npm install

# Compile contracts
npm run compile

# Run tests
npm run test

# Deploy (local)
npm run deploy:local
```

## Key Concepts

This example showcases:
- Encrypted data handling with FHEVM
- Permission management with FHE.allow() and FHE.allowThis()
- " +:+
  (if decide (category config = "auctions")
   then "Confidential bidding mechanisms" else "Basic FHE operations") +:+
  "

## Files

- `contracts/" +:+
  Path.basename (contract config) +:+
  "` - Main contract implementation
- `test/" +:+
  Path.basename (test config) +:+
  "` - Comprehensive test suite
- `deploy/` - Deployment scripts

## Resources

- [FHEVM Documentation](https://docs.zama.ai/fhevm)
- [Zama Protocol Examples](https://docs.zama.org/protocol/examples)
- [GitHub Repository](https://github.com/zama-ai/fhevm)

## License

BSD-3-Clause-Clear
".

(** The keyword list the manifest receives. *)
Definition keywords (config : config) : list string :=
  ["fhevm"; "zama"; "fhe"; "privacy"; "blockchain"; category config].

Definition updatePackageJson (outputDir : path) (exampleName : string)
    (config : config) : js unit :=
  let packageJsonPath := Path.join outputDir ["package.json"] in
  text ← Fs.readFileSync packageJsonPath;
  packageJson ← JSON_parse text;
  packageJson ← set_field packageJson "name" (JStr ("fhevm-" +:+ exampleName));
  packageJson ← set_field packageJson "description" (JStr (description config));
  packageJson ← set_field packageJson "keywords" (JArr (map JStr (keywords config)));
  Fs.writeFileSync packageJsonPath (Json.stringify packageJson).

Section Script.

(** [__dirname]: the directory that holds the script. *)
Variable dirname : path.

Definition createExample (exampleName : string) (outputDir : path) : js unit :=
  match Object.get EXAMPLES_MAP exampleName with
  | Object.Undefined =>
      console_error ("❌ Example '" +:+ exampleName +:+ "' not found");;
      console_log ("Available examples: " +:+ Js.join ", " (Object.keys EXAMPLES_MAP));;
      process_exit 1
  | entry =>
      let templateDir := Path.join dirname [".."; "fhevm-hardhat-template"] in
      console_log ("🚀 Creating " +:+ exampleName +:+ " example in " +:+ show_path outputDir);;
      (* Create output directory *)
      there ← Fs.existsSync outputDir;
      when (negb there) (Fs.mkdirSync_recursive outputDir);;
      (* Copy template *)
      console_log "📁 Copying base template...";;
      Shell.cp_r_glob templateDir outputDir;;
      match entry with
      | Object.Own config =>
          (* Copy specific contract *)
          let contractSrc := Path.join dirname [".."; "contracts"; contract config] in
          let contractDest :=
            Path.join outputDir ["contracts"; Path.basename (contract config)] in
          there ← Fs.existsSync contractSrc;
          when there
            (console_log ("📄 Copying contract: " +:+ contract config);;
             Fs.copyFileSync contractSrc contractDest);;
          (* Copy specific test *)
          let testSrc := Path.join dirname [".."; "test"; test config] in
          let testDest := Path.join outputDir ["test"; Path.basename (test config)] in
          there ← Fs.existsSync testSrc;
          when there
            (console_log ("🧪 Copying test: " +:+ test config);;
             Fs.copyFileSync testSrc testDest);;
          (* Generate README *)
          let readme := generateReadme exampleName config in
          Fs.writeFileSync (Path.join outputDir ["README.md"]) readme;;
          (* Update package.json *)
          updatePackageJson outputDir exampleName config;;
          console_log ("✅ Example '" +:+ exampleName +:+ "' created successfully!");;
          console_log (Js.nl +:+ "Next steps:");;
          console_log ("  cd " +:+ show_path outputDir);;
          console_log "  npm install";;
          console_log "  npm run compile";;
          console_log "  npm run test"
      | _ =>
          (* [config.contract] is undefined on an inherited value and
             [path.join] rejects an argument that is not a string *)
          throw TypeError
      end
  end.

(** [process.cwd()] *)
Variable cwd : path.

(** CLI handling: [args] is [process.argv.slice(2)].  The output directory
    is passed on resolved, so the console lines of [createExample] show it
    in that form. *)
Definition main (args : list string) : js unit :=
  when (length args <? 2)%nat
    (console_log "Usage: node create-fhevm-example.js <example-name> <output-dir>";;
     console_log ("Available examples: " +:+ Js.join ", " (Object.keys EXAMPLES_MAP));;
     process_exit 1);;
  let exampleName := nth 0 args "" in
  let outputDir := nth 1 args "" in
  createExample exampleName (resolve cwd outputDir).

End Script.

End Example.

(** ** scripts/create-fhevm-category.js *)

Module Category.

Record config : Type := Config {
  description : string;
  examples : list string;
  contracts : list string;
  tests : list string
}.

Definition CATEGORIES : list (string * config) :=
  [ ("auctions",
     {| description := "Confidential auction mechanisms using FHEVM";
        examples := ["blind-auction"];
        contracts := ["auctions/BlindAuction.sol"];
        tests := ["auctions/BlindAuction.ts"] |});
    ("basic",
     {| description := "Fundamental FHE operations and patterns";
        examples := ["fhe-counter"; "encrypt-single-value"];
        contracts := ["basic/FHECounter.sol"];
        tests := ["basic/FHECounter.ts"] |}) ].

Definition descriptions : list (string * string) :=
  [ ("blind-auction", "Sealed-bid auction with encrypted bids");
    ("fhe-counter", "Simple encrypted counter demonstrating FHE basics");
    ("encrypt-single-value", "Basic FHE encryption patterns") ].

(** [descriptions[exampleName] || 'FHEVM example'], as the README's
    template literal prints it (the only use of the result). *)
Definition getExampleDescription (exampleName : string) : string :=
  match Object.get descriptions exampleName with
  | Object.Own text => if decide (text = "") then "FHEVM example" else text
  | Object.Inherited key => Object.inherited_to_string key
  | Object.Undefined => "FHEVM example"
  end.

Definition example_bullet (example : string) : string :=
  "- **" +:+ example +:+ "** - " +:+ getExampleDescription example.

Definition tree_line (artifact : string) : string :=
  "│   ├── " +:+ Path.basename artifact.

Definition generateCategoryReadme (categoryName : string) (config : config) : string :=
  "# " +:+
  Js.capitalize categoryName +:+
  " Examples - FHEVM

" +:+
  description config +:+
  "

## Overview

This project contains multiple FHEVM examples demonstrating " +:+
  Js.toLowerCase (description config) +:+
  ".

## Examples Included

" +:+
  Js.join Js.nl (map example_bullet (examples config)) +:+
  "

## Quick Start

```bash
# Install dependencies
npm install --legacy-peer-deps

# Compile all contracts
npm run compile

# Run all tests
npm run test

# Deploy all contracts (local)
npm run deploy:local
```

## Project Structure

```
" +:+
  categoryName +:+
  "-examples/
├── contracts/
" +:+
  Js.join Js.nl (map tree_line (contracts config)) +:+
  "
├── test/
" +:+
  Js.join Js.nl (map tree_line (tests config)) +:+
  "
│   └── utils/
│       └── fhevm.ts
├── deploy/
└── README.md
```

## Key Concepts

This category demonstrates:
- Encrypted data handling with FHEVM
- Permission management with FHE.allow() and FHE.allowThis()
- " +:+
  (if decide (categoryName = "auctions")
   then "Confidential bidding and auction mechanisms"
   else "Basic FHE operations and patterns") +:+
  "
- Public decryption patterns
- Common pitfalls and best practices

## Testing

Each example includes comprehensive tests showing:
- ✅ Correct usage patterns
- ❌ Common mistakes and edge cases
- 🔧 Permission handling
- 📊 Gas usage patterns

## Resources

- [FHEVM Documentation](https://docs.zama.ai/fhevm)
- [Zama Protocol Examples](https://docs.zama.org/protocol/examples)
- [GitHub Repository](https://github.com/zama-ai/fhevm)

## License

BSD-3-Clause-Clear
".

Definition keywords (categoryName : string) : list string :=
  ["fhevm"; "zama"; "fhe"; "privacy"; "blockchain"; categoryName; "examples"].

Definition updateCategoryPackageJson (outputDir : path) (categoryName : string)
    (config : config) : js unit :=
  let packageJsonPath := Path.join outputDir ["package.json"] in
  text ← Fs.readFileSync packageJsonPath;
  packageJson ← JSON_parse text;
  packageJson ← set_field packageJson "name"
                  (JStr ("fhevm-" +:+ categoryName +:+ "-examples"));
  packageJson ← set_field packageJson "description" (JStr (description config));
  packageJson ← set_field packageJson "keywords" (JArr (map JStr (keywords categoryName)));
  Fs.writeFileSync packageJsonPath (Json.stringify packageJson).

Section Script.

Variable dirname : path.

(** The body of one [forEach] callback: copy the artifact if its source
    exists. *)
Definition copy_artifact (kind : string) (outputDir : path) (artifact : string)
  : js unit :=
  let src := Path.join dirname [".."; kind; artifact] in
  let dest := Path.join outputDir [kind; Path.basename artifact] in
  there ← Fs.existsSync src;
  when there
    (console_log ("  - " +:+ artifact);;
     Fs.copyFileSync src dest).

Definition createCategory (categoryName : string) (outputDir : path) : js unit :=
  match Object.get CATEGORIES categoryName with
  | Object.Undefined =>
      console_error ("❌ Category '" +:+ categoryName +:+ "' not found");;
      console_log ("Available categories: " +:+ Js.join ", " (Object.keys CATEGORIES));;
      process_exit 1
  | entry =>
      let templateDir := Path.join dirname [".."; "fhevm-hardhat-template"] in
      console_log ("🚀 Creating " +:+ categoryName +:+ " category project in "
                   +:+ show_path outputDir);;
      (* Create output directory *)
      there ← Fs.existsSync outputDir;
      when (negb there) (Fs.mkdirSync_recursive outputDir);;
      (* Copy template *)
      console_log "📁 Copying base template...";;
      Shell.cp_r_glob templateDir outputDir;;
      match entry with
      | Object.Own config =>
          (* Copy all contracts from category *)
          console_log ("📄 Copying " +:+ pretty (length (contracts config)) +:+ " contracts...");;
          forEach (contracts config) (copy_artifact "contracts" outputDir);;
          (* Copy all tests from category *)
          console_log ("🧪 Copying " +:+ pretty (length (tests config)) +:+ " tests...");;
          forEach (tests config) (copy_artifact "test" outputDir);;
          (* Copy utils *)
          let utilsSrc := Path.join dirname [".."; "test"; "utils"] in
          let utilsDest := Path.join outputDir ["test"; "utils"] in
          there ← Fs.existsSync utilsSrc;
          when there (Shell.cp_r utilsSrc utilsDest);;
          (* Generate README *)
          let readme := generateCategoryReadme categoryName config in
          Fs.writeFileSync (Path.join outputDir ["README.md"]) readme;;
          (* Update package.json *)
          updateCategoryPackageJson outputDir categoryName config;;
          console_log ("✅ Category '" +:+ categoryName +:+ "' project created successfully!");;
          console_log (Js.nl +:+ "Next steps:");;
          console_log ("  cd " +:+ show_path outputDir);;
          console_log "  npm install --legacy-peer-deps";;
          console_log "  npm run compile";;
          console_log "  npm run test"
      | _ =>
          (* [config.contracts] is undefined on an inherited value and
             reading its [length] throws *)
          throw TypeError
      end
  end.

(** [process.cwd()] *)
Variable cwd : path.

(** CLI handling: [args] is [process.argv.slice(2)]. *)
Definition main (args : list string) : js unit :=
  when (length args <? 2)%nat
    (console_log "Usage: node create-fhevm-category.js <category-name> <output-dir>";;
     console_log ("Available categories: " +:+ Js.join ", " (Object.keys CATEGORIES));;
     process_exit 1);;
  let categoryName := nth 0 args "" in
  let outputDir := nth 1 args "" in
  createCategory categoryName (resolve cwd outputDir).

End Script.

End Category.

(** ** scripts/generate-docs.js *)

Module Docs.

Record config : Type := Config {
  title : string;
  description : string;
  category : string;
  concepts : list string
}.

Definition DOCS_CONFIG : list (string * config) :=
  [ ("blind-auction",
     {| title := "Blind Auction";
        description := "Sealed-bid auction with encrypted bids using FHEVM";
        category := "Advanced Examples";
        concepts := ["Encrypted bidding"; "Access control"; "Public decryption";
                     "Auction mechanics"] |});
    ("fhe-counter",
     {| title := "FHE Counter";
        description := "Simple encrypted counter demonstrating basic FHE operations";
        category := "Basic Examples";
        concepts := ["Encrypted state"; "FHE arithmetic"; "Permission management"] |}) ].

Definition contractMap : list (string * string) :=
  [ ("blind-auction", "contracts/auctions/BlindAuction.sol");
    ("fhe-counter", "contracts/basic/FHECounter.sol") ].

Definition testMap : list (string * string) :=
  [ ("blind-auction", "test/auctions/BlindAuction.ts");
    ("fhe-counter", "test/basic/FHECounter.ts") ].

Definition concept_bullet (concept : string) : string :=
  "- **" +:+ concept +:+ "**".

(** The template literal that [generateMarkdownDoc] returns. *)
Definition markdown (config : config) (contractCode testCode : string) : string :=
  "# " +:+
  title config +:+
  "

" +:+
  description config +:+
  "

## Overview

This example demonstrates " +:+
  Js.toLowerCase (description config) +:+
  ".

## Key Concepts

" +:+
  Js.join Js.nl (map concept_bullet (concepts config)) +:+
  "

## Contract Implementation

```solidity
" +:+
  contractCode +:+
  "
```

## Test Suite

The test suite demonstrates both correct usage and common pitfalls:

```typescript
" +:+
  testCode +:+
  "
```

## Usage

### Deploy the Contract

```bash
npm run deploy:local
```

### Run Tests

```bash
npm run test
```

## Important Patterns

### ✅ Correct Usage

- Always call `FHE.allowThis()` for contract permissions
- Use `FHE.allow()` for user permissions
- Match encryption signer with transaction sender

### ❌ Common Mistakes

- Forgetting `allowThis()` permissions
- Mismatching encryption context
- Using deprecated API functions

## Resources

- [FHEVM Documentation](https://docs.zama.ai/fhevm)
- [Zama Protocol Examples](https://docs.zama.org/protocol/examples)
- [GitHub Repository](https://github.com/zama-ai/fhevm)
".

Definition summary_skeleton : string :=
  "# Summary

## Introduction

* [Overview](README.md)

## Examples

".

Definition entryLine (exampleName : string) (config : config) : string :=
  "* [" +:+ title config +:+ "](" +:+ exampleName +:+ ".md)".

(** [let text = fallback; if (fs.existsSync(p)) text = fs.readFileSync(p, 'utf8')]
    (written with [else] in [updateSummary]) *)
Definition read_if_exists (p : path) (fallback : string) : js string :=
  Fs.existsSync p ≫= λ there : bool,
  if there then Fs.readFileSync p else mret fallback.

Definition updateSummary (outputDir : path) (exampleName : string) (config : config)
  : js unit :=
  let summaryPath := Path.join outputDir ["SUMMARY.md"] in
  summaryContent ← read_if_exists summaryPath summary_skeleton;
  (* Add entry if not exists *)
  let entryLine := entryLine exampleName config in
  let summaryContent :=
    if Js.includes summaryContent entryLine then summaryContent
    else summaryContent +:+ entryLine +:+ Js.nl in
  Fs.writeFileSync summaryPath summaryContent;;
  console_log "📝 Updated SUMMARY.md".

Section Script.

Variable dirname : path.

(** [process.cwd()], against which the default ['./docs'] is resolved. *)
Variable cwd : path.

(** [path.join(__dirname, '..', table[exampleName] || '')] *)
Definition artifact_path (table : list (string * string)) (exampleName : string)
  : js path :=
  match Object.get table exampleName with
  | Object.Own rel => mret (Path.join dirname [".."; rel])
  | Object.Undefined => mret (Path.join dirname [".."; ""])
  | Object.Inherited _ => throw TypeError   (* path.join: not a string *)
  end.

Definition getContractPath (exampleName : string) : js path :=
  artifact_path contractMap exampleName.

Definition getTestPath (exampleName : string) : js path :=
  artifact_path testMap exampleName.

Definition generateMarkdownDoc (exampleName : string) (entry : Object.property config)
  : js string :=
  contractPath ← getContractPath exampleName;
  testPath ← getTestPath exampleName;
  contractCode ← read_if_exists contractPath "";
  testCode ← read_if_exists testPath "";
  match entry with
  | Object.Own config => mret (markdown config contractCode testCode)
  | _ => throw TypeError   (* [config.description] is undefined *)
  end.

Definition generateDocs (exampleName : string) (outputDir : option path) : js unit :=
  let outputDir := default (Path.join cwd ["./docs"]) outputDir in
  match Object.get DOCS_CONFIG exampleName with
  | Object.Undefined =>
      console_error ("❌ Documentation config for '" +:+ exampleName +:+ "' not found");;
      process_exit 1
  | entry =>
      console_log ("📚 Generating documentation for " +:+ exampleName);;
      (* Create docs directory *)
      there ← Fs.existsSync outputDir;
      when (negb there) (Fs.mkdirSync_recursive outputDir);;
      (* Generate markdown documentation *)
      docContent ← generateMarkdownDoc exampleName entry;
      let docPath := Path.join outputDir [exampleName +:+ ".md"] in
      Fs.writeFileSync docPath docContent;;
      console_log ("✅ Documentation generated: " +:+ show_path docPath);;
      (* Update SUMMARY.md *)
      match entry with
      | Object.Own config => updateSummary outputDir exampleName config
      | _ => throw TypeError
      end
  end.

Definition generateAllDocs : js unit :=
  console_log "📚 Generating documentation for all examples...";;
  forEach (Object.keys DOCS_CONFIG) (λ exampleName, generateDocs exampleName None);;
  console_log "✅ All documentation generated successfully!".

(** CLI handling: [args] is [process.argv.slice(2)]; a second argument
    that is missing leaves [outputDir] undefined, and the default of
    [generateDocs] applies. *)
Definition main (args : list string) : js unit :=
  when ((length args =? 0)%nat || bool_decide (nth 0 args "" = "--help"))
    (console_log "Usage: node generate-docs.js <example-name> [output-dir]";;
     console_log "       node generate-docs.js --all";;
     console_log ("Available examples: " +:+ Js.join ", " (Object.keys DOCS_CONFIG));;
     process_exit 0);;
  if bool_decide (nth 0 args "" = "--all") then generateAllDocs
  else
    let exampleName := nth 0 args "" in
    let outputDir := resolve cwd <$> args !! 1%nat in
    generateDocs exampleName outputDir.

End Script.

End Docs.


(** * Specification vocabulary *)

(** *** Paths that the shell hands on as they are

    The two [cp] commands are built by pasting paths into a [/bin/sh]
    command line without quotes, so a blank or another character that the
    shell interprets changes what is copied, and where to.  [Shell.cp_r_glob]
    and [Shell.cp_r] describe the commands for paths that the shell neither
    splits nor expands: every segment consists of letters, digits, dots,
    underscores and hyphens.  Every statement about a run that reaches a
    [cp] assumes this of the checkout ([__dirname]) and of the destination. *)
Fixpoint all_chars (f : ascii → bool) (s : string) : bool :=
  match s with
  | EmptyString => true
  | String c r => f c && all_chars f r
  end.

Definition shell_plain (c : ascii) : bool :=
  let n := nat_of_ascii c in
  ((48 <=? n)%nat && (n <=? 57)%nat) || ((65 <=? n)%nat && (n <=? 90)%nat)
  || ((97 <=? n)%nat && (n <=? 122)%nat)
  || (n =? 46)%nat || (n =? 95)%nat || (n =? 45)%nat.

Definition shell_safe (p : path) : bool := forallb (all_chars shell_plain) p.

(** *** Manifests that are printed as they were read

    [JSON.stringify] prints a number in the engine's shortest form, lists
    the integer-like keys of an object first, and escapes a lone
    surrogate; [Json.stringify] prints the literal that was read, keeps
    the textual order and knows no surrogates.  The two agree on a value
    in which every number is [0] or a decimal integer of at most fifteen
    digits without leading zero (and without a sign on zero), no key is a
    string of digits, and no string holds a code point from the surrogate
    block (whose UTF-8 form starts with the byte 237). *)
Definition integer_like (k : string) : bool :=
  negb (bool_decide (k = "")) && all_chars Json.is_digit k.

Definition prints_as_read (literal : string) : bool :=
  bool_decide (literal = "0") ||
  let body := match literal with
              | String "-" r => r
              | _ => literal
              end in
  match body with
  | String c r =>
      Json.is_digit c && negb (Ascii.eqb c "0") && all_chars Json.is_digit r
      && (String.length body <=? 15)%nat
  | EmptyString => false
  end.

Definition no_surrogate (s : string) : bool :=
  all_chars (λ c, negb (nat_of_ascii c =? 237)%nat) s.

Fixpoint printable (v : json) : bool :=
  match v with
  | JNum literal => prints_as_read literal
  | JStr s => no_surrogate s
  | JArr items => forallb printable items
  | JObj members =>
      forallb (λ m, negb (integer_like m.1) && no_surrogate m.1 && printable m.2) members
  | _ => true
  end.

(** A text without a line break. *)
Definition no_newline (s : string) : bool :=
  negb (Js.includes s Js.nl).

(** Segments that [path.join] appends as they are. *)
Definition plain (seg : string) : bool :=
  negb (bool_decide (seg = "") || bool_decide (seg = ".") || bool_decide (seg = "..")).

(** *** A small program logic

    [hoare P m Q E]: from a world in [P], a run of [m] that returns [a]
    ends in a world in [Q a]; a run that stops by [process.exit] or by an
    exception ends in a world in [E]. *)
Definition hoare {A} (P : world → Prop) (m : js A)
    (Q : A → world → Prop) (E : nat + error → world → Prop) : Prop :=
  ∀ w, P w →
    match m w with
    | (Returned a, w') => Q a w'
    | (Exited code, w') => E (inl code) w'
    | (Thrown e, w') => E (inr e) w'
    end.

(** The world with another file system, and with one more console line. *)
Definition with_files (w : world) (fs : gmap path node) : world :=
  World fs (stdout w) (stderr w).

Definition logged (w : world) (line : string) : world :=
  World (files w) (stdout w ++ [line]) (stderr w).

Definition complained (w : world) (line : string) : world :=
  World (files w) (stdout w) (stderr w ++ [line]).

(** No prefix of [p], [p] included, is a regular file: [mkdir -p p] goes
    through and [p] is a directory afterwards. *)
Definition creatable (fs : gmap path node) (p : path) : bool :=
  negb (existsb (λ q, Fs.is_file (Fs.stat fs q)) (Path.ancestors_and_self p)).

(** The file system as [createExample] finds it when it reaches the
    template copy. *)
Definition ensure_dir (fs : gmap path node) (p : path) : gmap path node :=
  if bool_decide (is_Some (Fs.stat fs p)) then fs else Fs.mkdirp fs p.

(** Everything below [src] hangs on directories: [src] is a directory
    tree (or a single file, or nothing). *)
Definition is_tree (fs : gmap path node) (src : path) : bool :=
  bool_decide (map_Forall
    (λ rel _, forallb (λ r, Fs.is_dir (fs !! (src ++ r))) (Shell.proper_prefixes rel) = true)
    (Shell.subtree fs src)).

(** Nothing lies below [p]: [p] is missing or an empty directory. *)
Definition empty_below (fs : gmap path node) (p : path) : bool :=
  bool_decide (map_Forall (λ rel _, rel = []) (Shell.subtree fs p)).

(** A README line that lists an example. *)
Definition is_bullet (line : string) : bool := String.prefix "- **" line.

(** What [read_if_exists] yields at [p]: the text of a regular file, the
    fallback for a missing one; a directory makes the read throw
    ([None]). *)
Definition text_or (fallback : string) (fs : gmap path node) (p : path)
  : option string :=
  match Fs.stat fs p with
  | Some (File content) => Some content
  | Some Dir => None
  | None => Some fallback
  end.

(** The artifact paths of [generate-docs.js] for a registered example. *)
Definition docs_contract_path (dirname : path) (exampleName : string) : path :=
  Path.join dirname [".."; default "" (Object.own Docs.contractMap exampleName)].

Definition docs_test_path (dirname : path) (exampleName : string) : path :=
  Path.join dirname [".."; default "" (Object.own Docs.testMap exampleName)].

(** The index after [updateSummary] found [prior]. *)
Definition with_entry (prior entry : string) : string :=
  if Js.includes prior entry then prior else prior +:+ entry +:+ Js.nl.

(** [kept U fs fs']: going from [fs] to [fs'], nothing that existed has
    disappeared, and what existed at a path in [U] is unchanged. *)
Definition kept (U : path → Prop) (fs fs' : gmap path node) : Prop :=
  ∀ p n, fs !! p = Some n → is_Some (fs' !! p) ∧ (U p → fs' !! p = Some n).

(** The paths of the destination that [createExample] may write: where
    the template has something at the same relative path that
    [template/*] reaches (the first segment does not start with a dot),
    the two artifacts, the README and the manifest.  A path is unrelated
    to the materialization when it is none of these. *)
Definition unrelated_to_example (dirname out : path) (cfg : Example.config)
    (fs : gmap path node) (p : path) : Prop :=
  (∀ name rest, p = out ++ name :: rest → Shell.visible name = true →
     fs !! (Path.join dirname [".."; "fhevm-hardhat-template"] ++ name :: rest) = None) ∧
  p ≠ Path.join out ["contracts"; Path.basename (Example.contract cfg)] ∧
  p ≠ Path.join out ["test"; Path.basename (Example.test cfg)] ∧
  p ≠ Path.join out ["README.md"] ∧
  p ≠ Path.join out ["package.json"].

(** The same for [createCategory], which also copies the shared test
    helpers to [test/utils]. *)
Definition unrelated_to_category (dirname out : path) (cfg : Category.config)
    (fs : gmap path node) (p : path) : Prop :=
  (∀ name rest, p = out ++ name :: rest → Shell.visible name = true →
     fs !! (Path.join dirname [".."; "fhevm-hardhat-template"] ++ name :: rest) = None) ∧
  (∀ c, c ∈ Category.contracts cfg → p ≠ Path.join out ["contracts"; Path.basename c]) ∧
  (∀ t, t ∈ Category.tests cfg → p ≠ Path.join out ["test"; Path.basename t]) ∧
  Path.is_prefix (Path.join out ["test"; "utils"]) p = false ∧
  p ≠ Path.join out ["README.md"] ∧
  p ≠ Path.join out ["package.json"].

(** Neither path lies at or below the other. *)
Definition apart (p q : path) : bool :=
  negb (Path.is_prefix p q) && negb (Path.is_prefix q p).

(** An artifact source the scripts can handle: a regular file, or nothing. *)
Definition file_or_absent (fs : gmap path node) (p : path) : bool :=
  negb (Fs.is_dir (Fs.stat fs p)).

(** What is at an artifact's destination after the overlay: the copy of
    the source when there is one, otherwise what the template put there. *)
Definition overlaid (fs : gmap path node) (src from_template : path) : option node :=
  match fs !! src with
  | Some n => Some n
  | None => fs !! from_template
  end.

(** The manifest object after the three stores of [updatePackageJson]. *)
Definition rewritten (parsed : json) (name description : string)
    (keywords : list string) : option json :=
  v ← Json.assign parsed "name" (JStr name);
  v ← Json.assign v "description" (JStr description);
  Json.assign v "keywords" (JArr (map JStr keywords)).


(** ** A sample checkout

    The repository checked out at [/srv/hub], with a small base template,
    the sources of the [fhe-counter] example and the shared test helper. *)

Definition sample_dirname : path := ["srv"; "hub"; "scripts"].
Definition sample_cwd : path := ["srv"; "hub"].
Definition sample_out : path := ["srv"; "out"; "x"].

Definition sample_manifest : string :=
  Json.stringify
    (JObj [ ("name", JStr "fhevm-hardhat-template");
            ("version", JStr "0.1.0");
            ("keywords", JArr [JStr "hardhat"]) ]).

Definition sample_template : list (path * node) :=
  let t := ["srv"; "hub"; "fhevm-hardhat-template"] in
  [ (t, Dir);
    (t ++ ["package.json"], File sample_manifest);
    (t ++ [".gitignore"], File "node_modules");
    (t ++ ["contracts"], Dir);
    (t ++ ["test"], Dir);
    (t ++ ["deploy"], Dir);
    (t ++ ["deploy"; "deploy.ts"], File "export default func;") ].

Definition sample_sources : list (path * node) :=
  let r := ["srv"; "hub"] in
  [ (["srv"], Dir); (r, Dir); (r ++ ["scripts"], Dir);
    (r ++ ["contracts"], Dir);
    (r ++ ["contracts"; "basic"], Dir);
    (r ++ ["contracts"; "basic"; "FHECounter.sol"], File "contract FHECounter {}");
    (r ++ ["test"], Dir);
    (r ++ ["test"; "basic"], Dir);
    (r ++ ["test"; "basic"; "FHECounter.ts"], File "describe('FHECounter')");
    (r ++ ["test"; "utils"], Dir);
    (r ++ ["test"; "utils"; "fhevm.ts"], File "export async function createFhevmInstance() {}") ].

Definition sample_world : world :=
  World (list_to_map (sample_sources ++ sample_template)) [] [].

(** The same checkout without the base template. *)
Definition world_without_template : world :=
  World (list_to_map sample_sources) [] [].

(** The same checkout after [contracts/basic/FHECounter.sol] was deleted. *)
Definition world_without_contract : world :=
  World (delete ["srv"; "hub"; "contracts"; "basic"; "FHECounter.sol"]
           (files sample_world)) [] [].

(** The registered entries of [fhe-counter] and of the category [basic]. *)
Definition fhe_counter_docs : Docs.config :=
  default (Docs.Config "" "" "" []) (Object.own Docs.DOCS_CONFIG "fhe-counter").

Definition fhe_counter_example : Example.config :=
  default (Example.Config "" "" "" "") (Object.own Example.EXAMPLES_MAP "fhe-counter").

Definition basic_category : Category.config :=
  default (Category.Config "" [] [] []) (Object.own Category.CATEGORIES "basic").

(** The sample checkout with a destination that already holds two files
    of the user's. *)
Definition world_with_notes : world :=
  World (<[sample_out ++ ["notes.txt"] := File "keep me"]>
           (<[sample_out ++ [".gitignore"] := File "dist"]>
              (<[sample_out := Dir]> (<[["srv"; "out"] := Dir]> (files sample_world)))))
        [] [].

(** The members of the sample manifest. *)
Definition sample_members : list (string * json) :=
  [ ("name", JStr "fhevm-hardhat-template");
    ("version", JStr "0.1.0");
    ("keywords", JArr [JStr "hardhat"]) ].

(** A directory [/p] that holds an empty manifest, and an entry whose
    category is one of the fixed keywords. *)
Definition bare_project : world :=
  World (list_to_map [ (["p"], Dir); (["p"; "package.json"], File "{}") ]) [] [].

Definition fhe_category_entry : Example.config :=
  {| Example.contract := "basic/FHECounter.sol";
     Example.test := "basic/FHECounter.ts";
     Example.description := "Simple encrypted counter demonstrating FHE basics";
     Example.category := "fhe" |}.

(** Projects whose manifest is cut short, or is the JSON text [null]. *)
Definition truncated_project : world :=
  World (list_to_map [ (["p"], Dir); (["p"; "package.json"], File "{") ]) [] [].

Definition null_project : world :=
  World (list_to_map [ (["p"], Dir); (["p"; "package.json"], File "null") ]) [] [].

(** A project directory [/p] that holds the sample manifest. *)
Definition sample_project : world :=
  World (list_to_map [ (["p"], Dir); (["p"; "package.json"], File sample_manifest) ]) [] [].

(** The sample checkout with a base template that has a [test/utils]
    directory of its own. *)
Definition world_with_template_utils : world :=
  World (<[["srv"; "hub"; "fhevm-hardhat-template"; "test"; "utils"] := Dir]>
           (files sample_world)) [] [].

(** The sample checkout with an index that does not end with a line
    break, and with one that lists the [fhe-counter] entry twice. *)
Definition world_with_unfinished_index : world :=
  World (<[["srv"; "hub"; "docs"; "SUMMARY.md"] := File "# Summary"]>
           (<[["srv"; "hub"; "docs"] := Dir]> (files sample_world)))
        [] [].

Definition world_with_doubled_index : world :=
  World (<[["srv"; "hub"; "docs"; "SUMMARY.md"]
           := File ("* [FHE Counter](fhe-counter.md)" +:+ Js.nl +:+
                    "* [FHE Counter](fhe-counter.md)" +:+ Js.nl)]>
           (<[["srv"; "hub"; "docs"] := Dir]> (files sample_world)))
        [] [].


(** ** Materialization into a fresh directory: what to expect *)

(** The file system after [mkdir -p out] (if needed) and the copy of the
    template's visible entries into [out]. *)
Definition template_copy (fs : gmap path node) (tmpl out : path) : gmap path node :=
  let fs1 := ensure_dir fs out in
  (Shell.copy_tree fs1 tmpl out (Shell.under_glob fs1 tmpl)).1.

(** [if (fs.existsSync(src)) { console.log(line); fs.copyFileSync(src, dest) }]
    for a source that is a regular file or missing: the files, and the
    console lines, afterwards. *)
Definition copied (src dest : path) (fs : gmap path node) : gmap path node :=
  match fs !! src with
  | Some (File c) => <[dest := File c]> fs
  | _ => fs
  end.

Definition copy_report (src : path) (line : string) (fs : gmap path node)
  : list string :=
  match fs !! src with
  | Some (File _) => [line]
  | _ => []
  end.

(** The destination can be set up from scratch: it can be created, holds
    nothing yet, and is neither inside the template nor around it. *)
Definition fresh_destination (fs : gmap path node) (tmpl out : path) : bool :=
  creatable fs out && empty_below fs out && apart out tmpl.

(** The base template is a directory tree with a [contracts] and a [test]
    directory, and its [README.md], if any, is a file. *)
Definition template_ready (fs : gmap path node) (tmpl : path) : bool :=
  bool_decide (fs !! tmpl = Some Dir) && is_tree fs tmpl
  && bool_decide (fs !! (tmpl ++ ["contracts"]) = Some Dir)
  && bool_decide (fs !! (tmpl ++ ["test"]) = Some Dir)
  && negb (Fs.is_dir (fs !! (tmpl ++ ["README.md"]))).

(** An artifact can be overlaid: its source is a file or missing and lies
    apart from the destination, and the template has no directory where
    the copy goes. *)
Definition artifact_ready (fs : gmap path node) (tmpl out src : path)
    (kind base : string) : bool :=
  file_or_absent fs src && apart out src
  && negb (Fs.is_dir (fs !! (tmpl ++ [kind; base]))).

(** The outcome of [createExample] in a fresh destination: the files ... *)
Definition example_files (dirname : path) (id : string) (cfg : Example.config)
    (out : path) (manifest : json) (fs : gmap path node) : gmap path node :=
  let tmpl := Path.join dirname [".."; "fhevm-hardhat-template"] in
  let fs := template_copy fs tmpl out in
  let fs := copied (Path.join dirname [".."; "contracts"; Example.contract cfg])
              (Path.join out ["contracts"; Path.basename (Example.contract cfg)]) fs in
  let fs := copied (Path.join dirname [".."; "test"; Example.test cfg])
              (Path.join out ["test"; Path.basename (Example.test cfg)]) fs in
  let fs := <[Path.join out ["README.md"] := File (Example.generateReadme id cfg)]> fs in
  <[Path.join out ["package.json"] := File (Json.stringify manifest)]> fs.

(** ... and the lines on standard output. *)
Definition example_log (dirname : path) (id : string) (cfg : Example.config)
    (out : path) (fs : gmap path node) : list string :=
  [ "🚀 Creating " +:+ id +:+ " example in " +:+ show_path out;
    "📁 Copying base template..." ]
  ++ copy_report (Path.join dirname [".."; "contracts"; Example.contract cfg])
       ("📄 Copying contract: " +:+ Example.contract cfg) fs
  ++ copy_report (Path.join dirname [".."; "test"; Example.test cfg])
       ("🧪 Copying test: " +:+ Example.test cfg) fs
  ++ [ "✅ Example '" +:+ id +:+ "' created successfully!";
       Js.nl +:+ "Next steps:";
       "  cd " +:+ show_path out;
       "  npm install";
       "  npm run compile";
       "  npm run test" ].

(** Where [cp -r utilsSrc utilsDest] puts the copy in a fresh destination,
    relative to it: inside [test/utils] when the template brought such a
    directory, as [test/utils] otherwise. *)
Definition utils_rel (fs : gmap path node) (tmpl : path) : path :=
  if Fs.is_dir (fs !! (tmpl ++ ["test"; "utils"]))
  then ["test"; "utils"; "utils"] else ["test"; "utils"].

(** The shared test helpers can be copied: they lie apart from the
    destination and, if they exist, form a tree and the template has
    nothing where the copy goes. *)
Definition utils_ready (fs : gmap path node) (tmpl out utilsSrc : path) : bool :=
  apart out utilsSrc &&
  match fs !! utilsSrc with
  | None => true
  | Some _ =>
      is_tree fs utilsSrc &&
      bool_decide (Shell.subtree fs (tmpl ++ utils_rel fs tmpl) = ∅)
  end.

(** The files after a successful [if (fs.existsSync(src)) cp -r src dest]. *)
Definition utils_copied (src dest : path) (fs : gmap path node) : gmap path node :=
  match fs !! src with
  | None => fs
  | Some _ =>
      let target := if Fs.is_dir (Fs.stat fs dest) then dest ++ [Path.leaf src] else dest in
      (Shell.copy_tree fs src target (λ _, true)).1
  end.

(** The outcome of [createCategory] in a fresh destination: the files ... *)
Definition category_files (dirname : path) (id : string) (cfg : Category.config)
    (out : path) (manifest : json) (fs : gmap path node) : gmap path node :=
  let tmpl := Path.join dirname [".."; "fhevm-hardhat-template"] in
  let fs := template_copy fs tmpl out in
  let fs := foldl (λ fs c, copied (Path.join dirname [".."; "contracts"; c])
                             (Path.join out ["contracts"; Path.basename c]) fs)
              fs (Category.contracts cfg) in
  let fs := foldl (λ fs t, copied (Path.join dirname [".."; "test"; t])
                             (Path.join out ["test"; Path.basename t]) fs)
              fs (Category.tests cfg) in
  let fs := utils_copied (Path.join dirname [".."; "test"; "utils"])
              (Path.join out ["test"; "utils"]) fs in
  let fs := <[Path.join out ["README.md"]
              := File (Category.generateCategoryReadme id cfg)]> fs in
  <[Path.join out ["package.json"] := File (Json.stringify manifest)]> fs.

(** ... and the lines on standard output. *)
Definition category_log (dirname : path) (id : string) (cfg : Category.config)
    (out : path) (fs : gmap path node) : list string :=
  [ "🚀 Creating " +:+ id +:+ " category project in " +:+ show_path out;
    "📁 Copying base template...";
    "📄 Copying " +:+ pretty (length (Category.contracts cfg)) +:+ " contracts..." ]
  ++ concat (map (λ c, copy_report (Path.join dirname [".."; "contracts"; c])
                         ("  - " +:+ c) fs) (Category.contracts cfg))
  ++ [ "🧪 Copying " +:+ pretty (length (Category.tests cfg)) +:+ " tests..." ]
  ++ concat (map (λ t, copy_report (Path.join dirname [".."; "test"; t])
                         ("  - " +:+ t) fs) (Category.tests cfg))
  ++ [ "✅ Category '" +:+ id +:+ "' project created successfully!";
       Js.nl +:+ "Next steps:";
       "  cd " +:+ show_path out;
       "  npm install --legacy-peer-deps";
       "  npm run compile";
       "  npm run test" ].

(** * Verification *)


(** * Properties *)

(** ** Strings *)

Lemma append_nil_l (s : string) : "" +:+ s = s.
Proof. reflexivity. Qed.

Lemma append_cons (c : ascii) (s t : string) : String c s +:+ t = String c (s +:+ t).
Proof. reflexivity. Qed.

Lemma append_nil_r (s : string) : s +:+ "" = s.
Proof. induction s as [|x s IH]; [done|]. by rewrite append_cons, IH. Qed.

Lemma string_app_assoc (a b c : string) : (a +:+ b) +:+ c = a +:+ (b +:+ c).
Proof.
  induction a as [|x a IH]; [done|]. by rewrite !append_cons, IH.
Qed.

Ltac str_simpl := rewrite ?append_cons, ?append_nil_l; simpl.

Lemma prefix_app (t b : string) : String.prefix t (t +:+ b) = true.
Proof.
  induction t as [|x t IH]; str_simpl; [by destruct b|].
  destruct (ascii_dec x x); [done|congruence].
Qed.

Lemma includes_here (s t : string) : String.prefix t s = true → Js.includes s t = true.
Proof. intros H. destruct s; simpl in *; rewrite H; done. Qed.

Lemma includes_cons (c : ascii) (s t : string) :
  Js.includes s t = true → Js.includes (String c s) t = true.
Proof. intros H. simpl. rewrite H. apply orb_true_r. Qed.

Lemma includes_app (a t b : string) : Js.includes (a +:+ t +:+ b) t = true.
Proof.
  induction a as [|x a IH]; str_simpl.
  - apply includes_here, prefix_app.
  - rewrite IH. apply orb_true_r.
Qed.

Lemma prefix_app_l (t s b : string) :
  String.prefix t s = true → String.prefix t (s +:+ b) = true.
Proof.
  revert s. induction t as [|z t IH]; intros [|y s];
    rewrite ?append_cons, ?append_nil_l; simpl; try done.
  - by destruct b.
  - destruct (ascii_dec z y); [|done]. apply IH.
Qed.

Lemma includes_unfold (c : ascii) (s t : string) :
  Js.includes (String c s) t = String.prefix t (String c s) || Js.includes s t.
Proof. reflexivity. Qed.

Lemma includes_app_l (a b t : string) :
  Js.includes a t = true → Js.includes (a +:+ b) t = true.
Proof.
  induction a as [|x a IH].
  - destruct t; [|done]. intros _. destruct b; done.
  - rewrite append_cons, !includes_unfold. intros [H|H]%orb_true_iff.
    + apply orb_true_iff; left. rewrite <- append_cons. by apply prefix_app_l.
    + apply orb_true_iff; right. by apply IH.
Qed.

Lemma includes_app_r (a b t : string) :
  Js.includes b t = true → Js.includes (a +:+ b) t = true.
Proof.
  intros H. induction a as [|x a IH]; str_simpl; [done|].
  rewrite IH. apply orb_true_r.
Qed.

(** *** Lines *)

Lemma split_on_nonempty (sep : ascii) (s : string) : Js.split_on sep s ≠ [].
Proof.
  induction s as [|c s IH]; simpl; [done|].
  destruct (Ascii.eqb c sep); [done|]. by destruct (Js.split_on sep s).
Qed.

Lemma lines_cons_newline (s : string) :
  Js.lines (String Js.newline s) = "" :: Js.lines s.
Proof. reflexivity. Qed.

Lemma lines_cons_other (c : ascii) (s : string) :
  c ≠ Js.newline →
  ∃ l ls, Js.lines s = l :: ls ∧ Js.lines (String c s) = String c l :: ls.
Proof.
  intros Hc. unfold Js.lines. simpl.
  destruct (Ascii.eqb_spec c Js.newline) as [|_]; [done|].
  pose proof (split_on_nonempty Js.newline s) as Hne.
  destruct (Js.split_on Js.newline s) as [|l ls]; [done|]. eauto.
Qed.

(** Appending to a text whose last line is empty starts a new line. *)
Lemma lines_app_fresh_line (c x : string) (ls : list string) :
  Js.lines c = ls ++ [""] → Js.lines (c +:+ x) = ls ++ Js.lines x.
Proof.
  revert ls. induction c as [|a c IH]; intros ls Hc.
  - simpl in *. destruct ls as [|? [|? ?]]; simplify_eq/=; done.
  - destruct (decide (a = Js.newline)) as [->|Ha].
    + rewrite lines_cons_newline in Hc. rewrite append_cons.
      change (Js.lines (String Js.newline (c +:+ x))) with ("" :: Js.lines (c +:+ x)).
      destruct ls as [|l ls].
      * simpl in Hc. injection Hc as Hc. by destruct (split_on_nonempty Js.newline c).
      * simpl in Hc. injection Hc as <- Hc. simpl. f_equal. by apply IH.
    + destruct (lines_cons_other a c Ha) as (l & rest & Hl & Hcons).
      rewrite Hcons in Hc.
      destruct ls as [|l0 ls]; [simpl in Hc; simplify_eq|].
      simpl in Hc. injection Hc as <- Hrest. subst rest.
      specialize (IH (l :: ls) Hl).
      rewrite append_cons. destruct (lines_cons_other a (c +:+ x) Ha) as (l' & rest' & Hl' & Hcons').
      rewrite Hcons'. rewrite IH in Hl'. simpl in Hl'. by simplify_eq.
Qed.

(** Every line of a text occurs in the text. *)
Lemma lines_includes (s l : string) : l ∈ Js.lines s → Js.includes s l = true.
Proof.
  revert l. induction s as [|a s IH]; intros l Hl.
  - apply list_elem_of_singleton in Hl as ->. done.
  - destruct (decide (a = Js.newline)) as [->|Ha].
    + rewrite lines_cons_newline in Hl. apply elem_of_cons in Hl as [->|Hl].
      * done.
      * apply includes_cons. by apply IH.
    + destruct (lines_cons_other a s Ha) as (l0 & rest & Hl0 & Hcons).
      rewrite Hcons in Hl. apply elem_of_cons in Hl as [->|Hl].
      * apply includes_here. simpl. destruct (ascii_dec a a); [|done].
        clear -Hl0. revert l0 rest Hl0. induction s as [|b s IH]; intros l0 rest Hl0.
        { vm_compute in Hl0. by simplify_eq. }
        destruct (decide (b = Js.newline)) as [->|Hb].
        { rewrite lines_cons_newline in Hl0. by simplify_eq. }
        destruct (lines_cons_other b s Hb) as (l1 & rest1 & Hl1 & Hcons1).
        rewrite Hcons1 in Hl0. simplify_eq. simpl.
        destruct (ascii_dec b b); [|done]. by eapply IH.
      * apply includes_cons. apply IH. rewrite Hl0. by right.
Qed.


Lemma lines_no_newline (e : string) : no_newline e = true → Js.lines e = [e].
Proof.
  unfold no_newline. induction e as [|a e IH]; [done|].
  intros H. apply negb_true_iff in H. simpl in H.
  apply orb_false_iff in H as [H1 H2].
  destruct (decide (a = Js.newline)) as [->|Ha].
  { simpl in H1. by destruct e. }
  destruct (lines_cons_other a e Ha) as (l & rest & Hl & Hcons).
  rewrite Hcons. rewrite IH in Hl by by apply negb_true_iff. by simplify_eq.
Qed.

Lemma lines_snoc_newline (e : string) :
  Js.lines (e +:+ Js.nl) = Js.lines e ++ [""].
Proof.
  induction e as [|a e IH]; [done|]. rewrite append_cons.
  destruct (decide (a = Js.newline)) as [->|Ha].
  - rewrite !lines_cons_newline, IH. done.
  - destruct (lines_cons_other a e Ha) as (l1 & rest & Hl & ->).
    destruct (lines_cons_other a (e +:+ Js.nl) Ha) as (l2 & rest2 & Hl2 & ->).
    rewrite IH, Hl in Hl2. by simplify_eq/=.
Qed.

(** An entry appended on a fresh line to a text that does not contain it
    is the only line of the result that equals it. *)
Lemma count_lines_appended (c e : string) :
  Js.ends_with_newline c = true → Js.includes c e = false →
  no_newline e = true → e ≠ "" →
  Js.count_lines e (c +:+ e +:+ Js.nl) = 1.
Proof.
  intros Hend Hinc Hnl Hne.
  unfold Js.ends_with_newline in Hend.
  destruct (Js.lines c) as [|lst init _] eqn:Hc using rev_ind;
    [by destruct (split_on_nonempty Js.newline c)|].
  rewrite last_snoc in Hend. destruct lst; [|done].
  unfold Js.count_lines.
  rewrite (lines_app_fresh_line c _ init Hc).
  rewrite lines_snoc_newline, (lines_no_newline e Hnl).
  rewrite filter_app, length_app.
  assert (filter (λ x, x = e) init = []) as ->.
  { assert (Forall (λ x, x ≠ e) init) as Hall.
    { apply Forall_forall. intros x Hx ->.
      assert (Js.includes c e = true); [|congruence].
      apply lines_includes. rewrite Hc. apply elem_of_app. by left. }
    clear -Hall. induction Hall as [|x l Hx _ IH]; [done|].
    by rewrite filter_cons_False. }
  change ([e] ++ [""]) with [e; ""].
  rewrite filter_cons_True by done. rewrite filter_cons_False by done. done.
Qed.


(** ** Paths *)

Lemma is_prefix_spec (p q : path) : Path.is_prefix p q = true ↔ p `prefix_of` q.
Proof.
  unfold Path.is_prefix. rewrite bool_decide_eq_true. split.
  - intros H. exists (drop (length p) q). by rewrite <- H at 1; rewrite take_drop.
  - intros [k ->]. by rewrite take_app_length.
Qed.

Lemma is_prefix_app (p k : path) : Path.is_prefix p (p ++ k) = true.
Proof. apply is_prefix_spec. by exists k. Qed.

Lemma is_prefix_false (p q : path) :
  Path.is_prefix p q = false ↔ ∀ k, q ≠ p ++ k.
Proof.
  rewrite <- not_true_iff_false, is_prefix_spec. split.
  - intros H k ->. apply H. by exists k.
  - intros H [k ->]. by apply (H k).
Qed.

Lemma ancestors_and_self_spec (p q : path) :
  q ∈ Path.ancestors_and_self p ↔ q ≠ [] ∧ q `prefix_of` p.
Proof.
  unfold Path.ancestors_and_self. rewrite list_elem_of_fmap. split.
  - intros (n & -> & Hn). apply elem_of_seq in Hn. split.
    + destruct p; simpl in *; [lia|]. destruct n; [lia|done].
    + exists (drop n p). by rewrite take_drop.
  - intros [Hne [k ->]]. exists (length q). split.
    + by rewrite take_app_length.
    + apply elem_of_seq. rewrite length_app. destruct q; [done|simpl; lia].
Qed.

Lemma ancestors_and_self_self (p : path) : p ≠ [] → p ∈ Path.ancestors_and_self p.
Proof. intros. by apply ancestors_and_self_spec. Qed.


Lemma join_seg_plain (p : path) (seg : string) :
  plain seg = true → Path.join_seg p seg = p ++ [seg].
Proof.
  unfold plain, Path.join_seg. intros H.
  apply negb_true_iff, orb_false_iff in H as [[H1 H2]%orb_false_iff H3].
  apply bool_decide_eq_false in H1, H2, H3.
  by rewrite !decide_False.
Qed.

Lemma foldl_join_seg_plain (p : path) (segs : list string) :
  forallb plain segs = true → foldl Path.join_seg p segs = p ++ segs.
Proof.
  revert p. induction segs as [|s segs IH]; intros p H; simpl.
  - by rewrite app_nil_r.
  - apply andb_true_iff in H as [Hs H].
    rewrite join_seg_plain, IH by done. by rewrite <- app_assoc.
Qed.

Lemma join_plain (p : path) (parts : list string) :
  forallb plain (concat (map Path.segments parts)) = true →
  Path.join p parts = p ++ concat (map Path.segments parts).
Proof. apply foldl_join_seg_plain. Qed.

Lemma join_up_plain (p : path) (parts : list string) :
  forallb plain (concat (map Path.segments parts)) = true →
  Path.join p (".." :: parts) = Path.parent p ++ concat (map Path.segments parts).
Proof. intros H. unfold Path.join. simpl. by apply foldl_join_seg_plain. Qed.

Lemma parent_snoc (p : path) (seg : string) : Path.parent (p ++ [seg]) = p.
Proof. unfold Path.parent. apply removelast_last. Qed.

Lemma parent_app_snoc (p k : path) (seg : string) :
  Path.parent (p ++ k ++ [seg]) = p ++ k.
Proof. rewrite app_assoc. apply parent_snoc. Qed.

(** ** Running scripts *)

Lemma run_bind {A B} (m : js A) (k : A → js B) (w : world) :
  (m ≫= k) w =
  match m w with
  | (Returned a, w') => k a w'
  | (Exited code, w') => (Exited code, w')
  | (Thrown e, w') => (Thrown e, w')
  end.
Proof. reflexivity. Qed.

Lemma run_bind_returned {A B} (m : js A) (k : A → js B) (w w' : world) (a : A) :
  m w = (Returned a, w') → (m ≫= k) w = k a w'.
Proof. intros H. by rewrite run_bind, H. Qed.


Lemma hoare_bind {A B} (P : world → Prop) (m : js A) (Q : A → world → Prop)
    (k : A → js B) (R : B → world → Prop) E :
  hoare P m Q E → (∀ a, hoare (Q a) (k a) R E) → hoare P (m ≫= k) R E.
Proof.
  intros Hm Hk w HP. rewrite run_bind. specialize (Hm w HP).
  destruct (m w) as [[a|code|e] w']; [|done..]. by apply Hk.
Qed.

Lemma hoare_weaken {A} (P P' : world → Prop) (m : js A)
    (Q Q' : A → world → Prop) (E E' : nat + error → world → Prop) :
  hoare P' m Q' E' → (∀ w, P w → P' w) → (∀ a w, Q' a w → Q a w) →
  (∀ s w, E' s w → E s w) → hoare P m Q E.
Proof.
  intros H HP HQ HE w Hw. specialize (H w (HP w Hw)).
  destruct (m w) as [[a|code|e] w']; auto.
Qed.

Lemma hoare_ret {A} (P : world → Prop) (a : A) (Q : A → world → Prop) E :
  (∀ w, P w → Q a w) → hoare P (mret a) Q E.
Proof. intros H w HP. by apply H. Qed.

Lemma hoare_throw {A} (P : world → Prop) (e : error) (Q : A → world → Prop) E :
  (∀ w, P w → E (inr e) w) → hoare P (throw e) Q E.
Proof. intros H w HP. by apply H. Qed.

Lemma hoare_exit {A} (P : world → Prop) (code : nat) (Q : A → world → Prop) E :
  (∀ w, P w → E (inl code) w) → hoare P (process_exit code) Q E.
Proof. intros H w HP. by apply H. Qed.

(** Assertions on the file system alone are not affected by the console. *)
Lemma hoare_log (P : gmap path node → Prop) (line : string) E :
  hoare (λ w, P (files w)) (console_log line) (λ _ w, P (files w)) E.
Proof. intros w HP. done. Qed.

Lemma hoare_console_error (P : gmap path node → Prop) (line : string) E :
  hoare (λ w, P (files w)) (console_error line) (λ _ w, P (files w)) E.
Proof. intros w HP. done. Qed.

Lemma hoare_existsSync (P : gmap path node → Prop) (p : path) E :
  hoare (λ w, P (files w)) (Fs.existsSync p)
        (λ b w, P (files w) ∧ b = bool_decide (is_Some (Fs.stat (files w) p))) E.
Proof. intros w HP. done. Qed.

Lemma hoare_when (P : world → Prop) (b : bool) (m : js unit)
    (Q : unit → world → Prop) E :
  (b = true → hoare P m Q E) → (b = false → ∀ w, P w → Q tt w) →
  hoare P (when b m) Q E.
Proof.
  intros Hm Hskip. destruct b; simpl.
  - by apply Hm.
  - apply hoare_ret. by apply Hskip.
Qed.

Lemma hoare_forEach {A} (I : world → Prop) (xs : list A) (f : A → js unit) E :
  (∀ x, x ∈ xs → hoare I (f x) (λ _, I) E) →
  hoare I (forEach xs f) (λ _, I) E.
Proof.
  induction xs as [|x xs IH]; intros Hf; simpl.
  - by apply hoare_ret.
  - eapply hoare_bind.
    + apply Hf. by left.
    + intros []. apply IH. intros y Hy. apply Hf. by right.
Qed.


(** ** The file system *)

Lemma mkdirp_lookup (fs : gmap path node) (p q : path) :
  Fs.mkdirp fs p !! q =
  match fs !! q with
  | Some n => Some n
  | None => if bool_decide (q ∈ Path.ancestors_and_self p) then Some Dir else None
  end.
Proof.
  unfold Fs.mkdirp. destruct (fs !! q) as [n|] eqn:Hq.
  - by apply lookup_union_Some_l.
  - rewrite lookup_union_r by done. case_bool_decide as Hin.
    + apply elem_of_list_to_map_1'.
      * intros y Hy. apply list_elem_of_fmap in Hy as (? & ? & ?). by simplify_eq.
      * apply list_elem_of_fmap. by exists q.
    + apply not_elem_of_list_to_map_1. rewrite <- list_fmap_compose.
      intros Hy. apply list_elem_of_fmap in Hy as (? & ? & ?). by simplify_eq/=.
Qed.

Lemma mkdirp_lookup_Some (fs : gmap path node) (p q : path) (n : node) :
  fs !! q = Some n → Fs.mkdirp fs p !! q = Some n.
Proof. intros H. by rewrite mkdirp_lookup, H. Qed.

Lemma mkdirp_lookup_other (fs : gmap path node) (p q : path) :
  Path.is_prefix q p = false → Fs.mkdirp fs p !! q = fs !! q.
Proof.
  intros H. rewrite mkdirp_lookup. destruct (fs !! q); [done|].
  rewrite bool_decide_eq_false_2; [done|].
  intros [_ Hpre]%ancestors_and_self_spec.
  apply is_prefix_spec in Hpre. congruence.
Qed.

Lemma mkdirp_self (fs : gmap path node) (p : path) :
  Fs.is_file (Fs.stat fs p) = false → Fs.stat (Fs.mkdirp fs p) p = Some Dir ∨
  ∃ n, Fs.stat fs p = Some n ∧ Fs.stat (Fs.mkdirp fs p) p = Some n.
Proof.
  intros H. destruct p as [|s p]; [by left|]. simpl in *.
  rewrite mkdirp_lookup. destruct (fs !! (s :: p)) as [n|]; [right; eauto|].
  left. rewrite bool_decide_eq_true_2; [done|]. by apply ancestors_and_self_self.
Qed.

(** ** The recursive copy *)

Lemma strip_prefix_Some (src p rel : path) :
  Shell.strip_prefix src p = Some rel ↔ p = src ++ rel.
Proof.
  unfold Shell.strip_prefix. destruct (Path.is_prefix src p) eqn:H.
  - apply is_prefix_spec in H as [k ->]. rewrite drop_app_length. split.
    + by intros [= ->].
    + by intros ->%app_inv_head.
  - split; [done|]. intros ->. by rewrite is_prefix_app in H.
Qed.

Lemma strip_prefix_app (src rel : path) : Shell.strip_prefix src (src ++ rel) = Some rel.
Proof. by apply strip_prefix_Some. Qed.

Lemma strip_prefix_None (src p : path) :
  Shell.strip_prefix src p = None ↔ ∀ rel, p ≠ src ++ rel.
Proof.
  split.
  - intros H rel ->. by rewrite strip_prefix_app in H.
  - intros H. destruct (Shell.strip_prefix src p) as [rel|] eqn:E; [|done].
    apply strip_prefix_Some in E. by destruct (H rel).
Qed.

Lemma subtree_lookup (fs : gmap path node) (src rel : path) :
  Shell.subtree fs src !! rel = fs !! (src ++ rel).
Proof.
  unfold Shell.subtree.
  set (g := λ e : path * node, (λ r, (r, e.2)) <$> Shell.strip_prefix src e.1).
  assert (∀ y, (rel, y) ∈ omap g (map_to_list fs) ↔ fs !! (src ++ rel) = Some y) as Hmem.
  { intros y. rewrite list_elem_of_omap. split.
    - intros ([p n] & Hin & Hg). apply elem_of_map_to_list in Hin.
      unfold g in Hg. simpl in Hg.
      destruct (Shell.strip_prefix src p) as [r|] eqn:Hs; simplify_eq/=.
      apply strip_prefix_Some in Hs. by subst.
    - intros H. exists (src ++ rel, y). split.
      + by apply elem_of_map_to_list.
      + unfold g. simpl. by rewrite strip_prefix_app. }
  destruct (fs !! (src ++ rel)) as [n|] eqn:Hl.
  - apply elem_of_list_to_map_1'.
    + intros y Hy. apply Hmem in Hy. congruence.
    + by apply Hmem.
  - apply not_elem_of_list_to_map_1. intros Hin.
    apply list_elem_of_fmap in Hin as ([r y] & -> & Hin). simpl in Hin.
    apply Hmem in Hin. congruence.
Qed.

Lemma copy_tree_lookup (fs : gmap path node) (src dst : path) (sel : path → bool)
    (p : path) :
  (Shell.copy_tree fs src dst sel).1 !! p =
  match Shell.strip_prefix dst p with
  | Some rel =>
      match fs !! (src ++ rel) with
      | Some n => if sel rel && Shell.copy_ok fs src dst rel n then Some n else fs !! p
      | None => fs !! p
      end
  | None => fs !! p
  end.
Proof.
  unfold Shell.copy_tree. simpl.
  destruct (Shell.strip_prefix dst p) as [rel|] eqn:Hs.
  - apply strip_prefix_Some in Hs as ->.
    rewrite lookup_union, (lookup_kmap (app dst)), !map_lookup_filter, subtree_lookup.
    destruct (fs !! (src ++ rel)) as [n|] eqn:Hn; simpl;
      [|by destruct (fs !! (dst ++ rel))].
    destruct (sel rel) eqn:Hsel, (Shell.copy_ok fs src dst rel n) eqn:Hok; simpl;
      repeat case_guard; simpl; try congruence;
      by destruct (fs !! (dst ++ rel)).
  - rewrite lookup_union_r; [done|].
    apply lookup_kmap_None; [apply _|]. intros rel ->.
    by rewrite strip_prefix_app in Hs.
Qed.


(** *** What each primitive does to the world *)

Lemma run_ret {A} (a : A) (w : world) : (mret a : js A) w = (Returned a, w).
Proof. reflexivity. Qed.

Lemma run_log (line : string) (w : world) :
  console_log line w = (Returned tt, logged w line).
Proof. reflexivity. Qed.

Lemma run_console_error (line : string) (w : world) :
  console_error line w = (Returned tt, complained w line).
Proof. reflexivity. Qed.

Lemma run_existsSync (p : path) (w : world) :
  Fs.existsSync p w = (Returned (bool_decide (is_Some (Fs.stat (files w) p))), w).
Proof. reflexivity. Qed.

Lemma with_files_id (w : world) : with_files w (files w) = w.
Proof. by destruct w. Qed.

Lemma creatable_spec (fs : gmap path node) (p : path) :
  creatable fs p = true ↔
  ∀ q, q ≠ [] → q `prefix_of` p → Fs.is_file (fs !! q) = false.
Proof.
  unfold creatable. rewrite negb_true_iff. split.
  - intros H q Hne Hpre. destruct (Fs.is_file (fs !! q)) eqn:Hf; [|done].
    assert (existsb (λ q, Fs.is_file (Fs.stat fs q)) (Path.ancestors_and_self p) = true);
      [|congruence].
    apply existsb_exists. exists q. split.
    + apply list_elem_of_In, ancestors_and_self_spec. done.
    + by destruct q.
  - intros H. apply not_true_iff_false. intros (q & Hin & Hf)%existsb_exists.
    apply list_elem_of_In, ancestors_and_self_spec in Hin as [Hne Hpre].
    specialize (H q Hne Hpre). destruct q; [done|]. simpl in Hf. congruence.
Qed.

Lemma run_mkdir_ok (p : path) (w : world) :
  creatable (files w) p = true →
  Fs.mkdirSync_recursive p w = (Returned tt, with_files w (Fs.mkdirp (files w) p)).
Proof.
  intros H. unfold creatable in H. apply negb_true_iff in H.
  unfold Fs.mkdirSync_recursive, get_files. rewrite run_bind. cbv beta iota.
  by rewrite H.
Qed.

Lemma run_mkdir_fail (p : path) (w : world) :
  creatable (files w) p = false →
  ∃ e, Fs.mkdirSync_recursive p w = (Thrown e, w).
Proof.
  intros H. unfold creatable in H. apply negb_false_iff in H.
  unfold Fs.mkdirSync_recursive, get_files. rewrite run_bind. cbv beta iota.
  rewrite H. eauto.
Qed.

Lemma run_store_ok (p : path) (content : string) (w : world) :
  Fs.stat (files w) (Path.parent p) = Some Dir →
  Fs.is_dir (Fs.stat (files w) p) = false →
  Fs.store p content w = (Returned tt, with_files w (<[p := File content]> (files w))).
Proof.
  intros Hparent Hp. unfold Fs.store, get_files. rewrite run_bind. cbv beta iota.
  rewrite Hparent. by destruct (Fs.stat (files w) p) as [[]|].
Qed.

Lemma run_read_ok (p : path) (content : string) (w : world) :
  Fs.stat (files w) p = Some (File content) →
  Fs.readFileSync p w = (Returned content, w).
Proof.
  intros H. unfold Fs.readFileSync, get_files. rewrite run_bind. cbv beta iota.
  by rewrite H.
Qed.

Lemma run_copyFile_ok (src dest : path) (content : string) (w : world) :
  Fs.stat (files w) src = Some (File content) →
  Fs.stat (files w) (Path.parent dest) = Some Dir →
  Fs.is_dir (Fs.stat (files w) dest) = false →
  Fs.copyFileSync src dest w =
    (Returned tt, with_files w (<[dest := File content]> (files w))).
Proof.
  intros Hsrc Hparent Hdest. unfold Fs.copyFileSync.
  rewrite run_bind, (run_read_ok _ content) by done. cbv beta iota.
  by apply run_store_ok.
Qed.

Lemma stat_lookup (fs : gmap path node) (p : path) : p ≠ [] → Fs.stat fs p = fs !! p.
Proof. by destruct p. Qed.

Lemma stat_insert (fs : gmap path node) (p q : path) (n : node) :
  p ≠ [] →
  Fs.stat (<[p := n]> fs) q = if decide (p = q) then Some n else Fs.stat fs q.
Proof.
  intros Hp. destruct q as [|s q]; simpl.
  - by rewrite decide_False.
  - rewrite lookup_insert. by destruct (decide (p = s :: q)).
Qed.

(** The first step of every script: make sure the output directory is
    there. *)
Lemma ensure_dir_lookup_Some (fs : gmap path node) (out p : path) (n : node) :
  fs !! p = Some n → ensure_dir fs out !! p = Some n.
Proof.
  intros H. unfold ensure_dir. case_bool_decide; [done|]. by apply mkdirp_lookup_Some.
Qed.

Lemma ensure_dir_lookup_other (fs : gmap path node) (out p : path) :
  Path.is_prefix p out = false → ensure_dir fs out !! p = fs !! p.
Proof.
  intros H. unfold ensure_dir. case_bool_decide; [done|]. by apply mkdirp_lookup_other.
Qed.

Lemma ensure_dir_self (fs : gmap path node) (out : path) :
  creatable fs out = true → Fs.stat (ensure_dir fs out) out = Some Dir.
Proof.
  intros Hc. destruct out as [|s out]; [done|].
  pose proof (proj1 (creatable_spec _ _) Hc (s :: out)) as Hnf.
  specialize (Hnf ltac:(done) ltac:(done)).
  unfold ensure_dir. simpl. case_bool_decide as Hex.
  - destruct Hex as [[c|] Hn]; simpl in *; [|done]. by rewrite Hn in Hnf.
  - rewrite mkdirp_lookup. destruct (fs !! (s :: out)) as [n|] eqn:E.
    + destruct Hex. eauto.
    + rewrite bool_decide_eq_true_2; [done|]. by apply ancestors_and_self_self.
Qed.

Lemma run_ensure_dir {B} (out : path) (k : js B) (w : world) :
  creatable (files w) out = true →
  (Fs.existsSync out ≫= λ there,
     when (negb there) (Fs.mkdirSync_recursive out) ≫= λ _, k) w =
  k (with_files w (ensure_dir (files w) out)).
Proof.
  intros Hc. rewrite run_bind, run_existsSync. cbv beta iota.
  unfold ensure_dir. case_bool_decide; simpl.
  - rewrite run_bind. simpl. by rewrite with_files_id.
  - rewrite run_bind. unfold when. by rewrite run_mkdir_ok.
Qed.


(** *** The template copy *)

Lemma run_cp_r_glob_refused (src dst : path) (w : world) :
  Fs.is_dir (Fs.stat (files w) src) = false ∨ Path.is_prefix src dst = true →
  Shell.cp_r_glob src dst w = (Thrown CommandFailed, w).
Proof.
  intros H. unfold Shell.cp_r_glob, get_files. rewrite run_bind. cbv beta iota.
  destruct (Fs.is_dir (Fs.stat (files w) src)) eqn:Hd; simpl; [|done].
  destruct H as [|H]; [done|].
  case_bool_decide; [done|].
  destruct (Fs.is_dir (Fs.stat (files w) dst)); simpl; [|done].
  by rewrite H.
Qed.

(** Whatever happens, [cp] leaves the console alone and stops only by
    failing. *)
Lemma run_cp_r_glob_cases (src dst : path) (w : world) :
  Shell.cp_r_glob src dst w = (Thrown CommandFailed, w) ∨
  ∃ ok : bool,
    Shell.cp_r_glob src dst w =
      (if ok then Returned tt else Thrown CommandFailed,
       with_files w (Shell.copy_tree (files w) src dst (Shell.under_glob (files w) src)).1)
    ∧ ok = (Shell.copy_tree (files w) src dst (Shell.under_glob (files w) src)).2
    ∧ Fs.is_dir (Fs.stat (files w) src) = true
    ∧ Fs.is_dir (Fs.stat (files w) dst) = true
    ∧ Path.is_prefix src dst = false.
Proof.
  unfold Shell.cp_r_glob, get_files. rewrite run_bind. cbv beta iota.
  destruct (Fs.is_dir (Fs.stat (files w) src)) eqn:Hd; simpl; [|by left].
  case_bool_decide; [by left|].
  destruct (Fs.is_dir (Fs.stat (files w) dst)) eqn:Hdst; simpl; [|by left].
  destruct (Path.is_prefix src dst) eqn:Hpre; [by left|].
  right. eexists. split; [|done].
  rewrite run_bind. unfold put_files. cbv beta iota. simpl.
  by destruct (bool_decide _).
Qed.

Lemma copy_tree_complete (fs : gmap path node) (src dst : path) (sel : path → bool) :
  (∀ rel n, fs !! (src ++ rel) = Some n → sel rel = true →
            Shell.copy_ok fs src dst rel n = true) →
  (Shell.copy_tree fs src dst sel).2 = true.
Proof.
  intros H. unfold Shell.copy_tree. simpl. apply bool_decide_eq_true.
  apply map_filter_id. intros rel n Hl.
  apply map_lookup_filter_Some in Hl as [Hl Hsel]. simpl in *.
  rewrite subtree_lookup in Hl. by apply H.
Qed.

Lemma proper_prefixes_spec (rel r : path) :
  r ∈ Shell.proper_prefixes rel ↔ ∃ k, k ≠ [] ∧ rel = r ++ k.
Proof.
  unfold Shell.proper_prefixes. rewrite list_elem_of_fmap. split.
  - intros (n & -> & Hn). apply elem_of_seq in Hn. exists (drop n rel). split.
    + intros Hd. apply (f_equal length) in Hd. rewrite length_drop in Hd.
      simpl in Hd. lia.
    + by rewrite take_drop.
  - intros (k & Hk & ->). exists (length r). split.
    + by rewrite take_app_length.
    + apply elem_of_seq. rewrite length_app. destruct k; [done|simpl; lia].
Qed.

(** Into an empty place every entry of a directory tree can be copied. *)
Lemma copy_ok_fresh (fs : gmap path node) (src dst rel : path) (n : node) :
  is_tree fs src = true →
  Fs.stat fs dst = Some Dir →
  (∀ k, k ≠ [] → fs !! (dst ++ k) = None) →
  fs !! (src ++ rel) = Some n → rel ≠ [] →
  Shell.copy_ok fs src dst rel n = true.
Proof.
  intros Htree Hdst Hfresh Hn Hrel. unfold Shell.copy_ok.
  apply andb_true_iff. split.
  - unfold is_tree in Htree. apply bool_decide_eq_true in Htree.
    specialize (Htree rel n). rewrite subtree_lookup in Htree.
    specialize (Htree Hn). simpl in Htree.
    apply forallb_forall. intros r Hr.
    rewrite forallb_forall in Htree. rewrite (Htree r Hr). simpl.
    apply negb_true_iff. destruct (decide (r = [])) as [->|Hne].
    + rewrite app_nil_r, Hdst. done.
    + rewrite stat_lookup by (by destruct dst, r). by rewrite Hfresh.
  - rewrite stat_lookup by (by destruct dst, rel). rewrite Hfresh by done.
    by destruct n.
Qed.


(** ** Identifiers that are not registered *)

Lemma files_logged (w : world) (line : string) : files (logged w line) = files w.
Proof. reflexivity. Qed.

Lemma files_with_files (w : world) (fs : gmap path node) : files (with_files w fs) = fs.
Proof. reflexivity. Qed.

Lemma createExample_unknown (dirname : path) (id : string) (out : path) (w : world) :
  Object.get Example.EXAMPLES_MAP id = Object.Undefined →
  Example.createExample dirname id out w =
    (Exited 1,
     World (files w)
       (stdout w ++ ["Available examples: blind-auction, fhe-counter"])
       (stderr w ++ ["❌ Example '" +:+ id +:+ "' not found"])).
Proof. intros H. unfold Example.createExample. by rewrite H. Qed.

Lemma createCategory_unknown (dirname : path) (id : string) (out : path) (w : world) :
  Object.get Category.CATEGORIES id = Object.Undefined →
  Category.createCategory dirname id out w =
    (Exited 1,
     World (files w)
       (stdout w ++ ["Available categories: auctions, basic"])
       (stderr w ++ ["❌ Category '" +:+ id +:+ "' not found"])).
Proof. intros H. unfold Category.createCategory. by rewrite H. Qed.

Lemma generateDocs_unknown (dirname cwd : path) (id : string) (out : option path)
    (w : world) :
  Object.get Docs.DOCS_CONFIG id = Object.Undefined →
  Docs.generateDocs dirname cwd id out w =
    (Exited 1,
     World (files w) (stdout w)
       (stderr w ++ ["❌ Documentation config for '" +:+ id +:+ "' not found"])).
Proof. intros H. unfold Docs.generateDocs. by rewrite H. Qed.

(** ** The template directory is missing *)

Lemma prologue_without_template {B} (k : js B) (tmpl out : path)
    (line1 line2 : string) (w : world) :
  Fs.stat (files w) tmpl = None →
  let r := (console_log line1 ≫= λ _,
            Fs.existsSync out ≫= λ there,
            when (negb there) (Fs.mkdirSync_recursive out) ≫= λ _,
            console_log line2 ≫= λ _,
            Shell.cp_r_glob tmpl out ≫= λ _, k) w in
  (∃ e, r.1 = Thrown e) ∧
  files r.2 = if creatable (files w) out then ensure_dir (files w) out else files w.
Proof.
  intros Htmpl r. subst r. rewrite run_bind, run_log. cbv beta iota.
  assert (tmpl ≠ []) as Hne by (by intros ->).
  destruct (creatable (files w) out) eqn:Hc.
  - rewrite run_ensure_dir by done.
    rewrite run_bind, run_log. cbv beta iota.
    rewrite run_bind, run_cp_r_glob_refused; [simpl; eauto|].
    destruct (Path.is_prefix tmpl out) eqn:Hpre; [by right|left].
    simpl. rewrite stat_lookup, ensure_dir_lookup_other by done.
    rewrite stat_lookup in Htmpl by done. by rewrite Htmpl.
  - rewrite run_bind, run_existsSync. cbv beta iota. simpl.
    case_bool_decide; simpl.
    + rewrite run_bind. simpl. rewrite run_bind, run_log. cbv beta iota.
      rewrite run_bind, run_cp_r_glob_refused; [simpl; eauto|].
      left. simpl. by rewrite Htmpl.
    + rewrite run_bind. unfold when.
      destruct (run_mkdir_fail out (logged w line1) Hc) as [e ->]. simpl. eauto.
Qed.


(** ** C6: an identifier that is not registered *)

(** C6, as stated, fails: for the unknown identifier [does-not-exist] the
    list of valid identifiers goes to standard output; standard error
    receives the not-found line only, which names no valid identifier. *)
Lemma unknown_identifier_listing_is_on_stdout :
  let r := Example.createExample sample_dirname "does-not-exist" sample_out sample_world in
  r.1 = Exited 1 ∧
  stderr r.2 = ["❌ Example 'does-not-exist' not found"] ∧
  Forall (λ line, Js.includes line "blind-auction" = false ∧
                  Js.includes line "fhe-counter" = false) (stderr r.2) ∧
  stdout r.2 = ["Available examples: blind-auction, fhe-counter"].
Proof. vm_compute. repeat split; repeat constructor. Qed.

(** C6, amended: for every identifier for which the catalog lookup is
    undefined (not registered and not a property inherited from
    [Object.prototype]), [createExample] and [createCategory] write the
    not-found line to standard error and the list of the registered
    identifiers, in registration order (which is sorted), to standard
    output, exit with status 1 and leave the file system as it was. *)
Theorem unknown_identifier_exits_without_mutation
    (dirname : path) (id : string) (out : path) (w : world) :
  (Object.get Example.EXAMPLES_MAP id = Object.Undefined →
   let r := Example.createExample dirname id out w in
   r.1 = Exited 1 ∧ exit_status r.1 = 1 ∧ files r.2 = files w ∧
   stderr r.2 = stderr w ++ ["❌ Example '" +:+ id +:+ "' not found"] ∧
   stdout r.2 = stdout w ++
     ["Available examples: " +:+ Js.join ", " (Object.keys Example.EXAMPLES_MAP)]) ∧
  (Object.get Category.CATEGORIES id = Object.Undefined →
   let r := Category.createCategory dirname id out w in
   r.1 = Exited 1 ∧ exit_status r.1 = 1 ∧ files r.2 = files w ∧
   stderr r.2 = stderr w ++ ["❌ Category '" +:+ id +:+ "' not found"] ∧
   stdout r.2 = stdout w ++
     ["Available categories: " +:+ Js.join ", " (Object.keys Category.CATEGORIES)]) ∧
  Object.keys Example.EXAMPLES_MAP = ["blind-auction"; "fhe-counter"] ∧
  Object.keys Category.CATEGORIES = ["auctions"; "basic"] ∧
  String.ltb "blind-auction" "fhe-counter" = true ∧
  String.ltb "auctions" "basic" = true.
Proof.
  split; [|split].
  - intros H r. subst r. by rewrite createExample_unknown.
  - intros H r. subst r. by rewrite createCategory_unknown.
  - done.
Qed.

Lemma unknown_identifier_exits_without_mutation_witness :
  (let r := Example.createExample sample_dirname "does-not-exist" sample_out sample_world in
   r.1 = Exited 1 ∧ files r.2 = files sample_world) ∧
  (let r := Category.createCategory sample_dirname "does-not-exist" sample_out sample_world in
   r.1 = Exited 1 ∧ files r.2 = files sample_world).
Proof.
  destruct (unknown_identifier_exits_without_mutation
              sample_dirname "does-not-exist" sample_out sample_world)
    as (Hex & Hcat & _).
  split.
  - destruct (Hex eq_refl) as (H1 & _ & H2 & _). by split.
  - destruct (Hcat eq_refl) as (H1 & _ & H2 & _). by split.
Defined.

(** ** C10: an identifier without documentation config *)

Lemma inherited_key_lookup {A} (table : list (string * A)) (key : string) :
  key ∈ Object.prototype_keys → Object.own table key = None →
  Object.get table key = Object.Inherited key.
Proof.
  intros Hin Hown. unfold Object.get. rewrite Hown.
  by rewrite bool_decide_eq_true_2.
Qed.

Lemma prototype_keys_not_registered (key : string) :
  key ∈ Object.prototype_keys →
  Object.own Docs.DOCS_CONFIG key = None ∧
  Object.own Docs.contractMap key = None.
Proof.
  unfold Object.prototype_keys. intros H.
  repeat (apply elem_of_cons in H as [->|H]; [by split|]).
  by apply elem_of_nil in H.
Qed.

(** C10, the defect: a name that every object inherits from
    [Object.prototype] passes the guard [!DOCS_CONFIG[exampleName]]
    although it is not registered.  The output directory is then created
    before the run dies of a TypeError in [getContractPath]. *)
Theorem inherited_key_passes_docs_guard
    (dirname cwd : path) (key : string) (out : option path) (w : world) :
  let outputDir := default (Path.join cwd ["./docs"]) out in
  key ∈ Object.prototype_keys →
  Fs.stat (files w) outputDir = None →
  creatable (files w) outputDir = true →
  Docs.generateDocs dirname cwd key out w =
    (Thrown TypeError,
     World (Fs.mkdirp (files w) outputDir)
       (stdout w ++ ["📚 Generating documentation for " +:+ key]) (stderr w)) ∧
  Fs.stat (Fs.mkdirp (files w) outputDir) outputDir = Some Dir.
Proof.
  intros outputDir Hkey Hnone Hcreat.
  destruct (prototype_keys_not_registered key Hkey) as [Hcfg Hmap].
  split.
  - unfold Docs.generateDocs. fold outputDir.
    rewrite (inherited_key_lookup _ _ Hkey Hcfg).
    rewrite run_bind, run_log. cbv beta iota.
    rewrite run_ensure_dir by done.
    unfold ensure_dir. simpl. rewrite Hnone.
    rewrite bool_decide_eq_false_2 by (by intros [? ?]).
    rewrite run_bind. unfold Docs.generateMarkdownDoc.
    rewrite run_bind. unfold Docs.getContractPath, Docs.artifact_path.
    by rewrite (inherited_key_lookup _ _ Hkey Hmap).
  - destruct (mkdirp_self (files w) outputDir) as [H|(n & Hn & _)]; [|done|].
    + by rewrite Hnone.
    + congruence.
Qed.

Lemma inherited_key_passes_docs_guard_witness :
  let r := Docs.generateDocs sample_dirname sample_cwd "constructor" None sample_world in
  r.1 = Thrown TypeError ∧
  files sample_world !! ["srv"; "hub"; "docs"] = None ∧
  files r.2 !! ["srv"; "hub"; "docs"] = Some Dir.
Proof.
  intros r. subst r.
  destruct (inherited_key_passes_docs_guard sample_dirname sample_cwd "constructor"
              None sample_world) as [Hrun Hdir].
  - unfold Object.prototype_keys. by left.
  - reflexivity.
  - reflexivity.
  - rewrite Hrun. split; [done|]. split; [reflexivity|]. exact Hdir.
Defined.

(** ** C4: the base template is missing *)





(** ** C9: the list of examples in a category README *)

(** C9, as stated, fails on the example it names: [encrypt-single-value]
    is not in the example catalog, but it has an entry in the description
    table and is listed with that text, not with the fallback. *)
Lemma encrypt_single_value_is_described :
  Object.own Example.EXAMPLES_MAP "encrypt-single-value" = None ∧
  Object.own Category.descriptions "encrypt-single-value"
    = Some "Basic FHE encryption patterns" ∧
  Category.getExampleDescription "encrypt-single-value" ≠ "FHEVM example" ∧
  ∃ cfg, Object.own Category.CATEGORIES "basic" = Some cfg ∧
    "- **encrypt-single-value** - Basic FHE encryption patterns"
      ∈ Js.lines (Category.generateCategoryReadme "basic" cfg) ∧
    "- **encrypt-single-value** - FHEVM example"
      ∉ Js.lines (Category.generateCategoryReadme "basic" cfg).
Proof.
  split; [done|]. split; [done|]. split; [by vm_compute|].
  eexists. split; [reflexivity|].
  split.
  - apply (bool_decide_unpack _). by vm_compute.
  - apply (bool_decide_unpack _). by vm_compute.
Qed.

(** C9, amended: the lines of a registered category's README that start
    with [- **] are the bullets of the identifiers in its examples list,
    one each and in list order.  An identifier for which the lookup in
    the description table is undefined gets the fallback text
    "FHEVM example"; [encrypt-single-value] has a description of its own. *)
Theorem category_readme_lists_examples (name : string) (cfg : Category.config) :
  Object.own Category.CATEGORIES name = Some cfg →
  filter (λ l, is_bullet l = true) (Js.lines (Category.generateCategoryReadme name cfg))
    = map Category.example_bullet (Category.examples cfg) ∧
  (∀ id, Category.example_bullet id
         = "- **" +:+ id +:+ "** - " +:+ Category.getExampleDescription id) ∧
  (∀ id, Object.get Category.descriptions id = Object.Undefined →
         Category.getExampleDescription id = "FHEVM example") ∧
  Category.getExampleDescription "encrypt-single-value" = "Basic FHE encryption patterns".
Proof.
  intros Hown. split; [|split; [done|split; [|done]]].
  - unfold Category.CATEGORIES in Hown. simpl in Hown.
    repeat case_decide; simplify_eq; by vm_compute.
  - intros id H. unfold Category.getExampleDescription. by rewrite H.
Qed.

Lemma category_readme_lists_examples_witness :
  ∃ cfg, Object.own Category.CATEGORIES "basic" = Some cfg ∧
    filter (λ l, is_bullet l = true) (Js.lines (Category.generateCategoryReadme "basic" cfg))
    = [ "- **fhe-counter** - Simple encrypted counter demonstrating FHE basics";
        "- **encrypt-single-value** - Basic FHE encryption patterns" ].
Proof.
  eexists. split; [reflexivity|].
  destruct (category_readme_lists_examples "basic" _ eq_refl) as [H _].
  exact H.
Defined.


(** ** Documentation runs *)

Lemma docs_config_cases (id : string) (cfg : Docs.config) :
  Object.get Docs.DOCS_CONFIG id = Object.Own cfg →
  (id = "blind-auction" ∨ id = "fhe-counter") ∧ Object.own Docs.DOCS_CONFIG id = Some cfg.
Proof.
  unfold Object.get. destruct (Object.own Docs.DOCS_CONFIG id) as [c|] eqn:Hown.
  - intros [= ->]. split; [|done]. unfold Docs.DOCS_CONFIG in Hown. simpl in Hown.
    repeat case_decide; simplify_eq; auto.
  - by case_bool_decide.
Qed.

Lemma last_app_nonempty {A} (l k : list A) : k ≠ [] → last (l ++ k) = last k.
Proof.
  intros Hk. rewrite last_app. destruct (last k) eqn:E; [done|].
  apply last_None in E. done.
Qed.

(** Two paths with different last segments are different. *)
Ltac path_neq :=
  let H := fresh in
  intros H; apply (f_equal last) in H;
  rewrite ?last_app_nonempty in H by done; simpl in H;
  try discriminate; by simplify_eq.

Lemma run_read_if_exists (p : path) (fallback text : string) (w : world) :
  text_or fallback (files w) p = Some text →
  Docs.read_if_exists p fallback w = (Returned text, w).
Proof.
  unfold text_or, Docs.read_if_exists. intros H.
  rewrite run_bind, run_existsSync. cbv beta iota.
  destruct (Fs.stat (files w) p) as [[c|]|] eqn:Hs; simplify_eq.
  - rewrite bool_decide_eq_true_2 by eauto. by apply run_read_ok.
  - rewrite bool_decide_eq_false_2; [done|]. by intros [? ?].
Qed.

Lemma text_or_insert_ne (fallback : string) (fs : gmap path node) (p q : path)
    (n : node) :
  p ≠ [] → p ≠ q → text_or fallback (<[p := n]> fs) q = text_or fallback fs q.
Proof.
  intros Hp Hne. unfold text_or. rewrite stat_insert by done.
  by rewrite decide_False.
Qed.

Lemma docs_paths (dirname : path) (id : string) (cfg : Docs.config) (outputDir : path) :
  Object.get Docs.DOCS_CONFIG id = Object.Own cfg →
  let docPath := outputDir ++ [id +:+ ".md"] in
  let summaryPath := outputDir ++ ["SUMMARY.md"] in
  Path.join outputDir [id +:+ ".md"] = docPath ∧
  Path.join outputDir ["SUMMARY.md"] = summaryPath ∧
  docPath ≠ summaryPath ∧
  docs_contract_path dirname id ≠ docPath ∧ docs_contract_path dirname id ≠ summaryPath ∧
  docs_test_path dirname id ≠ docPath ∧ docs_test_path dirname id ≠ summaryPath ∧
  Docs.getContractPath dirname id = mret (docs_contract_path dirname id) ∧
  Docs.getTestPath dirname id = mret (docs_test_path dirname id).
Proof.
  intros Hget docPath summaryPath.
  destruct (docs_config_cases id cfg Hget) as [[->| ->] _]; subst docPath summaryPath;
    (split; [by apply join_plain|]); (split; [by apply join_plain|]);
    (split; [path_neq|]);
    (do 4 (split; [unfold docs_contract_path, docs_test_path; simpl;
                   rewrite !join_up_plain by done; simpl; path_neq|]));
    split; reflexivity.
Qed.

Section DocsRun.

Variables (dirname cwd : path) (id : string) (cfg : Docs.config).
Variable out : option path.
Variable w : world.
Variables cc tc prior : string.

Let outputDir : path := default (Path.join cwd ["./docs"]) out.
Let fs1 : gmap path node := ensure_dir (files w) outputDir.
Let docPath : path := outputDir ++ [id +:+ ".md"].
Let summaryPath : path := outputDir ++ ["SUMMARY.md"].

Hypothesis Hget : Object.get Docs.DOCS_CONFIG id = Object.Own cfg.
Hypothesis Hcreat : creatable (files w) outputDir = true.
Hypothesis Hcc : text_or "" fs1 (docs_contract_path dirname id) = Some cc.
Hypothesis Htc : text_or "" fs1 (docs_test_path dirname id) = Some tc.
Hypothesis Hdoc : Fs.is_dir (fs1 !! docPath) = false.
Hypothesis Hprior : text_or Docs.summary_skeleton fs1 summaryPath = Some prior.

Lemma generateDocs_run :
  Docs.generateDocs dirname cwd id out w =
    (Returned tt,
     World (<[summaryPath := File (with_entry prior (Docs.entryLine id cfg))]>
              (<[docPath := File (Docs.markdown cfg cc tc)]> fs1))
       (stdout w ++ [ "📚 Generating documentation for " +:+ id;
                      "✅ Documentation generated: " +:+ show_path docPath;
                      "📝 Updated SUMMARY.md" ])
       (stderr w)).
Proof.
  destruct (docs_paths dirname id cfg outputDir Hget)
    as (Hd & Hs & Hne & Hc1 & Hc2 & Ht1 & Ht2 & Hgc & Hgt).
  fold docPath summaryPath in Hd, Hs, Hne, Hc1, Hc2, Ht1, Ht2.
  assert (Fs.stat fs1 outputDir = Some Dir) as Hout by (by apply ensure_dir_self).
  assert (docPath ≠ []) as Hdne by (subst docPath; by destruct outputDir).
  assert (summaryPath ≠ []) as Hsne by (subst summaryPath; by destruct outputDir).
  assert (docPath ≠ outputDir) as Hdo.
  { subst docPath. intros H. apply (f_equal length) in H. rewrite length_app in H.
    simpl in H. lia. }
  unfold Docs.generateDocs. fold outputDir. rewrite Hget.
  rewrite run_bind, run_log. cbv beta iota.
  rewrite run_ensure_dir by done. fold fs1.
  rewrite run_bind. unfold Docs.generateMarkdownDoc.
  rewrite Hgc, Hgt.
  rewrite run_bind, run_ret. cbv beta iota.
  rewrite run_bind, run_ret. cbv beta iota.
  rewrite run_bind, (run_read_if_exists _ _ cc) by done. cbv beta iota.
  rewrite run_bind, (run_read_if_exists _ _ tc) by done. cbv beta iota.
  rewrite run_ret. cbv beta iota.
  rewrite Hd. unfold Fs.writeFileSync.
  rewrite run_bind, run_store_ok; cycle 1.
  { subst docPath. by rewrite parent_snoc. }
  { simpl. by rewrite stat_lookup. }
  cbv beta iota.
  rewrite run_bind, run_log. cbv beta iota.
  unfold Docs.updateSummary. rewrite Hs.
  rewrite run_bind, (run_read_if_exists _ _ prior); cycle 1.
  { simpl. by rewrite text_or_insert_ne. }
  cbv beta iota. unfold Fs.writeFileSync.
  rewrite run_bind, run_store_ok; cycle 1.
  { subst summaryPath. rewrite parent_snoc. simpl.
    rewrite stat_insert by done. by rewrite decide_False. }
  { simpl. rewrite stat_insert by done. rewrite decide_False by done.
    rewrite stat_lookup by done. fold summaryPath. fold fs1.
    unfold text_or in Hprior. rewrite stat_lookup in Hprior by done.
    by destruct (fs1 !! summaryPath) as [[]|]. }
  cbv beta iota. rewrite run_log.
  unfold with_entry, logged, with_files. simpl.
  rewrite <- !app_assoc. done.
Qed.

End DocsRun.


Lemma creatable_ensure_dir (fs : gmap path node) (out : path) :
  creatable fs out = true → creatable (ensure_dir fs out) out = true.
Proof.
  intros H. apply creatable_spec. intros q Hne Hpre.
  pose proof (proj1 (creatable_spec _ _) H q Hne Hpre) as Hq.
  unfold ensure_dir. case_bool_decide; [done|].
  rewrite mkdirp_lookup. destruct (fs !! q); [done|].
  by case_bool_decide.
Qed.

Lemma creatable_insert (fs : gmap path node) (out : path) (seg : string) (n : node) :
  creatable fs out = true → creatable (<[out ++ [seg] := n]> fs) out = true.
Proof.
  intros H. apply creatable_spec. intros q Hne Hpre.
  rewrite lookup_insert_ne.
  - by apply (proj1 (creatable_spec _ _) H).
  - intros <-. destruct Hpre as [k Hk]. apply (f_equal length) in Hk.
    rewrite !length_app in Hk. simpl in Hk. lia.
Qed.

Lemma ensure_dir_existing (fs : gmap path node) (out : path) :
  is_Some (Fs.stat fs out) → ensure_dir fs out = fs.
Proof. intros H. unfold ensure_dir. by rewrite bool_decide_eq_true_2. Qed.

Lemma includes_with_entry (prior entry : string) :
  Js.includes (with_entry prior entry) entry = true.
Proof.
  unfold with_entry. destruct (Js.includes prior entry) eqn:H; [done|].
  apply includes_app.
Qed.

Lemma with_entry_idempotent (prior entry : string) :
  with_entry (with_entry prior entry) entry = with_entry prior entry.
Proof.
  unfold with_entry at 1. by rewrite includes_with_entry.
Qed.

(** ** C8: documentation for an example whose artifact is missing *)

(** C8: for a registered example, with an output directory that can be
    created and a document path that is not a directory, [generateDocs]
    returns normally (exit status 0) and writes the document rendered from
    the texts of the two artifacts.  An artifact that does not exist
    contributes the empty text: its fenced block is there with nothing
    between the fences. *)
Theorem missing_artifact_gives_empty_section
    (dirname cwd : path) (id : string) (cfg : Docs.config) (out : option path)
    (w : world) (cc tc prior : string) :
  let outputDir := default (Path.join cwd ["./docs"]) out in
  let fs1 := ensure_dir (files w) outputDir in
  let docPath := outputDir ++ [id +:+ ".md"] in
  Object.get Docs.DOCS_CONFIG id = Object.Own cfg →
  creatable (files w) outputDir = true →
  text_or "" fs1 (docs_contract_path dirname id) = Some cc →
  text_or "" fs1 (docs_test_path dirname id) = Some tc →
  Fs.is_dir (fs1 !! docPath) = false →
  text_or Docs.summary_skeleton fs1 (outputDir ++ ["SUMMARY.md"]) = Some prior →
  let r := Docs.generateDocs dirname cwd id out w in
  r.1 = Returned tt ∧ exit_status r.1 = 0 ∧
  files r.2 !! docPath = Some (File (Docs.markdown cfg cc tc)) ∧
  (Fs.stat fs1 (docs_contract_path dirname id) = None →
     cc = "" ∧
     Js.includes (Docs.markdown cfg cc tc) "```solidity

```" = true) ∧
  (Fs.stat fs1 (docs_test_path dirname id) = None →
     tc = "" ∧
     Js.includes (Docs.markdown cfg cc tc) "```typescript

```" = true).
Proof.
  intros outputDir fs1 docPath Hget Hcreat Hcc Htc Hdoc Hprior r.
  subst r. rewrite (generateDocs_run dirname cwd id cfg out w cc tc prior) by done.
  destruct (docs_paths dirname id cfg outputDir Hget) as (_ & _ & Hne & _).
  split; [done|]. split; [done|]. split.
  { simpl. rewrite lookup_insert_ne by done. by rewrite lookup_insert_eq. }
  split.
  - intros Hnone. unfold text_or in Hcc. rewrite Hnone in Hcc. simplify_eq.
    split; [done|]. unfold Docs.markdown.
    do 8 apply includes_app_r. rewrite append_nil_l, <- string_app_assoc.
    apply includes_app_l. by vm_compute.
  - intros Hnone. unfold text_or in Htc. rewrite Hnone in Htc. simplify_eq.
    split; [done|]. unfold Docs.markdown.
    do 10 apply includes_app_r. by vm_compute.
Qed.

Lemma missing_artifact_gives_empty_section_witness :
  let r := Docs.generateDocs sample_dirname sample_cwd "fhe-counter" None
             world_without_contract in
  r.1 = Returned tt ∧
  ∃ doc, files r.2 !! ["srv"; "hub"; "docs"; "fhe-counter.md"] = Some (File doc) ∧
         Js.includes doc "```solidity

```" = true.
Proof.
  intros r. subst r.
  destruct (missing_artifact_gives_empty_section sample_dirname sample_cwd
              "fhe-counter" fhe_counter_docs None world_without_contract
              "" "describe('FHECounter')" Docs.summary_skeleton)
    as (Hret & _ & Hdoc & Hsol & _); try reflexivity.
  split; [exact Hret|].
  eexists. split; [exact Hdoc|].
  exact (proj2 (Hsol eq_refl)).
Defined.

(** ** C5: generating the documentation twice *)

(** C5, as stated, fails: how many lines of the index are the entry line
    depends on the index that was there.  If it does not end with a line
    break, the entry is appended to its last line and after two runs no
    line is the entry line; if it listed the entry twice, it still does. *)
Lemma index_entry_lines_depend_on_prior_index :
  (let r1 := Docs.generateDocs sample_dirname sample_cwd "fhe-counter" None
               world_with_unfinished_index in
   let r2 := Docs.generateDocs sample_dirname sample_cwd "fhe-counter" None r1.2 in
   let index := "# Summary* [FHE Counter](fhe-counter.md)" +:+ Js.nl in
   r1.1 = Returned tt ∧ r2.1 = Returned tt ∧
   files r2.2 !! ["srv"; "hub"; "docs"; "SUMMARY.md"] = Some (File index) ∧
   Js.count_lines "* [FHE Counter](fhe-counter.md)" index = 0) ∧
  (let r1 := Docs.generateDocs sample_dirname sample_cwd "fhe-counter" None
               world_with_doubled_index in
   let r2 := Docs.generateDocs sample_dirname sample_cwd "fhe-counter" None r1.2 in
   let index := "* [FHE Counter](fhe-counter.md)" +:+ Js.nl +:+
                "* [FHE Counter](fhe-counter.md)" +:+ Js.nl in
   r1.1 = Returned tt ∧ r2.1 = Returned tt ∧
   files r2.2 !! ["srv"; "hub"; "docs"; "SUMMARY.md"] = Some (File index) ∧
   Js.count_lines "* [FHE Counter](fhe-counter.md)" index = 2).
Proof. split; intros r1 r2 index; repeat split; by vm_compute. Qed.

(** C5, amended: two runs of [generateDocs] for a registered example,
    with unchanged artifacts, an output directory that can be created
    and a document path that is not a directory, both return normally;
    both write the same document; the second run leaves the whole file
    system as the first left it.  The index holds what it held before,
    followed by the entry line unless it already contained the entry
    text.  Exactly one line of it is the entry line when there was no
    index before, or when the index ended with a line break and did not
    contain the entry text. *)
Theorem docs_twice_adds_one_entry
    (dirname cwd : path) (id : string) (cfg : Docs.config) (out : option path)
    (w : world) (cc tc prior : string) :
  let outputDir := default (Path.join cwd ["./docs"]) out in
  let fs1 := ensure_dir (files w) outputDir in
  let docPath := outputDir ++ [id +:+ ".md"] in
  let summaryPath := outputDir ++ ["SUMMARY.md"] in
  let entry := Docs.entryLine id cfg in
  Object.get Docs.DOCS_CONFIG id = Object.Own cfg →
  creatable (files w) outputDir = true →
  text_or "" fs1 (docs_contract_path dirname id) = Some cc →
  text_or "" fs1 (docs_test_path dirname id) = Some tc →
  Fs.is_dir (fs1 !! docPath) = false →
  text_or Docs.summary_skeleton fs1 summaryPath = Some prior →
  let r1 := Docs.generateDocs dirname cwd id out w in
  let r2 := Docs.generateDocs dirname cwd id out r1.2 in
  r1.1 = Returned tt ∧ r2.1 = Returned tt ∧
  files r1.2 !! docPath = Some (File (Docs.markdown cfg cc tc)) ∧
  files r2.2 !! docPath = files r1.2 !! docPath ∧
  files r2.2 !! summaryPath = Some (File (with_entry prior entry)) ∧
  files r2.2 = files r1.2 ∧
  (Js.ends_with_newline prior = true → Js.includes prior entry = false →
     Js.count_lines entry (with_entry prior entry) = 1) ∧
  (Fs.stat fs1 summaryPath = None →
     Js.count_lines entry (with_entry prior entry) = 1).
Proof.
  intros outputDir fs1 docPath summaryPath entry Hget Hcreat Hcc Htc Hdoc Hprior r1 r2.
  destruct (docs_paths dirname id cfg outputDir Hget)
    as (_ & _ & Hne & Hc1 & Hc2 & Ht1 & Ht2 & _).
  fold outputDir docPath summaryPath in Hne, Hc1, Hc2, Ht1, Ht2.
  assert (docPath ≠ []) as Hdne by (subst docPath; by destruct outputDir).
  assert (summaryPath ≠ []) as Hsne by (subst summaryPath; by destruct outputDir).
  assert (Fs.stat fs1 outputDir = Some Dir) as Hout by (by apply ensure_dir_self).
  set (fs3 := <[summaryPath := File (with_entry prior entry)]>
                (<[docPath := File (Docs.markdown cfg cc tc)]> fs1)).
  assert (r1 = (Returned tt,
                World fs3 (stdout w ++ [ "📚 Generating documentation for " +:+ id;
                      "✅ Documentation generated: " +:+ show_path docPath;
                      "📝 Updated SUMMARY.md" ]) (stderr w))) as Hr1.
  { subst r1. by rewrite (generateDocs_run dirname cwd id cfg out w cc tc prior). }
  assert (Fs.stat fs3 outputDir = Some Dir) as Hout3.
  { subst fs3. rewrite !stat_insert by done. rewrite !decide_False; [done|..].
    - subst docPath. intros H. apply (f_equal length) in H.
      rewrite length_app in H. simpl in H. lia.
    - subst summaryPath. intros H. apply (f_equal length) in H.
      rewrite length_app in H. simpl in H. lia. }
  assert (ensure_dir fs3 outputDir = fs3) as Hens by (apply ensure_dir_existing; eauto).
  assert (fs3 !! docPath = Some (File (Docs.markdown cfg cc tc))) as Hd3.
  { subst fs3. rewrite lookup_insert_ne by done. by rewrite lookup_insert_eq. }
  assert (fs3 !! summaryPath = Some (File (with_entry prior entry))) as Hs3.
  { subst fs3. by rewrite lookup_insert_eq. }
  assert (r2.1 = Returned tt ∧ files r2.2 = fs3) as [Hr2 Hf2].
  { subst r2. rewrite Hr1. simpl.
    rewrite (generateDocs_run dirname cwd id cfg out _ cc tc (with_entry prior entry));
      try done; simpl; fold outputDir; rewrite ?Hens.
    - split; [done|]. simpl. fold docPath summaryPath entry.
      rewrite with_entry_idempotent.
      rewrite (insert_id fs3 docPath) by done. by rewrite insert_id.
    - subst fs3. do 2 apply creatable_insert. by apply creatable_ensure_dir.
    - subst fs3. rewrite !text_or_insert_ne by done. done.
    - subst fs3. rewrite !text_or_insert_ne by done. done.
    - fold docPath. by rewrite Hd3.
    - fold summaryPath. unfold text_or. rewrite stat_lookup by done. by rewrite Hs3. }
  rewrite Hf2, Hr1. simpl.
  split; [done|]. split; [done|]. split; [done|]. split; [done|].
  split; [done|]. split; [done|].
  destruct (docs_config_cases id cfg Hget) as [Hid Hown].
  assert (no_newline entry = true ∧ entry ≠ "" ∧
          Js.includes Docs.summary_skeleton entry = false) as (Hnl & Hne' & Hskel).
  { subst entry. destruct Hid as [-> | ->]; simpl in Hown; simplify_eq; by vm_compute. }
  split.
  - intros Hend Hinc. unfold with_entry. rewrite Hinc.
    by apply count_lines_appended.
  - intros Hnone. unfold text_or in Hprior. rewrite Hnone in Hprior. simplify_eq.
    unfold with_entry. rewrite Hskel. by apply count_lines_appended.
Qed.

Lemma docs_twice_adds_one_entry_witness :
  let r1 := Docs.generateDocs sample_dirname sample_cwd "fhe-counter" None sample_world in
  let r2 := Docs.generateDocs sample_dirname sample_cwd "fhe-counter" None r1.2 in
  r1.1 = Returned tt ∧ r2.1 = Returned tt ∧
  files r2.2 !! ["srv"; "hub"; "docs"; "fhe-counter.md"]
    = files r1.2 !! ["srv"; "hub"; "docs"; "fhe-counter.md"] ∧
  ∃ index, files r2.2 !! ["srv"; "hub"; "docs"; "SUMMARY.md"] = Some (File index) ∧
           Js.count_lines "* [FHE Counter](fhe-counter.md)" index = 1.
Proof.
  intros r1 r2. subst r1 r2.
  destruct (docs_twice_adds_one_entry sample_dirname sample_cwd "fhe-counter"
              fhe_counter_docs None
              sample_world "contract FHECounter {}" "describe('FHECounter')"
              Docs.summary_skeleton)
    as (H1 & H2 & _ & Hdoc & Hsum & _ & _ & Hcount); try reflexivity.
  split; [exact H1|]. split; [exact H2|]. split; [exact Hdoc|].
  eexists. split; [exact Hsum|]. exact (Hcount eq_refl).
Defined.


(** ** What a materialization leaves alone *)

Section Frame.

Variable fs0 : gmap path node.
Variable U : path → Prop.

Let I (w : world) : Prop := kept U fs0 (files w).

Lemma kept_refl : kept U fs0 fs0.
Proof. intros p n H. split; eauto. Qed.

Lemma kept_insert (fs : gmap path node) (p : path) (n : node) :
  (∀ q, U q → q ≠ p) → kept U fs0 fs → kept U fs0 (<[p := n]> fs).
Proof.
  intros HU Hk q m Hq. destruct (Hk q m Hq) as [Hs Hu]. split.
  - rewrite lookup_insert. by case_decide.
  - intros Hq'. rewrite lookup_insert_ne; [by apply Hu|].
    intros ->. by apply (HU q).
Qed.

Lemma kept_copy_tree (fs : gmap path node) (src dst : path) (sel : path → bool) :
  (∀ q rel, U q → q = dst ++ rel → sel rel = true → fs !! (src ++ rel) = None) →
  kept U fs0 fs → kept U fs0 (Shell.copy_tree fs src dst sel).1.
Proof.
  intros HU Hk q m Hq. destruct (Hk q m Hq) as [Hs Hu].
  rewrite copy_tree_lookup.
  destruct (Shell.strip_prefix dst q) as [rel|] eqn:Hstrip; [|by split].
  apply strip_prefix_Some in Hstrip.
  destruct (fs !! (src ++ rel)) as [n'|] eqn:Hn; [|by split].
  split.
  - by destruct (sel rel && Shell.copy_ok fs src dst rel n').
  - intros Hq'. destruct (sel rel) eqn:Hsel; [|by apply Hu].
    rewrite (HU q rel Hq' Hstrip Hsel) in Hn. done.
Qed.

Lemma frame_ret {A} (a : A) : hoare I (mret a) (λ _, I) (λ _, I).
Proof. by apply hoare_ret. Qed.

Lemma frame_throw {A} (e : error) : hoare I (throw e : js A) (λ _, I) (λ _, I).
Proof. by apply hoare_throw. Qed.

Lemma frame_log (line : string) : hoare I (console_log line) (λ _, I) (λ _, I).
Proof. intros w H. done. Qed.

Lemma frame_existsSync (p : path) : hoare I (Fs.existsSync p) (λ _, I) (λ _, I).
Proof. intros w H. done. Qed.

Lemma frame_read (p : path) : hoare I (Fs.readFileSync p) (λ _, I) (λ _, I).
Proof.
  intros w H. unfold Fs.readFileSync, get_files. rewrite run_bind. cbv beta iota.
  by destruct (Fs.stat (files w) p) as [[]|].
Qed.

Lemma frame_store (p : path) (content : string) :
  (∀ q, U q → q ≠ p) → hoare I (Fs.store p content) (λ _, I) (λ _, I).
Proof.
  intros HU w H. unfold Fs.store, get_files. rewrite run_bind. cbv beta iota.
  destruct (Fs.stat (files w) (Path.parent p)) as [[]|]; try done.
  destruct (Fs.stat (files w) p) as [[]|]; try done;
    unfold put_files, I; simpl; by apply kept_insert.
Qed.

Lemma frame_copyFile (src dest : path) :
  (∀ q, U q → q ≠ dest) → hoare I (Fs.copyFileSync src dest) (λ _, I) (λ _, I).
Proof.
  intros HU. unfold Fs.copyFileSync. eapply hoare_bind; [apply frame_read|].
  intros content. by apply frame_store.
Qed.

Lemma frame_when (b : bool) (m : js unit) :
  hoare I m (λ _, I) (λ _, I) → hoare I (when b m) (λ _, I) (λ _, I).
Proof. intros H. apply hoare_when; [done|]. by intros _ w Hw. Qed.

(** [cp -r src dst] writes at [dst] and below only. *)
Lemma frame_cp_r (src dst : path) :
  (∀ q, U q → Path.is_prefix dst q = false) →
  hoare I (Shell.cp_r src dst) (λ _, I) (λ _, I).
Proof.
  intros HU w H. unfold Shell.cp_r, get_files. rewrite run_bind. cbv beta iota.
  destruct (negb _); [done|].
  set (target := if Fs.is_dir (Fs.stat (files w) dst) then dst ++ [Path.leaf src] else dst).
  destruct (Path.is_prefix src target); [done|].
  destruct (negb _); [done|].
  rewrite run_bind. unfold put_files. cbv beta iota.
  assert (kept U fs0 (Shell.copy_tree (files w) src target (λ _, true)).1) as Hk.
  { apply kept_copy_tree; [|done]. intros q rel Hq -> _.
    specialize (HU _ Hq). exfalso.
    pose proof (proj1 (is_prefix_false _ _) HU) as HU'. clear HU.
    rename HU' into HU. subst target.
    destruct (Fs.is_dir (Fs.stat (files w) dst)).
    - apply (HU ([Path.leaf src] ++ rel)). by rewrite app_assoc.
    - by apply (HU rel). }
  by destruct (Shell.copy_tree (files w) src target (λ _, true)).2.
Qed.

(** The common beginning of both scripts, from the first console line to
    the copy of the template. *)
Lemma frame_prologue {B} (tmpl out : path) (line1 line2 : string) (k : js B) :
  (∀ q name rest, U q → q = out ++ name :: rest → Shell.visible name = true →
     fs0 !! (tmpl ++ name :: rest) = None) →
  hoare I k (λ _, I) (λ _, I) →
  hoare (λ w, files w = fs0)
        (console_log line1 ≫= λ _,
         Fs.existsSync out ≫= λ there,
         when (negb there) (Fs.mkdirSync_recursive out) ≫= λ _,
         console_log line2 ≫= λ _,
         Shell.cp_r_glob tmpl out ≫= λ _, k)
        (λ _, I) (λ _, I).
Proof.
  intros HU Hk w Hw. rewrite run_bind, run_log. cbv beta iota.
  destruct (creatable (files w) out) eqn:Hc.
  - rewrite run_ensure_dir by done. rewrite run_bind, run_log. cbv beta iota.
    rewrite run_bind.
    set (w1 := logged (with_files (logged w line1) (ensure_dir (files (logged w line1)) out)) line2).
    assert (kept U fs0 (files w1)) as H1.
    { subst w1. simpl. rewrite Hw. intros p n Hp.
      rewrite (ensure_dir_lookup_Some _ _ _ _ Hp). eauto. }
    destruct (run_cp_r_glob_cases tmpl out w1) as [->|(ok & -> & _ & _ & _ & Hpre)];
      [done|].
    assert (I (with_files w1 (Shell.copy_tree (files w1) tmpl out
                                (Shell.under_glob (files w1) tmpl)).1)) as H2.
    { unfold I. simpl. apply kept_copy_tree; [|done].
      intros q rel Hq Hrel Hsel. subst w1. simpl. rewrite Hw.
      destruct rel as [|name rest]; [done|].
      apply andb_true_iff in Hsel as [Hvis _].
      rewrite ensure_dir_lookup_other; [by eapply HU|].
      apply is_prefix_false. intros k' Hout.
      pose proof (proj1 (is_prefix_false _ _) Hpre) as Hpre'.
      apply (Hpre' ((name :: rest) ++ k')).
      by rewrite app_assoc. }
    destruct ok; [|done]. by apply Hk.
  - rewrite run_bind, run_existsSync. cbv beta iota. simpl.
    assert (I (logged w line1)) as H1.
    { unfold I. simpl. rewrite Hw. apply kept_refl. }
    case_bool_decide; simpl.
    + rewrite run_bind. simpl. rewrite run_bind, run_log. cbv beta iota.
      rewrite run_bind.
      set (w1 := logged (logged w line1) line2).
      destruct (run_cp_r_glob_cases tmpl out w1) as [->|(ok & -> & _ & _ & _ & Hpre)];
        [done|].
      assert (I (with_files w1 (Shell.copy_tree (files w1) tmpl out
                                  (Shell.under_glob (files w1) tmpl)).1)) as H2.
      { unfold I. simpl. apply kept_copy_tree; [|done].
        intros q rel Hq Hrel Hsel. rewrite Hw.
        destruct rel as [|name rest]; [done|].
        apply andb_true_iff in Hsel as [Hvis _]. by eapply HU. }
      destruct ok; [|done]. by apply Hk.
    + rewrite run_bind. unfold when.
      destruct (run_mkdir_fail out (logged w line1) Hc) as [e ->]. done.
Qed.

Lemma frame_set_field (value : json) (key : string) (v : json) :
  hoare I (set_field value key v) (λ _, I) (λ _, I).
Proof. intros w H. unfold set_field. by destruct (Json.assign value key v). Qed.

Lemma frame_JSON_parse (text : string) : hoare I (JSON_parse text) (λ _, I) (λ _, I).
Proof. intros w H. unfold JSON_parse. by destruct (Json.parse text). Qed.

End Frame.


Ltac frame_auto :=
  repeat first
    [ apply frame_ret | apply frame_throw | apply frame_log
    | apply frame_existsSync | apply frame_read | apply frame_when
    | apply frame_set_field | apply frame_JSON_parse
    | apply frame_store | apply frame_copyFile | apply frame_cp_r
    | (eapply hoare_bind; [|intros ?]) ].

Lemma frame_createExample (dirname : path) (id : string) (out : path)
    (cfg : Example.config) (fs0 : gmap path node) :
  Object.get Example.EXAMPLES_MAP id = Object.Own cfg →
  hoare (λ w, files w = fs0) (Example.createExample dirname id out)
        (λ _ w', kept (unrelated_to_example dirname out cfg fs0) fs0 (files w'))
        (λ _ w', kept (unrelated_to_example dirname out cfg fs0) fs0 (files w')).
Proof.
  intros Hget. unfold Example.createExample. rewrite Hget.
  apply frame_prologue.
  { intros q name rest (H & _) Hq Hvis. by apply H. }
  unfold Example.updatePackageJson, Fs.writeFileSync.
  frame_auto; intros q (H1 & H2 & H3 & H4 & H5); done.
Qed.

Lemma frame_createCategory (dirname : path) (id : string) (out : path)
    (cfg : Category.config) (fs0 : gmap path node) :
  Object.get Category.CATEGORIES id = Object.Own cfg →
  hoare (λ w, files w = fs0) (Category.createCategory dirname id out)
        (λ _ w', kept (unrelated_to_category dirname out cfg fs0) fs0 (files w'))
        (λ _ w', kept (unrelated_to_category dirname out cfg fs0) fs0 (files w')).
Proof.
  intros Hget. unfold Category.createCategory. rewrite Hget.
  apply frame_prologue.
  { intros q name rest (H & _) Hq Hvis. by apply H. }
  unfold Category.updateCategoryPackageJson, Fs.writeFileSync.
  eapply hoare_bind; [apply frame_log|intros []].
  eapply hoare_bind.
  { apply hoare_forEach. intros c Hc. unfold Category.copy_artifact.
    frame_auto. intros q (H1 & H2 & H3 & H4 & H5 & H6). by apply H2. }
  intros [].
  eapply hoare_bind; [apply frame_log|intros []].
  eapply hoare_bind.
  { apply hoare_forEach. intros t Ht. unfold Category.copy_artifact.
    frame_auto. intros q (H1 & H2 & H3 & H4 & H5 & H6). by apply H3. }
  intros [].
  frame_auto; intros q (H1 & H2 & H3 & H4 & H5 & H6); done.
Qed.

(** ** C7: files of the destination that the materialization does not own *)




(** ** Materialization into a fresh directory *)

Lemma apart_spec (p q : path) :
  apart p q = true ↔ (∀ k, q ≠ p ++ k) ∧ (∀ k, p ≠ q ++ k).
Proof.
  unfold apart. rewrite andb_true_iff, !negb_true_iff, !is_prefix_false. done.
Qed.

Lemma empty_below_spec (fs : gmap path node) (p : path) :
  empty_below fs p = true ↔ ∀ rel, rel ≠ [] → fs !! (p ++ rel) = None.
Proof.
  unfold empty_below. rewrite bool_decide_eq_true. split.
  - intros H rel Hne. destruct (fs !! (p ++ rel)) as [n|] eqn:E; [|done].
    destruct Hne. apply (H rel n). by rewrite subtree_lookup.
  - intros H rel n Hl. rewrite subtree_lookup in Hl.
    destruct (decide (rel = [])) as [|Hne]; [done|]. by rewrite H in Hl.
Qed.

Lemma is_tree_spec (fs : gmap path node) (src : path) :
  is_tree fs src = true ↔
  ∀ rel n r k, fs !! (src ++ rel) = Some n → k ≠ [] → rel = r ++ k →
               fs !! (src ++ r) = Some Dir.
Proof.
  unfold is_tree. rewrite bool_decide_eq_true. split.
  - intros H rel n r k Hl Hk ->. specialize (H (r ++ k) n).
    rewrite subtree_lookup in H. specialize (H Hl). simpl in H.
    rewrite forallb_forall in H.
    assert (Fs.is_dir (fs !! (src ++ r)) = true) as Hd.
    { apply H. apply list_elem_of_In, proper_prefixes_spec. eauto. }
    by destruct (fs !! (src ++ r)) as [[]|].
  - intros H rel n Hl. rewrite subtree_lookup in Hl. simpl.
    apply forallb_forall. intros r Hr.
    apply list_elem_of_In, proper_prefixes_spec in Hr as (k & Hk & ->).
    by rewrite (H _ _ _ _ Hl Hk eq_refl).
Qed.

(** A tree stays a tree when nothing in it changes. *)
Lemma is_tree_ext (fs fs' : gmap path node) (src : path) :
  (∀ rel, fs' !! (src ++ rel) = fs !! (src ++ rel)) →
  is_tree fs src = true → is_tree fs' src = true.
Proof.
  intros Hext H. apply is_tree_spec. intros rel n r k Hl Hk Hrel.
  rewrite Hext in *. by eapply (proj1 (is_tree_spec _ _) H).
Qed.

Lemma copy_ok_absent (fs : gmap path node) (src dst rel : path) (n : node) :
  is_tree fs src = true → dst ≠ [] →
  (∀ k, fs !! (dst ++ k) = None) →
  fs !! (src ++ rel) = Some n →
  Shell.copy_ok fs src dst rel n = true.
Proof.
  intros Htree Hdst Hfresh Hn. unfold Shell.copy_ok.
  apply andb_true_iff. split.
  - apply forallb_forall. intros r Hr.
    apply list_elem_of_In, proper_prefixes_spec in Hr as (k & Hk & ->).
    rewrite (proj1 (is_tree_spec _ _) Htree _ _ _ _ Hn Hk eq_refl). simpl.
    rewrite stat_lookup by (by destruct dst). by rewrite Hfresh.
  - rewrite stat_lookup by (by destruct dst). rewrite Hfresh. by destruct n.
Qed.

Section FreshCopy.

(** The template copy into an output directory that was just created or
    was empty. *)
Variables (fs0 : gmap path node) (tmpl out : path).
Hypothesis Hcreat : creatable fs0 out = true.
Hypothesis Hempty : empty_below fs0 out = true.
Hypothesis Htree : is_tree fs0 tmpl = true.
Hypothesis Htmpl : fs0 !! tmpl = Some Dir.
Hypothesis Hapart : apart out tmpl = true.
Hypothesis Hsome : ∃ name, Shell.visible name = true ∧ is_Some (fs0 !! (tmpl ++ [name])).

Let fs1 := ensure_dir fs0 out.
Let fs2 := (Shell.copy_tree fs1 tmpl out (Shell.under_glob fs1 tmpl)).1.

Lemma fresh_tmpl_lookup (rel : path) : fs1 !! (tmpl ++ rel) = fs0 !! (tmpl ++ rel).
Proof.
  apply ensure_dir_lookup_other, is_prefix_false. intros k Hk.
  pose proof (proj1 (apart_spec _ _) Hapart) as [_ H].
  apply (H (rel ++ k)). by rewrite app_assoc.
Qed.

Lemma fresh_out_empty (k : path) : k ≠ [] → fs1 !! (out ++ k) = None.
Proof.
  intros Hk. subst fs1. rewrite ensure_dir_lookup_other.
  - by apply empty_below_spec.
  - apply is_prefix_false. intros k' Hk'. apply (f_equal length) in Hk'.
    rewrite !length_app in Hk'. destruct k; [done|simpl in Hk'; lia].
Qed.

Lemma fresh_out_dir : Fs.stat fs1 out = Some Dir.
Proof. by apply ensure_dir_self. Qed.

Lemma fresh_tree : is_tree fs1 tmpl = true.
Proof. eapply is_tree_ext; [|exact Htree]. apply fresh_tmpl_lookup. Qed.

Lemma tmpl_nonempty : tmpl ≠ [].
Proof.
  intros Heq. pose proof (proj1 (apart_spec _ _) Hapart) as [_ H].
  apply (H out). by rewrite Heq.
Qed.

Lemma run_fresh_copy (w : world) :
  files w = fs1 →
  Shell.cp_r_glob tmpl out w = (Returned tt, with_files w fs2).
Proof.
  intros Hw. pose proof tmpl_nonempty as Hne.
  unfold Shell.cp_r_glob, get_files. rewrite run_bind. cbv beta iota. rewrite Hw.
  assert (fs1 !! tmpl = Some Dir) as Htmpl1.
  { rewrite <- (app_nil_r tmpl). by rewrite fresh_tmpl_lookup, app_nil_r. }
  rewrite (stat_lookup fs1 tmpl) by done. rewrite Htmpl1. simpl.
  rewrite bool_decide_eq_false_2; cycle 1.
  { destruct Hsome as (name & Hvis & [n Hn]). intros Hf.
    assert (filter (λ e, Shell.under_glob fs1 tmpl e.1 = true) (Shell.subtree fs1 tmpl)
              !! [name] = Some n) as Hl; [|by rewrite Hf in Hl].
    apply map_lookup_filter_Some. split.
    - by rewrite subtree_lookup, fresh_tmpl_lookup.
    - simpl. rewrite Hvis, fresh_tmpl_lookup. simpl.
      by rewrite bool_decide_eq_true_2 by eauto. }
  rewrite fresh_out_dir. simpl.
  assert (Path.is_prefix tmpl out = false) as ->.
  { pose proof (proj1 (apart_spec _ _) Hapart) as [_ H]. by apply is_prefix_false. }
  rewrite run_bind. unfold put_files. cbv beta iota.
  assert ((Shell.copy_tree fs1 tmpl out (Shell.under_glob fs1 tmpl)).2 = true) as Hall.
  { apply copy_tree_complete.
    intros rel n Hn Hsel. apply copy_ok_fresh; try done.
    - apply fresh_tree.
    - apply fresh_out_dir.
    - apply fresh_out_empty.
    - intros ->. done. }
  unfold Shell.copy_tree in Hall. simpl in Hall. simpl. by rewrite Hall.
Qed.

(** After the copy, the destination holds the template's visible part. *)
Lemma fresh_copy_lookup (name : string) (rest : path) :
  Shell.visible name = true →
  fs2 !! (out ++ name :: rest) = fs0 !! (tmpl ++ name :: rest).
Proof.
  intros Hvis. subst fs2. rewrite copy_tree_lookup, strip_prefix_app.
  rewrite fresh_tmpl_lookup.
  destruct (fs0 !! (tmpl ++ name :: rest)) as [n|] eqn:Hn;
    [|by apply fresh_out_empty].
  assert (Shell.under_glob fs1 tmpl (name :: rest) = true) as ->.
  { simpl. rewrite Hvis, fresh_tmpl_lookup. simpl. apply bool_decide_eq_true.
    destruct rest as [|s rest]; [eauto|].
    rewrite (proj1 (is_tree_spec _ _) Htree (name :: s :: rest) n [name] (s :: rest));
      eauto. }
  rewrite copy_ok_fresh; try done.
  - apply fresh_tree.
  - apply fresh_out_dir.
  - apply fresh_out_empty.
  - by rewrite fresh_tmpl_lookup.
Qed.

(** Nothing outside the destination changes. *)
Lemma fresh_copy_elsewhere (p : path) :
  (∀ k, p ≠ out ++ k) → fs2 !! p = fs1 !! p.
Proof.
  intros Hp. subst fs2. rewrite copy_tree_lookup.
  by rewrite (proj2 (strip_prefix_None out p) Hp).
Qed.

Lemma fresh_copy_out : Fs.stat fs2 out = Some Dir.
Proof.
  pose proof fresh_out_dir as H.
  destruct (decide (out = [])) as [Ho|Ho]; [by rewrite Ho|].
  rewrite stat_lookup in * by done. subst fs2.
  rewrite copy_tree_lookup.
  rewrite (proj2 (strip_prefix_Some out out []) (eq_sym (app_nil_r out))).
  simpl. by destruct (fs1 !! (tmpl ++ [])).
Qed.

(** A source that is apart from the destination is seen unchanged. *)
Lemma fresh_copy_apart (p : path) (k : path) :
  apart out p = true → fs2 !! (p ++ k) = fs0 !! (p ++ k).
Proof.
  intros [H1 H2]%apart_spec. rewrite fresh_copy_elsewhere.
  - apply ensure_dir_lookup_other, is_prefix_false. intros k' Hk'.
    apply (H2 (k ++ k')). by rewrite app_assoc.
  - intros k' Hk'.
    destruct (prefix_weak_total p out (p ++ k)) as [[x Hx]|[x Hx]].
    + by exists k.
    + exists k'. done.
    + by apply (H2 x).
    + by apply (H1 x).
Qed.

End FreshCopy.

(** ** A whole run of [createExample] *)

Lemma example_config_cases (id : string) (cfg : Example.config) :
  Object.get Example.EXAMPLES_MAP id = Object.Own cfg →
  (id = "blind-auction" ∨ id = "fhe-counter") ∧
  Object.own Example.EXAMPLES_MAP id = Some cfg.
Proof.
  unfold Object.get. destruct (Object.own Example.EXAMPLES_MAP id) as [c|] eqn:Hown.
  - intros [= ->]. split; [|done]. unfold Example.EXAMPLES_MAP in Hown. simpl in Hown.
    repeat case_decide; simplify_eq; auto.
  - by case_bool_decide.
Qed.

Lemma world_eta (w : world) : World (files w) (stdout w) (stderr w) = w.
Proof. by destruct w. Qed.

(** The optional copy of one artifact, followed by the rest of the script. *)
Lemma run_copy_if_exists {B} (src dest : path) (line : string) (k : unit → js B)
    (w : world) :
  src ≠ [] → dest ≠ [] →
  file_or_absent (files w) src = true →
  (is_Some (files w !! src) →
     Fs.stat (files w) (Path.parent dest) = Some Dir ∧
     Fs.is_dir (files w !! dest) = false) →
  (Fs.existsSync src ≫= λ there,
     when there (console_log line ≫= λ _, Fs.copyFileSync src dest) ≫= k) w
  = k tt (World (copied src dest (files w))
            (stdout w ++ copy_report src line (files w)) (stderr w)).
Proof.
  intros Hs Hd Hfile Hdest. rewrite run_bind, run_existsSync. cbv beta iota.
  unfold file_or_absent in Hfile. rewrite stat_lookup in * by done.
  unfold copied, copy_report.
  destruct (files w !! src) as [[c|]|] eqn:Hsrc; [|done|].
  - rewrite bool_decide_eq_true_2 by eauto. simpl.
    destruct Hdest as [Hp Hn]; [eauto|].
    rewrite run_bind, run_bind, run_log. cbv beta iota.
    rewrite (run_copyFile_ok _ _ c); try done.
    + simpl. by rewrite stat_lookup.
    + simpl. by rewrite stat_lookup.
  - rewrite bool_decide_eq_false_2 by (by intros [? ?]). simpl.
    rewrite run_bind, run_ret. cbv beta iota.
    by rewrite app_nil_r, world_eta.
Qed.

Lemma copied_lookup_ne (src dest p : path) (fs : gmap path node) :
  p ≠ dest → copied src dest fs !! p = fs !! p.
Proof.
  intros Hne. unfold copied. destruct (fs !! src) as [[c|]|]; try done.
  by rewrite lookup_insert_ne.
Qed.

Lemma copied_lookup (src dest : path) (fs : gmap path node) :
  Fs.is_dir (fs !! src) = false →
  copied src dest fs !! dest = overlaid fs src dest.
Proof.
  unfold copied, overlaid. destruct (fs !! src) as [[c|]|]; try done.
  intros _. by rewrite lookup_insert_eq.
Qed.

Lemma run_set_fields (parsed result : json) (name description : string)
    (keywords : list string) {B} (k : json → js B) (w : world) :
  rewritten parsed name description keywords = Some result →
  (set_field parsed "name" (JStr name) ≫= λ v,
   set_field v "description" (JStr description) ≫= λ v,
   set_field v "keywords" (JArr (map JStr keywords)) ≫= k) w = k result w.
Proof.
  unfold rewritten, set_field. intros H.
  destruct (Json.assign parsed "name" (JStr name)) as [v1|]; [|done]. simpl in H.
  rewrite run_bind, run_ret. cbv beta iota.
  destruct (Json.assign v1 "description" (JStr description)) as [v2|]; [|done].
  simpl in H.
  rewrite run_bind, run_ret. cbv beta iota.
  rewrite H. by rewrite run_bind, run_ret.
Qed.

Lemma example_paths (dirname : path) (id : string) (cfg : Example.config) (out : path) :
  Object.get Example.EXAMPLES_MAP id = Object.Own cfg →
  ∃ cseg tseg,
    Path.join dirname [".."; "fhevm-hardhat-template"]
      = Path.parent dirname ++ ["fhevm-hardhat-template"] ∧
    Path.join dirname [".."; "contracts"; Example.contract cfg]
      = Path.parent dirname ++ "contracts" :: cseg ∧
    Path.join dirname [".."; "test"; Example.test cfg]
      = Path.parent dirname ++ "test" :: tseg ∧
    Path.join out ["contracts"; Path.basename (Example.contract cfg)]
      = out ++ ["contracts"; Path.basename (Example.contract cfg)] ∧
    Path.join out ["test"; Path.basename (Example.test cfg)]
      = out ++ ["test"; Path.basename (Example.test cfg)] ∧
    Path.join out ["README.md"] = out ++ ["README.md"] ∧
    Path.join out ["package.json"] = out ++ ["package.json"].
Proof.
  intros Hget.
  destruct (example_config_cases id cfg Hget) as [[-> | ->] Hown];
    simpl in Hown; simplify_eq; simpl; eexists _, _;
    (split; [by rewrite join_up_plain|]);
    (split; [by rewrite join_up_plain|]);
    (split; [by rewrite join_up_plain|]);
    (split; [by rewrite join_plain|]);
    (split; [by rewrite join_plain|]);
    (split; by rewrite join_plain).
Qed.

Lemma template_copy_lookup (fs : gmap path node) (tmpl out : path) (name : string)
    (rest : path) :
  fresh_destination fs tmpl out = true →
  fs !! tmpl = Some Dir → is_tree fs tmpl = true →
  Shell.visible name = true →
  template_copy fs tmpl out !! (out ++ name :: rest) = fs !! (tmpl ++ name :: rest).
Proof.
  unfold fresh_destination. rewrite !andb_true_iff. intros [[Hc He] Ha] Hd Ht Hv.
  by apply fresh_copy_lookup.
Qed.

Lemma template_copy_apart (fs : gmap path node) (tmpl out p : path) :
  fresh_destination fs tmpl out = true →
  apart out p = true →
  template_copy fs tmpl out !! p = fs !! p.
Proof.
  unfold fresh_destination. rewrite !andb_true_iff. intros [[Hc He] Ha] Hp.
  rewrite <- (app_nil_r p). by apply fresh_copy_apart.
Qed.

Lemma template_copy_out (fs : gmap path node) (tmpl out : path) :
  fresh_destination fs tmpl out = true →
  Fs.stat (template_copy fs tmpl out) out = Some Dir.
Proof.
  unfold fresh_destination. rewrite !andb_true_iff. intros [[Hc He] Ha].
  by apply fresh_copy_out.
Qed.

Lemma run_template_copy (tmpl out : path) (w : world) (fs : gmap path node) :
  fresh_destination fs tmpl out = true →
  fs !! tmpl = Some Dir → is_tree fs tmpl = true →
  (∃ name, Shell.visible name = true ∧ is_Some (fs !! (tmpl ++ [name]))) →
  files w = ensure_dir fs out →
  Shell.cp_r_glob tmpl out w = (Returned tt, with_files w (template_copy fs tmpl out)).
Proof.
  unfold fresh_destination. rewrite !andb_true_iff. intros [[Hc He] Ha] Hd Ht Hs Hw.
  by apply run_fresh_copy.
Qed.

Lemma parent_two (p : path) (a b : string) : Path.parent (p ++ [a; b]) = p ++ [a].
Proof. apply (parent_app_snoc p [a] b). Qed.

(** Two paths below the same directory with different tails are different. *)
Ltac tail_neq :=
  let H := fresh in
  intros H; apply app_inv_head in H; discriminate.

Lemma apart_nonempty (p q : path) : apart p q = true → p ≠ [] ∧ q ≠ [].
Proof.
  intros [H1 H2]%apart_spec. split; intros ->.
  - by apply (H1 q).
  - by apply (H2 p).
Qed.

Lemma createExample_fresh (dirname : path) (id : string) (cfg : Example.config)
    (out : path) (w : world) (text : string) (parsed result : json) :
  let tmpl := Path.join dirname [".."; "fhevm-hardhat-template"] in
  let contractSrc := Path.join dirname [".."; "contracts"; Example.contract cfg] in
  let testSrc := Path.join dirname [".."; "test"; Example.test cfg] in
  Object.get Example.EXAMPLES_MAP id = Object.Own cfg →
  fresh_destination (files w) tmpl out = true →
  template_ready (files w) tmpl = true →
  artifact_ready (files w) tmpl out contractSrc "contracts"
    (Path.basename (Example.contract cfg)) = true →
  artifact_ready (files w) tmpl out testSrc "test"
    (Path.basename (Example.test cfg)) = true →
  files w !! (tmpl ++ ["package.json"]) = Some (File text) →
  Json.parse text = Some parsed →
  rewritten parsed ("fhevm-" +:+ id) (Example.description cfg) (Example.keywords cfg)
    = Some result →
  Example.createExample dirname id out w =
    (Returned tt,
     World (example_files dirname id cfg out result (files w))
           (stdout w ++ example_log dirname id cfg out (files w))
           (stderr w)).
Proof.
  intros tmpl contractSrc testSrc Hget Hfresh Htmpl Hca Hta Hpkg Hparse Hrew.
  unfold Example.createExample, example_files, example_log. rewrite Hget.
  fold tmpl contractSrc testSrc.
  destruct (example_paths dirname id cfg out Hget)
    as (cseg & tseg & Etmpl & Ec & Et & Ecd & Etd & Erd & Epk).
  rewrite Ecd, Etd, Erd, Epk.
  set (cbase := Path.basename (Example.contract cfg)) in *.
  set (tbase := Path.basename (Example.test cfg)) in *.
  pose proof Hfresh as Hfresh'. unfold fresh_destination in Hfresh'.
  apply andb_true_iff in Hfresh' as [[Hcreat Hempty]%andb_true_iff Hapart].
  destruct (apart_nonempty _ _ Hapart) as [Hout Htne].
  unfold template_ready in Htmpl.
  apply andb_true_iff in Htmpl as [[[[Hdir%bool_decide_eq_true Htree]%andb_true_iff
    Hcdir%bool_decide_eq_true]%andb_true_iff Htdir%bool_decide_eq_true]%andb_true_iff
    Hreadme%negb_true_iff].
  unfold artifact_ready in Hca, Hta.
  apply andb_true_iff in Hca as [[Hcfile Hcapart]%andb_true_iff Hcdst%negb_true_iff].
  apply andb_true_iff in Hta as [[Htfile Htapart]%andb_true_iff Htdst%negb_true_iff].
  destruct (apart_nonempty _ _ Hcapart) as [_ Hcne].
  destruct (apart_nonempty _ _ Htapart) as [_ Htne'].
  set (fs0 := files w) in *.
  set (fs2 := template_copy fs0 tmpl out).
  assert (∀ name rest, Shell.visible name = true →
            fs2 !! (out ++ name :: rest) = fs0 !! (tmpl ++ name :: rest)) as Hcopy.
  { intros. by apply template_copy_lookup. }
  assert (Fs.stat fs2 out = Some Dir) as Hout2 by (by apply template_copy_out).
  rewrite stat_lookup in Hout2 by done.
  (* first console line, mkdir, second console line, copy *)
  rewrite run_bind, run_log. cbv beta iota.
  rewrite run_ensure_dir by done.
  rewrite run_bind, run_log. cbv beta iota.
  rewrite run_bind, (run_template_copy tmpl out _ fs0); try done; cycle 1.
  { exists "package.json". split; [done|]. rewrite Hpkg. eauto. }
  cbv beta iota. fold fs2.
  assert (∀ p k, apart out p = true → p ≠ out ++ k) as Hnot_out.
  { intros p k [H _]%apart_spec. apply H. }
  assert (fs2 !! contractSrc = fs0 !! contractSrc) as Hc2
    by (by apply template_copy_apart).
  assert (fs2 !! testSrc = fs0 !! testSrc) as Ht2 by (by apply template_copy_apart).
  (* the contract *)
  rewrite run_copy_if_exists; [|done|by destruct out|..]; cycle 1.
  { simpl. unfold file_or_absent in *. rewrite stat_lookup in * by done.
    by rewrite Hc2. }
  { intros _. simpl. rewrite parent_two.
    rewrite stat_lookup by (by destruct out). by rewrite !Hcopy, Hcdir. }
  simpl files. simpl stdout. simpl stderr.
  set (fs3 := copied contractSrc (out ++ ["contracts"; cbase]) fs2).
  (* the test *)
  rewrite run_copy_if_exists; [|done|by destruct out|..]; cycle 1.
  { simpl. unfold file_or_absent in *. rewrite stat_lookup in * by done.
    subst fs3. rewrite copied_lookup_ne by (by apply Hnot_out). by rewrite Ht2. }
  { intros _. simpl. rewrite parent_two.
    rewrite stat_lookup by (by destruct out).
    subst fs3. rewrite !copied_lookup_ne by tail_neq. by rewrite !Hcopy, Htdir. }
  simpl files. simpl stdout. simpl stderr.
  set (fs4 := copied testSrc (out ++ ["test"; tbase]) fs3).
  assert (∀ p, p ≠ out ++ ["contracts"; cbase] → p ≠ out ++ ["test"; tbase] →
               fs4 !! p = fs2 !! p) as H4.
  { intros p H1 H2. subst fs4 fs3. by rewrite !copied_lookup_ne. }
  (* the README *)
  unfold Fs.writeFileSync.
  rewrite run_bind, run_store_ok; cycle 1.
  { simpl. rewrite parent_snoc, stat_lookup by done. rewrite H4; [done|..].
    - intros H. apply (f_equal length) in H. rewrite length_app in H. simpl in H. lia.
    - intros H. apply (f_equal length) in H. rewrite length_app in H. simpl in H. lia. }
  { simpl. rewrite stat_lookup by (by destruct out).
    rewrite H4 by tail_neq. by rewrite Hcopy. }
  cbv beta iota. simpl files.
  set (fs5 := <[out ++ ["README.md"] := File (Example.generateReadme id cfg)]> fs4).
  (* the manifest *)
  unfold Example.updatePackageJson. rewrite Epk.
  rewrite run_bind, run_bind, (run_read_ok _ text); cycle 1.
  { simpl. rewrite stat_lookup by (by destruct out). fold fs5. subst fs5.
    rewrite lookup_insert_ne by tail_neq. rewrite H4 by tail_neq.
    by rewrite Hcopy. }
  cbv beta iota. unfold JSON_parse. rewrite Hparse.
  rewrite run_bind, run_ret. cbv beta iota.
  rewrite (run_set_fields parsed result) by done.
  unfold Fs.writeFileSync. cbv beta.
  rewrite run_store_ok; cycle 1.
  { simpl. rewrite parent_snoc, stat_lookup by done. subst fs5.
    rewrite lookup_insert_ne.
    - rewrite H4; [done|..]; intros H; apply (f_equal length) in H;
        rewrite length_app in H; simpl in H; lia.
    - intros H; apply (f_equal length) in H;
        rewrite length_app in H; simpl in H; lia. }
  { simpl. rewrite stat_lookup by (by destruct out). subst fs5.
    rewrite lookup_insert_ne by tail_neq. rewrite H4 by tail_neq.
    by rewrite Hcopy, Hpkg. }
  cbv beta iota.
  repeat (rewrite run_bind, run_log; cbv beta iota).
  rewrite run_log.
  unfold logged, with_files. simpl.
  assert (copy_report testSrc ("🧪 Copying test: " +:+ Example.test cfg) fs3
          = copy_report testSrc ("🧪 Copying test: " +:+ Example.test cfg) fs0) as ->.
  { unfold copy_report. subst fs3.
    rewrite copied_lookup_ne by (by apply Hnot_out). by rewrite Ht2. }
  assert (copy_report contractSrc ("📄 Copying contract: " +:+ Example.contract cfg) fs2
          = copy_report contractSrc ("📄 Copying contract: " +:+ Example.contract cfg) fs0)
    as ->.
  { unfold copy_report. by rewrite Hc2. }
  f_equal. f_equal. rewrite <- !app_assoc. done.
Qed.

(** ** A whole run of [createCategory] *)

Lemma category_config_cases (id : string) (cfg : Category.config) :
  Object.get Category.CATEGORIES id = Object.Own cfg →
  (id = "auctions" ∨ id = "basic") ∧
  Object.own Category.CATEGORIES id = Some cfg.
Proof.
  unfold Object.get. destruct (Object.own Category.CATEGORIES id) as [c|] eqn:Hown.
  - intros [= ->]. split; [|done]. unfold Category.CATEGORIES in Hown. simpl in Hown.
    repeat case_decide; simplify_eq; auto.
  - by case_bool_decide.
Qed.

Lemma category_paths (dirname : path) (id : string) (cfg : Category.config)
    (out : path) :
  Object.get Category.CATEGORIES id = Object.Own cfg →
  ∃ c t cseg tseg,
    Category.contracts cfg = [c] ∧ Category.tests cfg = [t] ∧
    Path.basename t ≠ "utils" ∧
    Path.join dirname [".."; "fhevm-hardhat-template"]
      = Path.parent dirname ++ ["fhevm-hardhat-template"] ∧
    Path.join dirname [".."; "contracts"; c] = Path.parent dirname ++ "contracts" :: cseg ∧
    Path.join dirname [".."; "test"; t] = Path.parent dirname ++ "test" :: tseg ∧
    Path.join dirname [".."; "test"; "utils"] = Path.parent dirname ++ ["test"; "utils"] ∧
    Path.join out ["contracts"; Path.basename c] = out ++ ["contracts"; Path.basename c] ∧
    Path.join out ["test"; Path.basename t] = out ++ ["test"; Path.basename t] ∧
    Path.join out ["test"; "utils"] = out ++ ["test"; "utils"] ∧
    Path.join out ["README.md"] = out ++ ["README.md"] ∧
    Path.join out ["package.json"] = out ++ ["package.json"].
Proof.
  intros Hget.
  destruct (category_config_cases id cfg Hget) as [[-> | ->] Hown];
    simpl in Hown; simplify_eq; simpl; eexists _, _, _, _;
    (split; [reflexivity|]); (split; [reflexivity|]); (split; [by vm_compute|]);
    (split; [by rewrite join_up_plain|]);
    (split; [by rewrite join_up_plain|]);
    (split; [by rewrite join_up_plain|]);
    (split; [by rewrite join_up_plain|]);
    (split; [by rewrite join_plain|]);
    (split; [by rewrite join_plain|]);
    (split; [by rewrite join_plain|]);
    (split; by rewrite join_plain).
Qed.

Lemma run_copy_artifact (dirname : path) (kind : string) (out : path)
    (artifact : string) (w : world) :
  let src := Path.join dirname [".."; kind; artifact] in
  let dest := Path.join out [kind; Path.basename artifact] in
  src ≠ [] → dest ≠ [] →
  file_or_absent (files w) src = true →
  (is_Some (files w !! src) →
     Fs.stat (files w) (Path.parent dest) = Some Dir ∧
     Fs.is_dir (files w !! dest) = false) →
  Category.copy_artifact dirname kind out artifact w =
    (Returned tt,
     World (copied src dest (files w))
       (stdout w ++ copy_report src ("  - " +:+ artifact) (files w)) (stderr w)).
Proof.
  intros src dest Hs Hd Hfile Hdest. unfold Category.copy_artifact. fold src dest.
  pose proof (run_copy_if_exists src dest ("  - " +:+ artifact) mret w Hs Hd Hfile Hdest)
    as H.
  rewrite run_ret in H. rewrite <- H.
  rewrite !run_bind. destruct (Fs.existsSync src w) as [[b| |] w']; try done.
  rewrite run_bind. by destruct (when b _ w') as [[[]| |] w''].
Qed.

Lemma apart_not_below (out p k k' : path) : apart out p = true → p ++ k ≠ out ++ k'.
Proof.
  intros [H1 H2]%apart_spec Heq.
  destruct (prefix_weak_total p out (p ++ k)) as [[x Hx]|[x Hx]].
  - by exists k.
  - exists k'. done.
  - by apply (H2 x).
  - by apply (H1 x).
Qed.

Lemma template_copy_apart_below (fs : gmap path node) (tmpl out p k : path) :
  fresh_destination fs tmpl out = true →
  apart out p = true →
  template_copy fs tmpl out !! (p ++ k) = fs !! (p ++ k).
Proof.
  unfold fresh_destination. rewrite !andb_true_iff. intros [[Hc He] Ha] Hp.
  by apply fresh_copy_apart.
Qed.

Lemma utils_copied_lookup_other (src dest p : path) (fs : gmap path node) :
  (∀ k, p ≠ dest ++ k) → utils_copied src dest fs !! p = fs !! p.
Proof.
  intros Hp. unfold utils_copied. destruct (fs !! src); [|done].
  rewrite copy_tree_lookup.
  rewrite (proj2 (strip_prefix_None _ p)); [done|].
  intros rel. destruct (Fs.is_dir (Fs.stat fs dest)).
  - rewrite <- app_assoc. apply Hp.
  - apply Hp.
Qed.

(** The optional copy of the shared helpers, followed by the rest of the
    script. *)
Lemma run_utils_copy {B} (src dest : path) (k : unit → js B) (w : world) :
  src ≠ [] → dest ≠ [] →
  (is_Some (files w !! src) →
     let target := if Fs.is_dir (Fs.stat (files w) dest)
                   then dest ++ [Path.leaf src] else dest in
     Path.is_prefix src target = false ∧
     Fs.is_dir (Fs.stat (files w) (Path.parent target)) = true ∧
     is_tree (files w) src = true ∧
     (∀ k, files w !! (target ++ k) = None)) →
  (Fs.existsSync src ≫= λ there, when there (Shell.cp_r src dest) ≫= k) w
  = k tt (with_files w (utils_copied src dest (files w))).
Proof.
  intros Hs Hd Hok. rewrite run_bind, run_existsSync. cbv beta iota.
  rewrite stat_lookup by done. unfold utils_copied.
  destruct (files w !! src) as [n|] eqn:Hsrc.
  - rewrite bool_decide_eq_true_2 by eauto. simpl.
    destruct Hok as (Hpre & Hpar & Htree & Hnone); [eauto|].
    rewrite run_bind. unfold Shell.cp_r, get_files. rewrite run_bind. cbv beta iota.
    rewrite stat_lookup by done. rewrite Hsrc.
    rewrite bool_decide_eq_true_2 by eauto. simpl.
    set (target := if Fs.is_dir (Fs.stat (files w) dest)
                   then dest ++ [Path.leaf src] else dest) in *.
    rewrite Hpre, Hpar. simpl.
    rewrite run_bind. unfold put_files. cbv beta iota.
    assert ((Shell.copy_tree (files w) src target (λ _, true)).2 = true) as Hall.
    { apply copy_tree_complete. intros rel m Hm _.
      apply copy_ok_absent; try done.
      subst target. destruct (Fs.is_dir _); by destruct dest. }
    unfold Shell.copy_tree in Hall. simpl in Hall. simpl. by rewrite Hall.
  - rewrite bool_decide_eq_false_2 by (by intros [? ?]). simpl.
    rewrite run_bind, run_ret. cbv beta iota. by rewrite with_files_id.
Qed.

Lemma createCategory_fresh (dirname : path) (id : string) (cfg : Category.config)
    (out : path) (w : world) (text : string) (parsed result : json) :
  let tmpl := Path.join dirname [".."; "fhevm-hardhat-template"] in
  Object.get Category.CATEGORIES id = Object.Own cfg →
  fresh_destination (files w) tmpl out = true →
  template_ready (files w) tmpl = true →
  forallb (λ c, artifact_ready (files w) tmpl out
                  (Path.join dirname [".."; "contracts"; c]) "contracts" (Path.basename c))
          (Category.contracts cfg) = true →
  forallb (λ t, artifact_ready (files w) tmpl out
                  (Path.join dirname [".."; "test"; t]) "test" (Path.basename t))
          (Category.tests cfg) = true →
  utils_ready (files w) tmpl out (Path.join dirname [".."; "test"; "utils"]) = true →
  files w !! (tmpl ++ ["package.json"]) = Some (File text) →
  Json.parse text = Some parsed →
  rewritten parsed ("fhevm-" +:+ id +:+ "-examples") (Category.description cfg)
    (Category.keywords id) = Some result →
  Category.createCategory dirname id out w =
    (Returned tt,
     World (category_files dirname id cfg out result (files w))
           (stdout w ++ category_log dirname id cfg out (files w))
           (stderr w)).
Proof.
  intros tmpl Hget Hfresh Htmpl Hca Hta Hutils Hpkg Hparse Hrew.
  unfold Category.createCategory, category_files, category_log. rewrite Hget.
  fold tmpl.
  destruct (category_paths dirname id cfg out Hget)
    as (c & t & cseg & tseg & Hcs & Hts & Hnu & Etmpl & Ec & Et & Eu & Ecd & Etd & Eud
        & Erd & Epk).
  rewrite Hcs, Hts in *. simpl in Hca, Hta. rewrite andb_true_r in Hca, Hta.
  cbn [forEach foldl map concat length].
  rewrite Ecd, Etd, Eud, Erd, Epk.
  set (contractSrc := Path.join dirname [".."; "contracts"; c]) in *.
  set (testSrc := Path.join dirname [".."; "test"; t]) in *.
  set (utilsSrc := Path.join dirname [".."; "test"; "utils"]) in *.
  set (cbase := Path.basename c) in *.
  set (tbase := Path.basename t) in *.
  pose proof Hfresh as Hfresh'. unfold fresh_destination in Hfresh'.
  apply andb_true_iff in Hfresh' as [[Hcreat Hempty]%andb_true_iff Hapart].
  destruct (apart_nonempty _ _ Hapart) as [Hout Htne].
  unfold template_ready in Htmpl.
  apply andb_true_iff in Htmpl as [[[[Hdir%bool_decide_eq_true Htree]%andb_true_iff
    Hcdir%bool_decide_eq_true]%andb_true_iff Htdir%bool_decide_eq_true]%andb_true_iff
    Hreadme%negb_true_iff].
  unfold artifact_ready in Hca, Hta.
  apply andb_true_iff in Hca as [[Hcfile Hcapart]%andb_true_iff Hcdst%negb_true_iff].
  apply andb_true_iff in Hta as [[Htfile Htapart]%andb_true_iff Htdst%negb_true_iff].
  destruct (apart_nonempty _ _ Hcapart) as [_ Hcne].
  destruct (apart_nonempty _ _ Htapart) as [_ Htne'].
  unfold utils_ready in Hutils. apply andb_true_iff in Hutils as [Huapart Hutils].
  destruct (apart_nonempty _ _ Huapart) as [_ Hune].
  set (fs0 := files w) in *.
  set (fs2 := template_copy fs0 tmpl out).
  assert (∀ name rest, Shell.visible name = true →
            fs2 !! (out ++ name :: rest) = fs0 !! (tmpl ++ name :: rest)) as Hcopy.
  { intros. by apply template_copy_lookup. }
  assert (Fs.stat fs2 out = Some Dir) as Hout2 by (by apply template_copy_out).
  rewrite stat_lookup in Hout2 by done.
  assert (∀ p k, apart out p = true → p ≠ out ++ k) as Hnot_out.
  { intros p k [H _]%apart_spec. apply H. }
  assert (fs2 !! contractSrc = fs0 !! contractSrc) as Hc2
    by (by apply template_copy_apart).
  assert (fs2 !! testSrc = fs0 !! testSrc) as Ht2 by (by apply template_copy_apart).
  (* first console line, mkdir, second console line, copy *)
  rewrite run_bind, run_log. cbv beta iota.
  rewrite run_ensure_dir by done.
  rewrite run_bind, run_log. cbv beta iota.
  rewrite run_bind, (run_template_copy tmpl out _ fs0); try done; cycle 1.
  { exists "package.json". split; [done|]. rewrite Hpkg. eauto. }
  cbv beta iota. fold fs2.
  (* the contracts *)
  rewrite run_bind, run_log. cbv beta iota.
  rewrite run_bind, run_bind.
  rewrite run_copy_artifact; fold contractSrc cbase; rewrite ?Ecd;
    [|done|by destruct out|..]; cycle 1.
  { simpl. unfold file_or_absent in *. rewrite stat_lookup in * by done.
    by rewrite Hc2. }
  { intros _. simpl. rewrite parent_two.
    rewrite stat_lookup by (by destruct out). by rewrite !Hcopy, Hcdir. }
  cbv beta iota. rewrite run_ret. cbv beta iota.
  simpl files. simpl stdout. simpl stderr.
  set (fs3 := copied contractSrc (out ++ ["contracts"; cbase]) fs2).
  (* the tests *)
  rewrite run_bind, run_log. cbv beta iota.
  rewrite run_bind, run_bind.
  rewrite run_copy_artifact; fold testSrc tbase; rewrite ?Etd;
    [|done|by destruct out|..]; cycle 1.
  { simpl. unfold file_or_absent in *. rewrite stat_lookup in * by done.
    subst fs3. rewrite copied_lookup_ne by (by apply Hnot_out). by rewrite Ht2. }
  { intros _. simpl. rewrite parent_two.
    rewrite stat_lookup by (by destruct out).
    subst fs3. rewrite !copied_lookup_ne by tail_neq. by rewrite !Hcopy, Htdir. }
  cbv beta iota. rewrite run_ret. cbv beta iota.
  simpl files. simpl stdout. simpl stderr.
  set (fs4 := copied testSrc (out ++ ["test"; tbase]) fs3).
  assert (∀ p, p ≠ out ++ ["contracts"; cbase] → p ≠ out ++ ["test"; tbase] →
               fs4 !! p = fs2 !! p) as H4.
  { intros p H1 H2. subst fs4 fs3. by rewrite !copied_lookup_ne. }
  assert (∀ k, fs4 !! (utilsSrc ++ k) = fs0 !! (utilsSrc ++ k)) as Hu4.
  { intros k. rewrite H4 by (by apply apart_not_below).
    by apply template_copy_apart_below. }
  assert (∀ k, fs4 !! (out ++ "test" :: "utils" :: k)
               = fs0 !! (tmpl ++ "test" :: "utils" :: k)) as Hd4.
  { intros k. rewrite H4, Hcopy; [done..| |]; intros H%app_inv_head; simplify_eq. }
  (* the shared helpers *)
  rewrite run_utils_copy; [|done|by destruct out|]; cycle 1.
  { intros Hsome. simpl files in *.
    rewrite <- (app_nil_r utilsSrc), Hu4, app_nil_r in Hsome.
    destruct Hsome as [n Hn]. rewrite Hn in Hutils.
    apply andb_true_iff in Hutils as [Hutree Huempty%bool_decide_eq_true].
    rewrite (stat_lookup fs4 (out ++ ["test"; "utils"])) by (by destruct out).
    rewrite Hd4. unfold utils_rel in Huempty.
    assert (Path.leaf utilsSrc = "utils") as ->.
    { unfold Path.leaf. subst utilsSrc. rewrite Eu.
      by rewrite last_app_nonempty. }
    assert (∀ rel, (∀ k, fs0 !! ((tmpl ++ rel) ++ k) = None) ↔
                   Shell.subtree fs0 (tmpl ++ rel) = ∅) as Hsub.
    { intros rel. split.
      - intros H. apply map_eq. intros k. by rewrite subtree_lookup, H, lookup_empty.
      - intros H k. by rewrite <- subtree_lookup, H, lookup_empty. }
    split; [|split; [|split]].
    - apply is_prefix_false.
      destruct (Fs.is_dir (fs0 !! (tmpl ++ ["test"; "utils"])));
        intros k Hk; symmetry in Hk; revert Hk;
        rewrite <- ?app_assoc; by apply apart_not_below.
    - destruct (Fs.is_dir (fs0 !! (tmpl ++ ["test"; "utils"]))) eqn:Hisdir.
      + rewrite parent_snoc.
        rewrite stat_lookup by (by destruct out). by rewrite Hd4.
      + rewrite parent_two. rewrite stat_lookup by (by destruct out).
        rewrite H4 by tail_neq. by rewrite Hcopy, Htdir.
    - apply (is_tree_ext fs0); [|done]. apply Hu4.
    - intros k. pose proof (proj2 (Hsub _) Huempty k) as Hk. clear Huempty.
      destruct (Fs.is_dir (fs0 !! (tmpl ++ ["test"; "utils"])));
        rewrite <- !app_assoc in *; simpl; by rewrite Hd4. }
  simpl files.
  set (fs5 := utils_copied utilsSrc (out ++ ["test"; "utils"]) fs4).
  assert (∀ name rest, name ≠ "test" → fs5 !! (out ++ name :: rest)
                                        = fs4 !! (out ++ name :: rest)) as H5.
  { intros name rest Hname. subst fs5. apply utils_copied_lookup_other.
    intros k. rewrite <- app_assoc. intros H%app_inv_head.
    simpl in H. by simplify_eq. }
  assert (fs5 !! out = Some Dir) as Hout5.
  { subst fs5. rewrite utils_copied_lookup_other.
    - rewrite H4; [done|..]; intros H; apply (f_equal length) in H;
        rewrite length_app in H; simpl in H; lia.
    - intros k H. apply (f_equal length) in H.
      rewrite !length_app in H; simpl in H; lia. }
(* the README *)
  unfold Fs.writeFileSync.
  rewrite run_bind, run_store_ok; cycle 1.
  { simpl. by rewrite parent_snoc, stat_lookup. }
  { simpl. rewrite stat_lookup by (by destruct out).
    rewrite H5 by done. rewrite H4 by tail_neq. by rewrite Hcopy. }
  cbv beta iota. simpl files.
  set (fs6 := <[out ++ ["README.md"] := File (Category.generateCategoryReadme id cfg)]> fs5).
  (* the manifest *)
  unfold Category.updateCategoryPackageJson. rewrite Epk.
  rewrite run_bind, run_bind, (run_read_ok _ text); cycle 1.
  { simpl. rewrite stat_lookup by (by destruct out). fold fs6. subst fs6.
    rewrite lookup_insert_ne by tail_neq. rewrite H5 by done.
    rewrite H4 by tail_neq. by rewrite Hcopy. }
  cbv beta iota. unfold JSON_parse. rewrite Hparse.
  rewrite run_bind, run_ret. cbv beta iota.
  rewrite (run_set_fields parsed result) by done.
  unfold Fs.writeFileSync. cbv beta.
  rewrite run_store_ok; cycle 1.
  { simpl. rewrite parent_snoc, stat_lookup by done. subst fs6.
    rewrite lookup_insert_ne; [done|].
    intros H; apply (f_equal length) in H; rewrite length_app in H; simpl in H; lia. }
  { simpl. rewrite stat_lookup by (by destruct out). subst fs6.
    rewrite lookup_insert_ne by tail_neq. rewrite H5 by done.
    rewrite H4 by tail_neq. by rewrite Hcopy, Hpkg. }
  cbv beta iota.
  repeat (rewrite run_bind, run_log; cbv beta iota).
  rewrite run_log.
  unfold logged, with_files. simpl.
  assert (copy_report testSrc ("  - " +:+ t) fs3
          = copy_report testSrc ("  - " +:+ t) fs0) as ->.
  { unfold copy_report. subst fs3.
    rewrite copied_lookup_ne by (by apply Hnot_out). by rewrite Ht2. }
  assert (copy_report contractSrc ("  - " +:+ c) fs2
          = copy_report contractSrc ("  - " +:+ c) fs0) as ->.
  { unfold copy_report. by rewrite Hc2. }
  f_equal. f_equal. rewrite !app_nil_r, <- !app_assoc. done.
Qed.

(** ** What a fresh materialization leaves at the destination *)

Lemma overlaid_ext (fs fs' : gmap path node) (src dest dest' : path) :
  fs' !! src = fs !! src → fs' !! dest' = fs !! dest →
  overlaid fs' src dest' = overlaid fs src dest.
Proof. unfold overlaid. by intros -> ->. Qed.

Lemma example_files_lookup (dirname : path) (id : string) (cfg : Example.config)
    (out : path) (result : json) (fs : gmap path node) :
  let tmpl := Path.join dirname [".."; "fhevm-hardhat-template"] in
  let contractSrc := Path.join dirname [".."; "contracts"; Example.contract cfg] in
  let testSrc := Path.join dirname [".."; "test"; Example.test cfg] in
  let cbase := Path.basename (Example.contract cfg) in
  let tbase := Path.basename (Example.test cfg) in
  let after := example_files dirname id cfg out result fs in
  Object.get Example.EXAMPLES_MAP id = Object.Own cfg →
  fresh_destination fs tmpl out = true →
  template_ready fs tmpl = true →
  artifact_ready fs tmpl out contractSrc "contracts" cbase = true →
  artifact_ready fs tmpl out testSrc "test" tbase = true →
  after !! Path.join out ["package.json"] = Some (File (Json.stringify result)) ∧
  after !! Path.join out ["README.md"] = Some (File (Example.generateReadme id cfg)) ∧
  after !! Path.join out ["contracts"; cbase]
    = overlaid fs contractSrc (tmpl ++ ["contracts"; cbase]) ∧
  after !! Path.join out ["test"; tbase] = overlaid fs testSrc (tmpl ++ ["test"; tbase]) ∧
  after !! Path.join out ["contracts"] = Some Dir ∧
  after !! Path.join out ["test"] = Some Dir.
Proof.
  intros tmpl contractSrc testSrc cbase tbase after Hget Hfresh Htmpl Hca Hta.
  subst after. unfold example_files. fold tmpl contractSrc testSrc cbase tbase.
  destruct (example_paths dirname id cfg out Hget)
    as (cseg & tseg & Etmpl & Ec & Et & Ecd & Etd & Erd & Epk).
  fold cbase tbase in Ecd, Etd.
  rewrite Ecd, Etd, Erd, Epk.
  assert (Path.join out ["contracts"] = out ++ ["contracts"]) as -> by (by apply join_plain).
  assert (Path.join out ["test"] = out ++ ["test"]) as -> by (by apply join_plain).
  pose proof Hfresh as Hfresh'. unfold fresh_destination in Hfresh'.
  apply andb_true_iff in Hfresh' as [[Hcreat Hempty]%andb_true_iff Hapart].
  unfold template_ready in Htmpl.
  apply andb_true_iff in Htmpl as [[[[Hdir%bool_decide_eq_true Htree]%andb_true_iff
    Hcdir%bool_decide_eq_true]%andb_true_iff Htdir%bool_decide_eq_true]%andb_true_iff
    Hreadme%negb_true_iff].
  unfold artifact_ready in Hca, Hta.
  apply andb_true_iff in Hca as [[Hcfile Hcapart]%andb_true_iff Hcdst%negb_true_iff].
  apply andb_true_iff in Hta as [[Htfile Htapart]%andb_true_iff Htdst%negb_true_iff].
  destruct (apart_nonempty _ _ Hcapart) as [_ Hcne].
  destruct (apart_nonempty _ _ Htapart) as [_ Htne'].
  unfold file_or_absent in Hcfile, Htfile. rewrite stat_lookup in Hcfile, Htfile by done.
  apply negb_true_iff in Hcfile, Htfile.
  set (fs2 := template_copy fs tmpl out).
  assert (∀ name rest, Shell.visible name = true →
            fs2 !! (out ++ name :: rest) = fs !! (tmpl ++ name :: rest)) as Hcopy.
  { intros. by apply template_copy_lookup. }
  assert (∀ p k, apart out p = true → p ≠ out ++ k) as Hnot_out.
  { intros p k [H _]%apart_spec. apply H. }
  assert (fs2 !! contractSrc = fs !! contractSrc) as Hc2
    by (by apply template_copy_apart).
  assert (fs2 !! testSrc = fs !! testSrc) as Ht2 by (by apply template_copy_apart).
  set (fs3 := copied contractSrc (out ++ ["contracts"; cbase]) fs2).
  assert (fs3 !! testSrc = fs !! testSrc) as Ht3.
  { subst fs3. rewrite copied_lookup_ne by (by apply Hnot_out). done. }
  split; [by rewrite lookup_insert_eq|].
  split; [rewrite lookup_insert_ne by tail_neq; by rewrite lookup_insert_eq|].
  rewrite !(lookup_insert_ne _ (out ++ ["package.json"])) by tail_neq.
  rewrite !(lookup_insert_ne _ (out ++ ["README.md"])) by tail_neq.
  split; [|split; [|split]].
  - rewrite copied_lookup_ne by tail_neq. subst fs3.
    rewrite copied_lookup by (by rewrite Hc2).
    apply overlaid_ext; [done|]. by rewrite Hcopy.
  - rewrite copied_lookup by (by rewrite Ht3).
    apply overlaid_ext; [done|]. subst fs3.
    rewrite copied_lookup_ne by tail_neq. by rewrite Hcopy.
  - subst fs3. rewrite !copied_lookup_ne by tail_neq. by rewrite Hcopy.
  - subst fs3. rewrite !copied_lookup_ne by tail_neq. by rewrite Hcopy.
Qed.

Lemma category_files_lookup (dirname : path) (id : string) (cfg : Category.config)
    (out : path) (result : json) (fs : gmap path node) :
  let tmpl := Path.join dirname [".."; "fhevm-hardhat-template"] in
  let after := category_files dirname id cfg out result fs in
  Object.get Category.CATEGORIES id = Object.Own cfg →
  fresh_destination fs tmpl out = true →
  template_ready fs tmpl = true →
  forallb (λ c, artifact_ready fs tmpl out
                  (Path.join dirname [".."; "contracts"; c]) "contracts" (Path.basename c))
          (Category.contracts cfg) = true →
  forallb (λ t, artifact_ready fs tmpl out
                  (Path.join dirname [".."; "test"; t]) "test" (Path.basename t))
          (Category.tests cfg) = true →
  after !! Path.join out ["package.json"] = Some (File (Json.stringify result)) ∧
  after !! Path.join out ["README.md"]
    = Some (File (Category.generateCategoryReadme id cfg)) ∧
  (∀ c, c ∈ Category.contracts cfg →
     after !! Path.join out ["contracts"; Path.basename c]
     = overlaid fs (Path.join dirname [".."; "contracts"; c])
         (tmpl ++ ["contracts"; Path.basename c])) ∧
  (∀ t, t ∈ Category.tests cfg →
     after !! Path.join out ["test"; Path.basename t]
     = overlaid fs (Path.join dirname [".."; "test"; t])
         (tmpl ++ ["test"; Path.basename t])) ∧
  after !! Path.join out ["contracts"] = Some Dir ∧
  after !! Path.join out ["test"] = Some Dir.
Proof.
  intros tmpl after Hget Hfresh Htmpl Hca Hta.
  subst after. unfold category_files. fold tmpl.
  destruct (category_paths dirname id cfg out Hget)
    as (c & t & cseg & tseg & Hcs & Hts & Hnu & Etmpl & Ec & Et & Eu & Ecd & Etd & Eud
        & Erd & Epk).
  rewrite Hcs, Hts in *. simpl in Hca, Hta. rewrite andb_true_r in Hca, Hta.
  cbn [foldl].
  rewrite Ecd, Etd, Eud, Erd, Epk.
  assert (Path.join out ["contracts"] = out ++ ["contracts"]) as -> by (by apply join_plain).
  assert (Path.join out ["test"] = out ++ ["test"]) as -> by (by apply join_plain).
  set (contractSrc := Path.join dirname [".."; "contracts"; c]) in *.
  set (testSrc := Path.join dirname [".."; "test"; t]) in *.
  set (utilsSrc := Path.join dirname [".."; "test"; "utils"]) in *.
  set (cbase := Path.basename c) in *.
  set (tbase := Path.basename t) in *.
  pose proof Hfresh as Hfresh'. unfold fresh_destination in Hfresh'.
  apply andb_true_iff in Hfresh' as [[Hcreat Hempty]%andb_true_iff Hapart].
  unfold template_ready in Htmpl.
  apply andb_true_iff in Htmpl as [[[[Hdir%bool_decide_eq_true Htree]%andb_true_iff
    Hcdir%bool_decide_eq_true]%andb_true_iff Htdir%bool_decide_eq_true]%andb_true_iff
    Hreadme%negb_true_iff].
  unfold artifact_ready in Hca, Hta.
  apply andb_true_iff in Hca as [[Hcfile Hcapart]%andb_true_iff Hcdst%negb_true_iff].
  apply andb_true_iff in Hta as [[Htfile Htapart]%andb_true_iff Htdst%negb_true_iff].
  destruct (apart_nonempty _ _ Hcapart) as [_ Hcne].
  destruct (apart_nonempty _ _ Htapart) as [_ Htne'].
  unfold file_or_absent in Hcfile, Htfile. rewrite stat_lookup in Hcfile, Htfile by done.
  apply negb_true_iff in Hcfile, Htfile.
  set (fs2 := template_copy fs tmpl out).
  assert (∀ name rest, Shell.visible name = true →
            fs2 !! (out ++ name :: rest) = fs !! (tmpl ++ name :: rest)) as Hcopy.
  { intros. by apply template_copy_lookup. }
  assert (∀ p k, apart out p = true → p ≠ out ++ k) as Hnot_out.
  { intros p k [H _]%apart_spec. apply H. }
  assert (fs2 !! contractSrc = fs !! contractSrc) as Hc2
    by (by apply template_copy_apart).
  assert (fs2 !! testSrc = fs !! testSrc) as Ht2 by (by apply template_copy_apart).
  set (fs3 := copied contractSrc (out ++ ["contracts"; cbase]) fs2).
  assert (fs3 !! testSrc = fs !! testSrc) as Ht3.
  { subst fs3. rewrite copied_lookup_ne by (by apply Hnot_out). done. }
  set (fs4 := copied testSrc (out ++ ["test"; tbase]) fs3).
  set (fs5 := utils_copied utilsSrc (out ++ ["test"; "utils"]) fs4).
  assert (∀ rest, (∀ k, rest ≠ "test" :: "utils" :: k) →
                  fs5 !! (out ++ rest) = fs4 !! (out ++ rest)) as H5.
  { intros rest Hrest. subst fs5. apply utils_copied_lookup_other.
    intros k. rewrite <- app_assoc. intros H%app_inv_head. by apply (Hrest k). }
  split; [by rewrite lookup_insert_eq|].
  split; [rewrite lookup_insert_ne by tail_neq; by rewrite lookup_insert_eq|].
  rewrite !(lookup_insert_ne _ (out ++ ["package.json"])) by tail_neq.
  rewrite !(lookup_insert_ne _ (out ++ ["README.md"])) by tail_neq.
  split; [|split; [|split]].
  - intros c' ->%list_elem_of_singleton. fold contractSrc cbase. rewrite Ecd.
    rewrite !lookup_insert_ne by tail_neq.
    rewrite H5 by done. subst fs4.
    rewrite copied_lookup_ne by tail_neq. subst fs3.
    rewrite copied_lookup by (by rewrite Hc2).
    apply overlaid_ext; [done|]. by rewrite Hcopy.
  - intros t' ->%list_elem_of_singleton. fold testSrc tbase. rewrite Etd.
    rewrite !lookup_insert_ne by tail_neq.
    rewrite H5 by (intros k H; simplify_eq). subst fs4.
    rewrite copied_lookup by (by rewrite Ht3).
    apply overlaid_ext; [done|]. subst fs3.
    rewrite copied_lookup_ne by tail_neq. by rewrite Hcopy.
  - rewrite H5 by done. subst fs4 fs3.
    rewrite !copied_lookup_ne by tail_neq. by rewrite Hcopy.
  - rewrite H5 by done. subst fs4 fs3.
    rewrite !copied_lookup_ne by tail_neq. by rewrite Hcopy.
Qed.

(** ** The manifest object *)

Lemma get_set_prop (kv : list (string * json)) (k : string) (v : json) :
  Json.get_prop (Json.set_prop kv k v) k = Some v.
Proof.
  induction kv as [|[k' v'] kv IH]; simpl.
  - by rewrite decide_True.
  - case_decide; simpl.
    + by rewrite decide_True.
    + by rewrite decide_False.
Qed.

Lemma get_set_prop_ne (kv : list (string * json)) (k k' : string) (v : json) :
  k ≠ k' → Json.get_prop (Json.set_prop kv k v) k' = Json.get_prop kv k'.
Proof.
  intros Hne. induction kv as [|[k0 v0] kv IH]; simpl.
  - by rewrite decide_False.
  - case_decide; simpl.
    + subst. by rewrite !decide_False.
    + case_decide; done.
Qed.

Lemma rewritten_object (kv : list (string * json)) (name description : string)
    (keywords : list string) :
  ∃ result,
    rewritten (JObj kv) name description keywords = Some result ∧
    Json.field result "name" = Some (JStr name) ∧
    Json.field result "description" = Some (JStr description) ∧
    Json.field result "keywords" = Some (JArr (map JStr keywords)) ∧
    ∀ k, k ≠ "name" → k ≠ "description" → k ≠ "keywords" →
         Json.field result k = Json.get_prop kv k.
Proof.
  eexists. split; [reflexivity|]. simpl.
  split; [|split; [|split]].
  - do 2 (rewrite get_set_prop_ne by done). by rewrite get_set_prop.
  - rewrite get_set_prop_ne by done. by rewrite get_set_prop.
  - by rewrite get_set_prop.
  - intros k H1 H2 H3. by do 3 (rewrite get_set_prop_ne by done).
Qed.

Lemma rewritten_total (parsed : json) (name description : string)
    (keywords : list string) :
  parsed ≠ JNull → is_Some (rewritten parsed name description keywords).
Proof. intros H. destruct parsed; try done; by eexists. Qed.

(** ** C1: the [fhe-counter] example *)




(** ** C2: the rewritten manifest *)




(** ** C3: an artifact whose source file is missing *)


Lemma example_log_without_contract (dirname : path) (id : string)
    (cfg : Example.config) (out : path) (fs : gmap path node) :
  Object.get Example.EXAMPLES_MAP id = Object.Own cfg →
  fs !! Path.join dirname [".."; "contracts"; Example.contract cfg] = None →
  ("📄 Copying contract: " +:+ Example.contract cfg) ∉ example_log dirname id cfg out fs.
Proof.
  intros Hget Hnone. unfold example_log, copy_report. rewrite Hnone.
  destruct (example_config_cases id cfg Hget) as [[-> | ->] Hown];
    simpl in Hown; simplify_eq; cbn [Example.contract Example.test];
    destruct (fs !! Path.join dirname [".."; "test"; _]) as [[?|]|]; simpl; intros H;
    repeat (apply elem_of_cons in H as [H|H];
            [rewrite ?append_cons, ?append_nil_l in H; discriminate H|]);
    by apply elem_of_nil in H.
Qed.

Lemma example_log_without_test (dirname : path) (id : string)
    (cfg : Example.config) (out : path) (fs : gmap path node) :
  Object.get Example.EXAMPLES_MAP id = Object.Own cfg →
  fs !! Path.join dirname [".."; "test"; Example.test cfg] = None →
  ("🧪 Copying test: " +:+ Example.test cfg) ∉ example_log dirname id cfg out fs.
Proof.
  intros Hget Hnone. unfold example_log, copy_report. rewrite Hnone.
  destruct (example_config_cases id cfg Hget) as [[-> | ->] Hown];
    simpl in Hown; simplify_eq; cbn [Example.contract Example.test];
    destruct (fs !! Path.join dirname [".."; "contracts"; _]) as [[?|]|]; simpl; intros H;
    repeat (apply elem_of_cons in H as [H|H];
            [rewrite ?append_cons, ?append_nil_l in H; discriminate H|]);
    by apply elem_of_nil in H.
Qed.

Lemma category_log_without_contract (dirname : path) (id : string)
    (cfg : Category.config) (out : path) (fs : gmap path node) (c : string) :
  Object.get Category.CATEGORIES id = Object.Own cfg →
  c ∈ Category.contracts cfg →
  fs !! Path.join dirname [".."; "contracts"; c] = None →
  ("  - " +:+ c) ∉ category_log dirname id cfg out fs.
Proof.
  intros Hget Hc Hnone. unfold category_log, copy_report.
  destruct (category_config_cases id cfg Hget) as [[-> | ->] Hown];
    simpl in Hown; simplify_eq; cbn [Category.contracts Category.tests] in *;
    apply list_elem_of_singleton in Hc; subst c; cbn [map concat];
    rewrite Hnone;
    destruct (fs !! Path.join dirname [".."; "test"; _]) as [[?|]|]; simpl; intros H;
    repeat (apply elem_of_cons in H as [H|H];
            [rewrite ?append_cons, ?append_nil_l in H; discriminate H|]);
    by apply elem_of_nil in H.
Qed.

Lemma category_log_without_test (dirname : path) (id : string)
    (cfg : Category.config) (out : path) (fs : gmap path node) (t : string) :
  Object.get Category.CATEGORIES id = Object.Own cfg →
  t ∈ Category.tests cfg →
  fs !! Path.join dirname [".."; "test"; t] = None →
  ("  - " +:+ t) ∉ category_log dirname id cfg out fs.
Proof.
  intros Hget Ht Hnone. unfold category_log, copy_report.
  destruct (category_config_cases id cfg Hget) as [[-> | ->] Hown];
    simpl in Hown; simplify_eq; cbn [Category.contracts Category.tests] in *;
    apply list_elem_of_singleton in Ht; subst t; cbn [map concat];
    rewrite Hnone;
    destruct (fs !! Path.join dirname [".."; "contracts"; _]) as [[?|]|]; simpl; intros H;
    repeat (apply elem_of_cons in H as [H|H];
            [rewrite ?append_cons, ?append_nil_l in H; discriminate H|]);
    by apply elem_of_nil in H.
Qed.



(** * Further properties *)

(** ** The command lines *)

(** X1: called with fewer than two arguments, [create-fhevm-example.js]
    and [create-fhevm-category.js] print the usage line and the
    registered identifiers on standard output and exit with status 1:
    a single argument, be it a registered identifier or [--help], starts
    nothing, and the file system is left as it was. *)
Theorem materializers_need_two_arguments
    (dirname cwd : path) (args : list string) (w : world) :
  length args < 2 →
  Example.main dirname cwd args w =
    (Exited 1,
     World (files w)
       (stdout w ++ [ "Usage: node create-fhevm-example.js <example-name> <output-dir>";
                      "Available examples: blind-auction, fhe-counter" ])
       (stderr w)) ∧
  Category.main dirname cwd args w =
    (Exited 1,
     World (files w)
       (stdout w ++ [ "Usage: node create-fhevm-category.js <category-name> <output-dir>";
                      "Available categories: auctions, basic" ])
       (stderr w)).
Proof.
  intros Hlen. unfold Example.main, Category.main.
  assert ((length args <? 2)%nat = true) as -> by (by apply Nat.ltb_lt).
  split; rewrite run_bind; unfold when;
    rewrite run_bind, run_log; cbv beta iota;
    rewrite run_bind, run_log; cbv beta iota;
    unfold process_exit, logged; simpl; by rewrite <- app_assoc.
Qed.

Lemma materializers_need_two_arguments_witness :
  (Example.main sample_dirname sample_cwd ["fhe-counter"] sample_world).1 = Exited 1 ∧
  (Category.main sample_dirname sample_cwd ["--help"] sample_world).1 = Exited 1.
Proof.
  destruct (materializers_need_two_arguments sample_dirname sample_cwd
              ["fhe-counter"] sample_world) as [Hex _]; [simpl; lia|].
  destruct (materializers_need_two_arguments sample_dirname sample_cwd
              ["--help"] sample_world) as [_ Hcat]; [simpl; lia|].
  split.
  - by rewrite Hex.
  - by rewrite Hcat.
Defined.

(** X2: [generate-docs.js] without arguments, or with [--help] as first
    argument whatever follows, prints three usage lines on standard
    output and exits with status 0, leaving the file system as it was. *)
Theorem docs_help_exits_with_success
    (dirname cwd : path) (args : list string) (w : world) :
  args = [] ∨ head args = Some "--help" →
  Docs.main dirname cwd args w =
    (Exited 0,
     World (files w)
       (stdout w ++ [ "Usage: node generate-docs.js <example-name> [output-dir]";
                      "       node generate-docs.js --all";
                      "Available examples: blind-auction, fhe-counter" ])
       (stderr w)).
Proof.
  intros Hargs. unfold Docs.main.
  assert ((length args =? 0)%nat || bool_decide (nth 0 args "" = "--help") = true) as ->.
  { destruct Hargs as [-> | H]; [done|].
    destruct args as [|a rest]; [done|]. simpl in H. by simplify_eq. }
  rewrite run_bind. unfold when.
  rewrite run_bind, run_log. cbv beta iota.
  rewrite run_bind, run_log. cbv beta iota.
  rewrite run_bind, run_log. cbv beta iota.
  unfold process_exit, logged. simpl. by rewrite <- !app_assoc.
Qed.

Lemma docs_help_exits_with_success_witness :
  let r := Docs.main sample_dirname sample_cwd ["--help"; "fhe-counter"] sample_world in
  r.1 = Exited 0 ∧ files r.2 = files sample_world.
Proof.
  intros r. subst r.
  rewrite (docs_help_exits_with_success sample_dirname sample_cwd
             ["--help"; "fhe-counter"] sample_world); [done|].
  right. reflexivity.
Defined.

(** X3: given an identifier for which the lookup in the documentation
    config is undefined, [generate-docs.js] writes one line to standard
    error, nothing to standard output, and exits with status 1 without
    touching the file system, whether or not an output directory is
    named. *)
Theorem docs_cli_rejects_unknown_example
    (dirname cwd : path) (id : string) (rest : list string) (w : world) :
  Object.get Docs.DOCS_CONFIG id = Object.Undefined →
  id ≠ "--help" → id ≠ "--all" →
  Docs.main dirname cwd (id :: rest) w =
    (Exited 1,
     World (files w) (stdout w)
       (stderr w ++ ["❌ Documentation config for '" +:+ id +:+ "' not found"])).
Proof.
  intros Hget Hhelp Hall. unfold Docs.main. simpl.
  rewrite !bool_decide_eq_false_2 by done.
  rewrite run_bind. simpl.
  by apply generateDocs_unknown.
Qed.

Lemma docs_cli_rejects_unknown_example_witness :
  let r := Docs.main sample_dirname sample_cwd ["does-not-exist"; "out"] sample_world in
  r.1 = Exited 1 ∧ files r.2 = files sample_world ∧ stdout r.2 = [].
Proof.
  intros r. subst r.
  rewrite (docs_cli_rejects_unknown_example sample_dirname sample_cwd
             "does-not-exist" ["out"] sample_world); [done|reflexivity|done|done].
Defined.

(** ** The manifest update on its own *)

Lemma set_prop_keys (kv : list (string * json)) (k : string) (v : json) :
  map fst (Json.set_prop kv k v)
  = if bool_decide (k ∈ map fst kv) then map fst kv else map fst kv ++ [k].
Proof.
  induction kv as [|[k' v'] kv IH]; simpl; [done|].
  destruct (decide (k' = k)) as [->|Hk]; simpl.
  - rewrite bool_decide_eq_true_2 by left. done.
  - rewrite IH. case_bool_decide as Hin.
    + rewrite bool_decide_eq_true_2 by (by right). done.
    + rewrite bool_decide_eq_false_2; [done|].
      intros [->|?]%elem_of_cons; done.
Qed.

Lemma set_prop_keys_filter (kv : list (string * json)) (k : string) (v : json) :
  map fst (Json.set_prop kv k v) = map fst kv ++ filter (λ x, x ∉ map fst kv) [k].
Proof.
  rewrite set_prop_keys. case_bool_decide as Hin.
  - rewrite filter_cons_False by (by intros H; apply H). by rewrite app_nil_r.
  - by rewrite filter_cons_True.
Qed.

Lemma set_prop_mem (kv : list (string * json)) (k k' : string) (v : json) :
  k ≠ k' → k' ∈ map fst (Json.set_prop kv k v) ↔ k' ∈ map fst kv.
Proof.
  intros Hne. rewrite set_prop_keys. destruct (bool_decide _); [done|].
  rewrite elem_of_app, list_elem_of_singleton.
  split; [intros [?|Heq]; [done|by destruct Hne]|by left].
Qed.

Lemma filter_singleton_ext (P Q : string → Prop) `{∀ x, Decision (P x)}
    `{∀ x, Decision (Q x)} (k : string) :
  (P k ↔ Q k) → filter P [k] = filter Q [k].
Proof.
  intros HPQ. destruct (decide (P k)) as [HP|HP].
  - rewrite !filter_cons_True; [done|by apply HPQ|done].
  - rewrite !filter_cons_False; [done|by rewrite <- HPQ|done].
Qed.

Lemma run_update_manifest (pkg : path) (text : string) (parsed result : json)
    (name description : string) (keywords : list string) (w : world) :
  pkg ≠ [] →
  Fs.stat (files w) pkg = Some (File text) →
  Fs.stat (files w) (Path.parent pkg) = Some Dir →
  Json.parse text = Some parsed →
  rewritten parsed name description keywords = Some result →
  (Fs.readFileSync pkg ≫= λ text,
   JSON_parse text ≫= λ v,
   set_field v "name" (JStr name) ≫= λ v,
   set_field v "description" (JStr description) ≫= λ v,
   set_field v "keywords" (JArr (map JStr keywords)) ≫= λ v,
   Fs.writeFileSync pkg (Json.stringify v)) w
  = (Returned tt, with_files w (<[pkg := File (Json.stringify result)]> (files w))).
Proof.
  intros Hne Hfile Hdir Hparse Hrew.
  rewrite run_bind, (run_read_ok _ text) by done. cbv beta iota.
  unfold JSON_parse. rewrite Hparse. rewrite run_bind, run_ret. cbv beta iota.
  rewrite (run_set_fields parsed result) by done.
  unfold Fs.writeFileSync. apply run_store_ok; [done|]. by rewrite Hfile.
Qed.

(** X4: when the manifest at the destination is a JSON object that is
    printed as it was read (its numbers are plain integers, none of its
    keys is a string of digits), [updatePackageJson] and
    [updateCategoryPackageJson] rewrite that one file and nothing else.
    The new manifest has the three rewritten members; every other member
    keeps its value, and the members keep their order, a rewritten
    member that was missing being added at the end. *)
Theorem manifest_update_keeps_other_members
    (out : path) (id : string) (w : world) (text : string)
    (kv : list (string * json)) :
  let pkg := Path.join out ["package.json"] in
  Fs.stat (files w) out = Some Dir →
  files w !! pkg = Some (File text) →
  Json.parse text = Some (JObj kv) →
  printable (JObj kv) = true →
  (∀ cfg, ∃ kv',
     Example.updatePackageJson out id cfg w
       = (Returned tt, with_files w (<[pkg := File (Json.stringify (JObj kv'))]> (files w))) ∧
     Json.get_prop kv' "name" = Some (JStr ("fhevm-" +:+ id)) ∧
     (∀ k, k ∉ ["name"; "description"; "keywords"] →
           Json.get_prop kv' k = Json.get_prop kv k) ∧
     map fst kv' = map fst kv ++
       filter (λ k, k ∉ map fst kv) ["name"; "description"; "keywords"]) ∧
  (∀ cfg, ∃ kv',
     Category.updateCategoryPackageJson out id cfg w
       = (Returned tt, with_files w (<[pkg := File (Json.stringify (JObj kv'))]> (files w))) ∧
     Json.get_prop kv' "name" = Some (JStr ("fhevm-" +:+ id +:+ "-examples")) ∧
     (∀ k, k ∉ ["name"; "description"; "keywords"] →
           Json.get_prop kv' k = Json.get_prop kv k) ∧
     map fst kv' = map fst kv ++
       filter (λ k, k ∉ map fst kv) ["name"; "description"; "keywords"]).
Proof.
  intros pkg Hout Hfile Hparse _.
  assert (pkg = out ++ ["package.json"]) as Hpkg by (by apply join_plain).
  assert (pkg ≠ []) as Hne by (rewrite Hpkg; by destruct out).
  assert (Fs.stat (files w) (Path.parent pkg) = Some Dir) as Hpar
    by (by rewrite Hpkg, parent_snoc).
  assert (∀ name description keywords, ∃ kv',
            rewritten (JObj kv) name description keywords = Some (JObj kv') ∧
            Json.get_prop kv' "name" = Some (JStr name) ∧
            (∀ k, k ∉ ["name"; "description"; "keywords"] →
                  Json.get_prop kv' k = Json.get_prop kv k) ∧
            map fst kv' = map fst kv ++
              filter (λ k, k ∉ map fst kv) ["name"; "description"; "keywords"])
    as Hobj.
  { intros name description keywords. eexists. split; [reflexivity|].
    split; [|split].
    - do 2 (rewrite get_set_prop_ne by done). by rewrite get_set_prop.
    - intros k Hk.
      do 3 (rewrite get_set_prop_ne by (intros Heq; apply Hk; subst k; set_solver)).
      done.
    - set (kv1 := Json.set_prop kv "name" (JStr name)).
      set (kv2 := Json.set_prop kv1 "description" (JStr description)).
      rewrite (set_prop_keys_filter kv2). subst kv2.
      rewrite (set_prop_keys_filter kv1) at 1. subst kv1.
      rewrite (set_prop_keys_filter kv) at 1.
      rewrite <- !app_assoc. f_equal.
      change ["name"; "description"; "keywords"]
        with (["name"] ++ ["description"] ++ ["keywords"]).
      rewrite !filter_app. f_equal. f_equal.
      + apply filter_singleton_ext. by rewrite set_prop_mem.
      + apply filter_singleton_ext. by rewrite !set_prop_mem. }
  split; intros cfg.
  - destruct (Hobj ("fhevm-" +:+ id) (Example.description cfg) (Example.keywords cfg))
      as (kv' & Hrew & H1 & H2 & H3).
    exists kv'. split; [|done].
    unfold Example.updatePackageJson. fold pkg.
    apply (run_update_manifest pkg text (JObj kv)); try done.
    by rewrite stat_lookup.
  - destruct (Hobj ("fhevm-" +:+ id +:+ "-examples") (Category.description cfg)
                (Category.keywords id))
      as (kv' & Hrew & H1 & H2 & H3).
    exists kv'. split; [|done].
    unfold Category.updateCategoryPackageJson. fold pkg.
    apply (run_update_manifest pkg text (JObj kv)); try done.
    by rewrite stat_lookup.
Qed.

Lemma manifest_update_keeps_other_members_witness :
  ∃ kv',
    (Example.updatePackageJson ["p"] "fhe-counter" fhe_counter_example sample_project).1
      = Returned tt ∧
    files (Example.updatePackageJson ["p"] "fhe-counter" fhe_counter_example
             sample_project).2 !! ["p"; "package.json"]
      = Some (File (Json.stringify (JObj kv'))) ∧
    Json.get_prop kv' "version" = Some (JStr "0.1.0") ∧
    map fst kv' = ["name"; "version"; "keywords"; "description"].
Proof.
  destruct (manifest_update_keeps_other_members ["p"] "fhe-counter" sample_project
              sample_manifest sample_members) as [Hex _]; try reflexivity.
  destruct (Hex fhe_counter_example) as (kv' & Hrun & _ & Hother & Hkeys).
  exists kv'. rewrite Hrun. split; [done|]. split.
  - simpl. by rewrite lookup_insert_eq.
  - split; [|exact Hkeys]. rewrite Hother; [reflexivity|].
    intros H. repeat (apply elem_of_cons in H as [H|H]; [discriminate H|]).
    by apply elem_of_nil in H.
Defined.



(** ** The index update on its own *)

Lemma run_updateSummary (out : path) (id : string) (cfg : Docs.config) (w : world)
    (prior : string) :
  let summaryPath := Path.join out ["SUMMARY.md"] in
  Fs.stat (files w) out = Some Dir →
  text_or Docs.summary_skeleton (files w) summaryPath = Some prior →
  Docs.updateSummary out id cfg w =
    (Returned tt,
     logged (with_files w (<[summaryPath := File (with_entry prior (Docs.entryLine id cfg))]>
                             (files w)))
       "📝 Updated SUMMARY.md").
Proof.
  intros summaryPath Hout Hprior. unfold Docs.updateSummary. fold summaryPath.
  assert (summaryPath = out ++ ["SUMMARY.md"]) as Hs by (by apply join_plain).
  assert (summaryPath ≠ []) as Hne by (rewrite Hs; by destruct out).
  rewrite run_bind, (run_read_if_exists _ _ prior) by done. cbv beta iota.
  unfold Fs.writeFileSync. rewrite run_bind, run_store_ok; cycle 1.
  { by rewrite Hs, parent_snoc. }
  { unfold text_or in Hprior. by destruct (Fs.stat (files w) summaryPath) as [[]|]. }
  cbv beta iota. by rewrite run_log.
Qed.

(** X6: [updateSummary] only ever adds to the index.  What the index
    held stays as its beginning; the entry text is afterwards in it; it
    is appended, with a line break, exactly when it did not occur
    anywhere in the old text, be it as part of a longer line; and a
    second update for the same entry changes nothing. *)
Theorem index_update_only_appends
    (out : path) (id : string) (cfg : Docs.config) (w : world) (prior : string) :
  let summaryPath := Path.join out ["SUMMARY.md"] in
  let entry := Docs.entryLine id cfg in
  Fs.stat (files w) out = Some Dir →
  text_or Docs.summary_skeleton (files w) summaryPath = Some prior →
  let r := Docs.updateSummary out id cfg w in
  r.1 = Returned tt ∧
  ∃ index,
    files r.2 = <[summaryPath := File index]> (files w) ∧
    String.prefix prior index = true ∧
    Js.includes index entry = true ∧
    (Js.includes prior entry = true → index = prior) ∧
    (Js.includes prior entry = false → index = prior +:+ entry +:+ Js.nl) ∧
    files (Docs.updateSummary out id cfg r.2).2 = files r.2.
Proof.
  intros summaryPath entry Hout Hprior r. subst r.
  rewrite (run_updateSummary out id cfg w prior) by done. fold summaryPath entry.
  assert (summaryPath = out ++ ["SUMMARY.md"]) as Hs by (by apply join_plain).
  assert (summaryPath ≠ []) as Hne by (rewrite Hs; by destruct out).
  assert (summaryPath ≠ out) as Hso.
  { rewrite Hs. intros H. apply (f_equal length) in H. rewrite length_app in H.
    simpl in H. lia. }
  split; [done|]. exists (with_entry prior entry).
  split; [done|]. split; [|split; [|split; [|split]]].
  - unfold with_entry. destruct (Js.includes prior entry).
    + rewrite <- (append_nil_r prior) at 2. apply prefix_app.
    + apply prefix_app.
  - apply includes_with_entry.
  - intros H. unfold with_entry. by rewrite H.
  - intros H. unfold with_entry. by rewrite H.
  - cbn [snd].
    rewrite (run_updateSummary out id cfg _ (with_entry prior entry)).
    + fold summaryPath entry. simpl. rewrite with_entry_idempotent.
      by rewrite insert_insert_eq.
    + simpl. rewrite stat_insert by done. by rewrite decide_False.
    + fold summaryPath. simpl. unfold text_or. rewrite stat_insert by done.
      by rewrite decide_True.
Qed.

Lemma index_update_only_appends_witness :
  let w := World (list_to_map [ (["docs"], Dir);
                                (["docs"; "SUMMARY.md"],
                                 File "see * [FHE Counter](fhe-counter.md) below") ])
                 [] [] in
  let r := Docs.updateSummary ["docs"] "fhe-counter" fhe_counter_docs w in
  r.1 = Returned tt ∧
  files r.2 !! ["docs"; "SUMMARY.md"]
    = Some (File "see * [FHE Counter](fhe-counter.md) below").
Proof.
  intros w r. subst r.
  destruct (index_update_only_appends ["docs"] "fhe-counter" fhe_counter_docs w
              "see * [FHE Counter](fhe-counter.md) below")
    as (Hret & index & Hfiles & _ & _ & Hsame & _); try reflexivity.
  split; [exact Hret|]. rewrite Hfiles, (Hsame eq_refl).
  apply lookup_insert_eq.
Defined.

Lemma split_on_app (sep : ascii) (a b : string) :
  Js.split_on sep (a +:+ b)
  = removelast (Js.split_on sep a)
    ++ (List.last (Js.split_on sep a) "" +:+ hd "" (Js.split_on sep b))
       :: tl (Js.split_on sep b).
Proof.
  induction a as [|c a IH].
  - rewrite append_nil_l. simpl. rewrite append_nil_l.
    pose proof (split_on_nonempty sep b). by destruct (Js.split_on sep b).
  - rewrite append_cons. simpl. rewrite IH.
    pose proof (split_on_nonempty sep a) as Hne.
    destruct (Js.split_on sep a) as [|l ls] eqn:Ha; [done|].
    destruct (Ascii.eqb c sep).
    + destruct ls; done.
    + destruct ls as [|l2 ls]; simpl.
      * by rewrite append_cons.
      * done.
Qed.

Lemma removelast_subseteq {A} (l : list A) (x : A) : x ∈ removelast l → x ∈ l.
Proof.
  induction l as [|y l IH]; simpl; [done|].
  destruct l as [|z l]; [by intros ?%elem_of_nil|].
  intros [->|H]%elem_of_cons; [left|right; by apply IH].
Qed.

Lemma filter_none {A} (P : A → Prop) `{∀ x, Decision (P x)} (l : list A) :
  (∀ x, x ∈ l → ¬ P x) → filter P l = [].
Proof.
  induction l as [|y l IH]; intros Hl; [done|].
  rewrite filter_cons_False by (apply Hl; left). apply IH.
  intros x Hx. apply Hl. by right.
Qed.

Lemma string_length_app (a b : string) :
  String.length (a +:+ b) = String.length a + String.length b.
Proof.
  induction a as [|c a IH]; [by rewrite append_nil_l|].
  rewrite append_cons. simpl. by rewrite IH.
Qed.

Lemma append_eq_r_nil (a b : string) : a +:+ b = b → a = "".
Proof.
  intros H. apply (f_equal String.length) in H.
  rewrite string_length_app in H. destruct a; [done|simpl in H; lia].
Qed.

Lemma last_List_last {A} (l : list A) (d : A) : l ≠ [] → last l = Some (List.last l d).
Proof.
  induction l as [|x l IH]; [done|]. intros _.
  destruct l as [|y l]; [done|].
  change (last (y :: l) = Some (List.last (y :: l) d)). by apply IH.
Qed.

(** X7: when the index does not end with a line break, the new entry is
    appended to its unfinished last line: the index then has no line
    that is the entry, although it contains the entry text, and a later
    update will not add it again. *)
Theorem entry_is_glued_to_unfinished_line
    (out : path) (id : string) (cfg : Docs.config) (w : world) (prior : string) :
  let summaryPath := Path.join out ["SUMMARY.md"] in
  let entry := Docs.entryLine id cfg in
  Fs.stat (files w) out = Some Dir →
  Fs.stat (files w) summaryPath = Some (File prior) →
  Js.ends_with_newline prior = false →
  Js.includes prior entry = false →
  no_newline entry = true →
  let r := Docs.updateSummary out id cfg w in
  r.1 = Returned tt ∧
  files r.2 !! summaryPath = Some (File (prior +:+ entry +:+ Js.nl)) ∧
  Js.count_lines entry (prior +:+ entry +:+ Js.nl) = 0 ∧
  Js.includes (prior +:+ entry +:+ Js.nl) entry = true.
Proof.
  intros summaryPath entry Hout Hfile Hend Hinc Hnl r. subst r.
  rewrite (run_updateSummary out id cfg w prior); [|done|]; cycle 1.
  { fold summaryPath. unfold text_or. by rewrite Hfile. }
  fold summaryPath entry. unfold with_entry. rewrite Hinc.
  split; [done|]. split; [simpl; by rewrite lookup_insert_eq|].
  split; [|apply includes_app].
  unfold Js.count_lines, Js.lines. rewrite split_on_app.
  fold (Js.lines prior). fold (Js.lines (entry +:+ Js.nl)).
  rewrite lines_snoc_newline, (lines_no_newline entry) by done. simpl.
  rewrite filter_none; [done|].
  intros x Hx Heq. subst x.
  apply elem_of_app in Hx as [Hx|Hx].
  - apply removelast_subseteq, lines_includes in Hx. congruence.
  - apply elem_of_cons in Hx as [Hx|Hx].
    + symmetry in Hx. apply append_eq_r_nil in Hx.
      unfold Js.ends_with_newline in Hend.
      rewrite (last_List_last _ "") in Hend by apply split_on_nonempty.
      unfold Js.lines in *. by rewrite Hx in Hend.
    + apply list_elem_of_singleton in Hx.
      subst entry. unfold Docs.entryLine in Hx.
      rewrite append_cons in Hx. discriminate Hx.
Qed.

Lemma entry_is_glued_to_unfinished_line_witness :
  let w := World (list_to_map [ (["docs"], Dir);
                                (["docs"; "SUMMARY.md"], File "# Summary") ]) [] [] in
  let r := Docs.updateSummary ["docs"] "fhe-counter" fhe_counter_docs w in
  files r.2 !! ["docs"; "SUMMARY.md"]
    = Some (File ("# Summary* [FHE Counter](fhe-counter.md)" +:+ Js.nl)) ∧
  Js.count_lines "* [FHE Counter](fhe-counter.md)"
    ("# Summary* [FHE Counter](fhe-counter.md)" +:+ Js.nl) = 0.
Proof.
  intros w r. subst r.
  destruct (entry_is_glued_to_unfinished_line ["docs"] "fhe-counter" fhe_counter_docs w
              "# Summary") as (_ & Hfile & Hcount & _); try reflexivity.
  split; [exact Hfile|exact Hcount].
Defined.

(** ** More on the documentation generator *)

Lemma docs_default_dir (cwd : path) : Path.join cwd ["./docs"] = cwd ++ ["docs"].
Proof. reflexivity. Qed.

Lemma docs_artifact_paths (dirname : path) :
  docs_contract_path dirname "blind-auction"
    = Path.parent dirname ++ ["contracts"; "auctions"; "BlindAuction.sol"] ∧
  docs_test_path dirname "blind-auction"
    = Path.parent dirname ++ ["test"; "auctions"; "BlindAuction.ts"] ∧
  docs_contract_path dirname "fhe-counter"
    = Path.parent dirname ++ ["contracts"; "basic"; "FHECounter.sol"] ∧
  docs_test_path dirname "fhe-counter"
    = Path.parent dirname ++ ["test"; "basic"; "FHECounter.ts"].
Proof.
  unfold docs_contract_path, docs_test_path. simpl.
  by rewrite !join_up_plain.
Qed.

(** X8: [generateAllDocs] runs the generator for every key of the
    documentation config, in registration order, into [./docs].  When
    that directory can be created, the artifacts can be read (or are
    missing) and no document path is a directory, it returns normally;
    every registered example has its document; the index is the old one
    extended entry by entry in that order, and when there was no index it
    is the skeleton followed by one line per example. *)
Theorem generateAllDocs_indexes_every_example
    (dirname cwd : path) (w : world) (prior : string) :
  let docs := Path.join cwd ["./docs"] in
  let fs1 := ensure_dir (files w) docs in
  creatable (files w) docs = true →
  (∀ id, id ∈ Object.keys Docs.DOCS_CONFIG →
     is_Some (text_or "" fs1 (docs_contract_path dirname id)) ∧
     is_Some (text_or "" fs1 (docs_test_path dirname id)) ∧
     Fs.is_dir (fs1 !! (docs ++ [id +:+ ".md"])) = false) →
  text_or Docs.summary_skeleton fs1 (docs ++ ["SUMMARY.md"]) = Some prior →
  let r := Docs.generateAllDocs dirname cwd w in
  r.1 = Returned tt ∧
  (∀ id cfg, Object.own Docs.DOCS_CONFIG id = Some cfg →
     ∃ cc tc,
       text_or "" fs1 (docs_contract_path dirname id) = Some cc ∧
       text_or "" fs1 (docs_test_path dirname id) = Some tc ∧
       files r.2 !! (docs ++ [id +:+ ".md"]) = Some (File (Docs.markdown cfg cc tc))) ∧
  files r.2 !! (docs ++ ["SUMMARY.md"])
    = Some (File (foldl (λ text e, with_entry text (Docs.entryLine e.1 e.2))
                    prior Docs.DOCS_CONFIG)) ∧
  (Fs.stat fs1 (docs ++ ["SUMMARY.md"]) = None →
     files r.2 !! (docs ++ ["SUMMARY.md"])
       = Some (File (Docs.summary_skeleton
                     +:+ "* [Blind Auction](blind-auction.md)" +:+ Js.nl
                     +:+ "* [FHE Counter](fhe-counter.md)" +:+ Js.nl))).
Proof.
  intros docs fs1 Hcreat Hsrc Hprior r.
  destruct (Hsrc "blind-auction") as ([c1 Hc1] & [t1 Ht1] & Hd1); [by left|].
  destruct (Hsrc "fhe-counter") as ([c2 Hc2] & [t2 Ht2] & Hd2); [right; by left|].
  destruct (docs_artifact_paths dirname) as (Ec1 & Et1 & Ec2 & Et2).
  set (cfg1 := default (Docs.Config "" "" "" []) (Object.own Docs.DOCS_CONFIG "blind-auction")).
  set (cfg2 := fhe_counter_docs).
  assert (docs = cwd ++ ["docs"]) as Hdocs by reflexivity.
  set (d1 := docs ++ ["blind-auction.md"]) in *.
  set (d2 := docs ++ ["fhe-counter.md"]) in *.
  set (sp := docs ++ ["SUMMARY.md"]) in *.
  set (e1 := Docs.entryLine "blind-auction" cfg1).
  set (e2 := Docs.entryLine "fhe-counter" cfg2).
  set (fs3 := <[sp := File (with_entry prior e1)]>
                (<[d1 := File (Docs.markdown cfg1 c1 t1)]> fs1)).
  assert (d1 ≠ [] ∧ d2 ≠ [] ∧ sp ≠ []) as (Hd1ne & Hd2ne & Hspne).
  { subst d1 d2 sp. rewrite Hdocs. by destruct cwd. }
  assert (d1 ≠ docs ∧ d2 ≠ docs ∧ sp ≠ docs) as (Hd1o & Hd2o & Hspo).
  { subst d1 d2 sp. repeat split; intros H; apply (f_equal length) in H;
      rewrite length_app in H; simpl in H; lia. }
  assert (Fs.stat fs1 docs = Some Dir) as Hout by (by apply ensure_dir_self).
  assert (Fs.stat fs3 docs = Some Dir) as Hout3.
  { subst fs3. rewrite !stat_insert by done. by rewrite !decide_False. }
  assert (ensure_dir fs3 docs = fs3) as Hens by (apply ensure_dir_existing; eauto).
  assert (d1 ≠ d2) as H12 by (subst d1 d2; path_neq).
  assert (d1 ≠ sp) as H1s by (subst d1 sp; path_neq).
  assert (d2 ≠ sp) as H2s by (subst d2 sp; path_neq).
  set (fs5 := <[sp := File (with_entry (with_entry prior e1) e2)]>
                (<[d2 := File (Docs.markdown cfg2 c2 t2)]> fs3)).
  assert (∀ w0, files w0 = files w →
            Docs.generateDocs dirname cwd "blind-auction" None w0
            = (Returned tt,
               World fs3
                 (stdout w0 ++ [ "📚 Generating documentation for blind-auction";
                                 "✅ Documentation generated: " +:+ show_path d1;
                                 "📝 Updated SUMMARY.md" ])
                 (stderr w0))) as Hrun1.
  { intros w0 Hw0.
    pose proof (generateDocs_run dirname cwd "blind-auction" cfg1 None w0 c1 t1 prior
                  eq_refl) as Hrun.
    cbn [default] in Hrun. fold docs in Hrun. rewrite Hw0 in Hrun. fold fs1 in Hrun.
    by apply Hrun. }
  assert (∀ w0, files w0 = fs3 →
            Docs.generateDocs dirname cwd "fhe-counter" None w0
            = (Returned tt,
               World fs5
                 (stdout w0 ++ [ "📚 Generating documentation for fhe-counter";
                                 "✅ Documentation generated: " +:+ show_path d2;
                                 "📝 Updated SUMMARY.md" ])
                 (stderr w0))) as Hrun2.
  { intros w0 Hw0.
    assert (ensure_dir (files w0) docs = fs3) as Hens0 by (by rewrite Hw0).
    pose proof (generateDocs_run dirname cwd "fhe-counter" cfg2 None w0 c2 t2
                  (with_entry prior e1) eq_refl) as Hrun.
    cbn [default] in Hrun. fold docs in Hrun. rewrite Hens0 in Hrun.
    apply Hrun.
    - rewrite Hw0. subst fs3. do 2 apply creatable_insert.
      by apply creatable_ensure_dir.
    - subst fs3. rewrite !text_or_insert_ne; [done|done|..|done|].
      + rewrite Ec2. subst d1. path_neq.
      + rewrite Ec2. subst sp. path_neq.
    - subst fs3. rewrite !text_or_insert_ne; [done|done|..|done|].
      + rewrite Et2. subst d1. path_neq.
      + rewrite Et2. subst sp. path_neq.
    - change (Fs.is_dir (fs3 !! d2) = false). subst fs3.
      by rewrite !lookup_insert_ne.
    - change (text_or Docs.summary_skeleton fs3 sp = Some (with_entry prior e1)).
      unfold text_or. rewrite stat_lookup by done. subst fs3.
      by rewrite lookup_insert_eq. }
  subst r. unfold Docs.generateAllDocs.
  rewrite run_bind, run_log. cbv beta iota.
  rewrite run_bind. cbn [Object.keys map fst Docs.DOCS_CONFIG forEach].
  rewrite run_bind, Hrun1 by done. cbv beta iota.
  rewrite run_bind, Hrun2 by done. cbv beta iota.
  rewrite run_ret. cbv beta iota. rewrite run_log.
  cbn [fst snd files logged].
  assert (fs5 !! d1 = Some (File (Docs.markdown cfg1 c1 t1))) as L1.
  { subst fs5 fs3. rewrite !lookup_insert_ne by done. by rewrite lookup_insert_eq. }
  assert (fs5 !! d2 = Some (File (Docs.markdown cfg2 c2 t2))) as L2.
  { subst fs5. rewrite lookup_insert_ne by done. by rewrite lookup_insert_eq. }
  assert (fs5 !! sp = Some (File (with_entry (with_entry prior e1) e2))) as Ls.
  { subst fs5. by rewrite lookup_insert_eq. }
  split; [done|]. split; [|split].
  - intros id cfg Hown. unfold Docs.DOCS_CONFIG in Hown. simpl in Hown.
    repeat case_decide; simplify_eq.
    + exists c1, t1. split; [done|]. split; [done|]. exact L1.
    + exists c2, t2. split; [done|]. split; [done|]. exact L2.
  - exact Ls.
  - intros Hnone. rewrite Ls.
    unfold text_or in Hprior. rewrite Hnone in Hprior. simplify_eq.
    by vm_compute.
Qed.

Lemma generateAllDocs_indexes_every_example_witness :
  let r := Docs.generateAllDocs sample_dirname sample_cwd sample_world in
  r.1 = Returned tt ∧
  files r.2 !! ["srv"; "hub"; "docs"; "SUMMARY.md"]
    = Some (File (Docs.summary_skeleton
                  +:+ "* [Blind Auction](blind-auction.md)" +:+ Js.nl
                  +:+ "* [FHE Counter](fhe-counter.md)" +:+ Js.nl)).
Proof.
  intros r. subst r.
  destruct (generateAllDocs_indexes_every_example sample_dirname sample_cwd sample_world
              Docs.summary_skeleton) as (Hret & _ & _ & Hindex).
  - reflexivity.
  - intros id Hid.
    apply elem_of_cons in Hid as [->|Hid];
      [|apply elem_of_cons in Hid as [->|Hid]; [|by apply elem_of_nil in Hid]];
      (split; [eexists; reflexivity|]); (split; [eexists; reflexivity|]); reflexivity.
  - reflexivity.
  - split; [exact Hret|]. exact (Hindex eq_refl).
Defined.

(** X9: the fallback [contractMap[exampleName] || ''] does not lead to an
    empty section.  For a name that the two path tables do not know, both
    artifact paths are the repository root; as soon as that directory
    exists, [generateMarkdownDoc] dies reading it (EISDIR) and produces
    no document. *)
Theorem unmapped_example_reads_repository_root
    (dirname : path) (name : string) (entry : Object.property Docs.config) (w : world) :
  Object.get Docs.contractMap name = Object.Undefined →
  Fs.stat (files w) (Path.parent dirname) = Some Dir →
  Docs.getContractPath dirname name w = (Returned (Path.parent dirname), w) ∧
  Docs.getTestPath dirname name w = (Returned (Path.parent dirname), w) ∧
  Docs.generateMarkdownDoc dirname name entry w = (Thrown EISDIR, w).
Proof.
  intros Hget Hroot.
  assert (Object.get Docs.testMap name = Object.Undefined) as Hget'.
  { unfold Object.get in *. unfold Docs.contractMap, Docs.testMap in *. simpl in *.
    repeat case_decide; try done. }
  assert (Path.join dirname [".."; ""] = Path.parent dirname) as Hjoin by reflexivity.
  unfold Docs.generateMarkdownDoc, Docs.getContractPath, Docs.getTestPath,
    Docs.artifact_path.
  rewrite Hget, Hget', Hjoin. split; [done|]. split; [done|].
  rewrite run_bind, run_ret. cbv beta iota.
  rewrite run_bind, run_ret. cbv beta iota.
  rewrite run_bind. unfold Docs.read_if_exists.
  rewrite run_bind, run_existsSync. cbv beta iota.
  rewrite Hroot. rewrite bool_decide_eq_true_2 by eauto.
  unfold Fs.readFileSync, get_files. rewrite run_bind. cbv beta iota.
  by rewrite Hroot.
Qed.

Lemma unmapped_example_reads_repository_root_witness :
  Docs.generateMarkdownDoc sample_dirname "encrypt-single-value"
    (Object.Own fhe_counter_docs) sample_world = (Thrown EISDIR, sample_world).
Proof.
  destruct (unmapped_example_reads_repository_root sample_dirname "encrypt-single-value"
              (Object.Own fhe_counter_docs) sample_world) as (_ & _ & H);
    [reflexivity|reflexivity|exact H].
Defined.

(** X10: the output directory is only created when nothing exists at its
    path.  When a regular file is there, [generateDocs] skips the
    [mkdir], renders the document and fails writing it (ENOTDIR); the
    file system is left as it was. *)
Theorem docs_into_regular_file_fails
    (dirname cwd : path) (id : string) (cfg : Docs.config) (out : option path)
    (w : world) (content cc tc : string) :
  let outputDir := default (Path.join cwd ["./docs"]) out in
  Object.get Docs.DOCS_CONFIG id = Object.Own cfg →
  Fs.stat (files w) outputDir = Some (File content) →
  text_or "" (files w) (docs_contract_path dirname id) = Some cc →
  text_or "" (files w) (docs_test_path dirname id) = Some tc →
  Docs.generateDocs dirname cwd id out w =
    (Thrown ENOTDIR, logged w ("📚 Generating documentation for " +:+ id)).
Proof.
  intros outputDir Hget Hfile Hcc Htc.
  destruct (docs_paths dirname id cfg outputDir Hget)
    as (Hd & _ & _ & _ & _ & _ & _ & Hgc & Hgt).
  unfold Docs.generateDocs. fold outputDir. rewrite Hget.
  rewrite run_bind, run_log. cbv beta iota.
  rewrite run_bind, run_existsSync. cbv beta iota. simpl files.
  rewrite Hfile. rewrite bool_decide_eq_true_2 by eauto. simpl.
  rewrite run_bind, run_ret. cbv beta iota.
  rewrite run_bind. unfold Docs.generateMarkdownDoc. rewrite Hgc, Hgt.
  rewrite run_bind, run_ret. cbv beta iota.
  rewrite run_bind, run_ret. cbv beta iota.
  rewrite run_bind, (run_read_if_exists _ _ cc) by done. cbv beta iota.
  rewrite run_bind, (run_read_if_exists _ _ tc) by done. cbv beta iota.
  rewrite run_ret. cbv beta iota.
  rewrite Hd. unfold Fs.writeFileSync, Fs.store, get_files.
  rewrite run_bind, run_bind. cbv beta iota.
  rewrite parent_snoc. rewrite files_logged. by rewrite Hfile.
Qed.

Lemma docs_into_regular_file_fails_witness :
  let w := World (<[["srv"; "notes"] := File "to do"]> (files sample_world)) [] [] in
  let r := Docs.generateDocs sample_dirname sample_cwd "fhe-counter"
             (Some ["srv"; "notes"]) w in
  r.1 = Thrown ENOTDIR ∧ files r.2 = files w.
Proof.
  intros w r. subst r.
  rewrite (docs_into_regular_file_fails sample_dirname sample_cwd "fhe-counter"
             fhe_counter_docs (Some ["srv"; "notes"]) w "to do"
             "contract FHECounter {}" "describe('FHECounter')"); try reflexivity.
  done.
Defined.

(** ** The catalogs *)

(** X11: the catalogs of the three scripts agree on every registered
    example: it has a documentation config; the documentation embeds the
    very files that [createExample] copies; the category README
    describes it in the words of the example catalog; and its category is
    registered and lists the example with its contract and its test. *)
Theorem catalogs_agree (dirname : path) (id : string) (cfg : Example.config) :
  Object.own Example.EXAMPLES_MAP id = Some cfg →
  is_Some (Object.own Docs.DOCS_CONFIG id) ∧
  Docs.getContractPath dirname id
    = mret (Path.join dirname [".."; "contracts"; Example.contract cfg]) ∧
  Docs.getTestPath dirname id
    = mret (Path.join dirname [".."; "test"; Example.test cfg]) ∧
  Category.getExampleDescription id = Example.description cfg ∧
  ∃ ccfg, Object.own Category.CATEGORIES (Example.category cfg) = Some ccfg ∧
          id ∈ Category.examples ccfg ∧
          Example.contract cfg ∈ Category.contracts ccfg ∧
          Example.test cfg ∈ Category.tests ccfg.
Proof.
  intros Hown. unfold Example.EXAMPLES_MAP in Hown. simpl in Hown.
  repeat case_decide; simplify_eq.
  - split; [by eexists|]. split; [|split; [|split]].
    + unfold Docs.getContractPath, Docs.artifact_path. simpl.
      by rewrite !join_up_plain.
    + unfold Docs.getTestPath, Docs.artifact_path. simpl.
      by rewrite !join_up_plain.
    + reflexivity.
    + eexists. split; [reflexivity|]. simpl. repeat split; by left.
  - split; [by eexists|]. split; [|split; [|split]].
    + unfold Docs.getContractPath, Docs.artifact_path. simpl.
      by rewrite !join_up_plain.
    + unfold Docs.getTestPath, Docs.artifact_path. simpl.
      by rewrite !join_up_plain.
    + reflexivity.
    + eexists. split; [reflexivity|]. simpl. repeat split; by left.
Qed.

Lemma catalogs_agree_witness :
  Category.getExampleDescription "fhe-counter"
    = "Simple encrypted counter demonstrating FHE basics" ∧
  Docs.getContractPath sample_dirname "fhe-counter"
    = mret ["srv"; "hub"; "contracts"; "basic"; "FHECounter.sol"].
Proof.
  destruct (catalogs_agree sample_dirname "fhe-counter" fhe_counter_example eq_refl)
    as (_ & Hc & _ & Hd & _).
  split; [exact Hd|exact Hc].
Defined.

Lemma prototype_keys_not_in_catalogs (key : string) :
  key ∈ Object.prototype_keys →
  Object.own Example.EXAMPLES_MAP key = None ∧
  Object.own Category.CATEGORIES key = None ∧
  Object.own Category.descriptions key = None.
Proof.
  unfold Object.prototype_keys. intros H.
  repeat (apply elem_of_cons in H as [->|H]; [by repeat split|]).
  by apply elem_of_nil in H.
Qed.



(** ** What a fresh destination holds *)

Lemma template_copy_hidden (fs : gmap path node) (tmpl out : path) (name : string)
    (rest : path) :
  fresh_destination fs tmpl out = true →
  Shell.visible name = false →
  template_copy fs tmpl out !! (out ++ name :: rest) = None.
Proof.
  unfold fresh_destination. rewrite !andb_true_iff. intros [[Hc He] Ha] Hv.
  unfold template_copy. cbv zeta. rewrite copy_tree_lookup, strip_prefix_app.
  assert (ensure_dir fs out !! (out ++ name :: rest) = None) as Hnone
    by (by apply fresh_out_empty).
  destruct (ensure_dir fs out !! (tmpl ++ name :: rest)); [|done].
  simpl. by rewrite Hv.
Qed.

Lemma template_copy_outside (fs : gmap path node) (tmpl out p : path) :
  (∀ k, p ≠ out ++ k) →
  template_copy fs tmpl out !! p = ensure_dir fs out !! p.
Proof. intros Hp. by apply fresh_copy_elsewhere. Qed.

Lemma example_files_elsewhere (dirname : path) (id : string) (cfg : Example.config)
    (out : path) (result : json) (fs : gmap path node) (p : path) :
  p ∉ [ Path.join out ["contracts"; Path.basename (Example.contract cfg)];
        Path.join out ["test"; Path.basename (Example.test cfg)];
        Path.join out ["README.md"];
        Path.join out ["package.json"] ] →
  example_files dirname id cfg out result fs !! p
  = template_copy fs (Path.join dirname [".."; "fhevm-hardhat-template"]) out !! p.
Proof.
  intros Hp. unfold example_files.
  rewrite !lookup_insert_ne, !copied_lookup_ne; [done|..];
    intros Heq; apply Hp; rewrite <- Heq; set_solver.
Qed.



Lemma category_files_helpers (dirname : path) (id : string) (cfg : Category.config)
    (out : path) (result : json) (fs : gmap path node) (k : path) :
  let tmpl := Path.join dirname [".."; "fhevm-hardhat-template"] in
  let utilsSrc := Path.join dirname [".."; "test"; "utils"] in
  Object.get Category.CATEGORIES id = Object.Own cfg →
  fresh_destination fs tmpl out = true →
  template_ready fs tmpl = true →
  forallb (λ c, artifact_ready fs tmpl out
                  (Path.join dirname [".."; "contracts"; c]) "contracts" (Path.basename c))
          (Category.contracts cfg) = true →
  forallb (λ t, artifact_ready fs tmpl out
                  (Path.join dirname [".."; "test"; t]) "test" (Path.basename t))
          (Category.tests cfg) = true →
  utils_ready fs tmpl out utilsSrc = true →
  is_Some (fs !! utilsSrc) →
  category_files dirname id cfg out result fs !! (out ++ utils_rel fs tmpl ++ k)
  = fs !! (utilsSrc ++ k).
Proof.
  intros tmpl utilsSrc Hget Hfresh Htmpl Hca Hta Hutils [n Hn].
  unfold category_files. fold tmpl utilsSrc.
  destruct (category_paths dirname id cfg out Hget)
    as (c & t & cseg & tseg & Hcs & Hts & Hnu & Etmpl & Ec & Et & Eu & Ecd & Etd & Eud
        & Erd & Epk).
  rewrite Hcs, Hts in *. simpl in Hca, Hta. rewrite andb_true_r in Hca, Hta.
  cbn [foldl].
  rewrite Ecd, Etd, Eud, Erd, Epk.
  set (contractSrc := Path.join dirname [".."; "contracts"; c]) in *.
  set (testSrc := Path.join dirname [".."; "test"; t]) in *.
  set (cbase := Path.basename c) in *.
  set (tbase := Path.basename t) in *.
  pose proof Hfresh as Hfresh'. unfold fresh_destination in Hfresh'.
  apply andb_true_iff in Hfresh' as [[Hcreat Hempty]%andb_true_iff Hapart].
  destruct (apart_nonempty _ _ Hapart) as [Hout Htne].
  unfold template_ready in Htmpl.
  apply andb_true_iff in Htmpl as [[[[Hdir%bool_decide_eq_true Htree]%andb_true_iff
    Hcdir%bool_decide_eq_true]%andb_true_iff Htdir%bool_decide_eq_true]%andb_true_iff
    Hreadme%negb_true_iff].
  unfold artifact_ready in Hca, Hta.
  apply andb_true_iff in Hca as [[Hcfile Hcapart]%andb_true_iff Hcdst%negb_true_iff].
  apply andb_true_iff in Hta as [[Htfile Htapart]%andb_true_iff Htdst%negb_true_iff].
  unfold utils_ready in Hutils. apply andb_true_iff in Hutils as [Huapart Hutils].
  destruct (apart_nonempty _ _ Huapart) as [_ Hune].
  rewrite Hn in Hutils.
  apply andb_true_iff in Hutils as [Hutree Huempty%bool_decide_eq_true].
  set (fs2 := template_copy fs tmpl out).
  assert (∀ name rest, Shell.visible name = true →
            fs2 !! (out ++ name :: rest) = fs !! (tmpl ++ name :: rest)) as Hcopy.
  { intros. by apply template_copy_lookup. }
  set (fs3 := copied contractSrc (out ++ ["contracts"; cbase]) fs2).
  set (fs4 := copied testSrc (out ++ ["test"; tbase]) fs3).
  assert (∀ p, p ≠ out ++ ["contracts"; cbase] → p ≠ out ++ ["test"; tbase] →
               fs4 !! p = fs2 !! p) as H4.
  { intros p H1 H2. subst fs4 fs3. by rewrite !copied_lookup_ne. }
  assert (∀ k, fs4 !! (utilsSrc ++ k) = fs !! (utilsSrc ++ k)) as Hu4.
  { intros k'. rewrite H4 by (by apply apart_not_below).
    by apply template_copy_apart_below. }
  assert (∀ k, fs4 !! (out ++ "test" :: "utils" :: k)
               = fs !! (tmpl ++ "test" :: "utils" :: k)) as Hd4.
  { intros k'. rewrite H4, Hcopy; [done..| |]; intros H%app_inv_head; simplify_eq. }
  assert (∀ k, fs !! ((tmpl ++ utils_rel fs tmpl) ++ k) = None) as Hnone.
  { intros k'. by rewrite <- subtree_lookup, Huempty, lookup_empty. }
  assert (∃ k', utils_rel fs tmpl ++ k = "test" :: "utils" :: k') as [k' Hk'].
  { unfold utils_rel. destruct (Fs.is_dir (fs !! (tmpl ++ ["test"; "utils"])));
      by eexists. }
  rewrite Hk'. rewrite !lookup_insert_ne by tail_neq. rewrite <- Hk'.
  unfold utils_copied.
  rewrite <- (app_nil_r utilsSrc), Hu4, app_nil_r, Hn.
  rewrite (stat_lookup fs4 (out ++ ["test"; "utils"])) by (by destruct out).
  rewrite Hd4.
  assert (Path.leaf utilsSrc = "utils") as ->.
  { unfold Path.leaf. subst utilsSrc. rewrite Eu. by rewrite last_app_nonempty. }
  set (target := if Fs.is_dir (fs !! (tmpl ++ ["test"; "utils"]))
                 then (out ++ ["test"; "utils"]) ++ ["utils"]
                 else out ++ ["test"; "utils"]).
  assert (out ++ utils_rel fs tmpl = target) as Htarget.
  { subst target. unfold utils_rel.
    destruct (Fs.is_dir (fs !! (tmpl ++ ["test"; "utils"]))); by rewrite <- ?app_assoc. }
  rewrite app_assoc, Htarget.
  rewrite copy_tree_lookup, strip_prefix_app, Hu4.
  assert (∀ k, fs4 !! (target ++ k) = None) as Hfree.
  { intros k0. rewrite <- Htarget. specialize (Hnone k0).
    unfold utils_rel in *. destruct (Fs.is_dir (fs !! (tmpl ++ ["test"; "utils"])));
      rewrite <- !app_assoc in *; simpl; by rewrite Hd4. }
  destruct (fs !! (utilsSrc ++ k)) as [m|] eqn:Hm; [|apply Hfree].
  rewrite copy_ok_absent; try done.
  - apply (is_tree_ext fs); [|done]. apply Hu4.
  - rewrite <- Htarget. by destruct out.
  - by rewrite Hu4.
Qed.



(** ** Nothing is written away from the output directory *)

Section Confined.

Variable fs0 : gmap path node.
Variable out : path.

(** Every path that is neither below [out] nor above it holds what it
    held at the start. *)
Let J (w : world) : Prop := ∀ p, apart out p = true → files w !! p = fs0 !! p.

Lemma confined_ret {A} (a : A) : hoare J (mret a) (λ _, J) (λ _, J).
Proof. by apply hoare_ret. Qed.

Lemma confined_throw {A} (e : error) : hoare J (throw e : js A) (λ _, J) (λ _, J).
Proof. by apply hoare_throw. Qed.

Lemma confined_exit {A} (code : nat) :
  hoare J (process_exit code : js A) (λ _, J) (λ _, J).
Proof. by apply hoare_exit. Qed.

Lemma confined_log (line : string) : hoare J (console_log line) (λ _, J) (λ _, J).
Proof. intros w H. done. Qed.

Lemma confined_console_error (line : string) :
  hoare J (console_error line) (λ _, J) (λ _, J).
Proof. intros w H. done. Qed.

Lemma confined_existsSync (p : path) : hoare J (Fs.existsSync p) (λ _, J) (λ _, J).
Proof. intros w H. done. Qed.

Lemma confined_read (p : path) : hoare J (Fs.readFileSync p) (λ _, J) (λ _, J).
Proof.
  intros w H. unfold Fs.readFileSync, get_files. rewrite run_bind. cbv beta iota.
  by destruct (Fs.stat (files w) p) as [[]|].
Qed.

Lemma confined_read_if_exists (p : path) (fallback : string) :
  hoare J (Docs.read_if_exists p fallback) (λ _, J) (λ _, J).
Proof.
  unfold Docs.read_if_exists. eapply hoare_bind; [apply confined_existsSync|].
  intros []; [apply confined_read|apply confined_ret].
Qed.

Lemma confined_store (k : path) (content : string) :
  hoare J (Fs.store (out ++ k) content) (λ _, J) (λ _, J).
Proof.
  intros w H. unfold Fs.store, get_files. rewrite run_bind. cbv beta iota.
  destruct (Fs.stat (files w) (Path.parent (out ++ k))) as [[]|]; try done.
  destruct (Fs.stat (files w) (out ++ k)) as [[]|]; try done;
    unfold put_files; intros p Hp; simpl; (rewrite lookup_insert_ne; [by apply H|]);
    intros <-; apply apart_spec in Hp as [Hp _]; by apply (Hp k).
Qed.

Lemma confined_copyFile (src k : path) :
  hoare J (Fs.copyFileSync src (out ++ k)) (λ _, J) (λ _, J).
Proof.
  unfold Fs.copyFileSync. eapply hoare_bind; [apply confined_read|].
  intros content. apply confined_store.
Qed.

Lemma confined_when (b : bool) (m : js unit) :
  hoare J m (λ _, J) (λ _, J) → hoare J (when b m) (λ _, J) (λ _, J).
Proof. intros H. apply hoare_when; [done|]. by intros _ w Hw. Qed.

Lemma confined_mkdir : hoare J (Fs.mkdirSync_recursive out) (λ _, J) (λ _, J).
Proof.
  intros w H. unfold Fs.mkdirSync_recursive, get_files. rewrite run_bind. cbv beta iota.
  destruct (existsb _ _); [done|].
  unfold put_files. intros p Hp. simpl. rewrite mkdirp_lookup_other; [by apply H|].
  apply apart_spec in Hp as [_ Hp]. by apply is_prefix_false.
Qed.

Lemma confined_copy_tree (fs : gmap path node) (src k : path) (sel : path → bool)
    (p : path) :
  apart out p = true →
  (Shell.copy_tree fs src (out ++ k) sel).1 !! p = fs !! p.
Proof.
  intros Hp. rewrite copy_tree_lookup.
  rewrite (proj2 (strip_prefix_None _ p)); [done|].
  intros rel ->. apply apart_spec in Hp as [Hp _].
  apply (Hp (k ++ rel)). by rewrite app_assoc.
Qed.

Lemma confined_cp_r_glob (src : path) :
  hoare J (Shell.cp_r_glob src out) (λ _, J) (λ _, J).
Proof.
  intros w H.
  destruct (run_cp_r_glob_cases src out w) as [->|(ok & -> & _)]; [done|].
  assert (J (with_files w (Shell.copy_tree (files w) src out
                             (Shell.under_glob (files w) src)).1)) as H'.
  { intros p Hp. rewrite files_with_files.
    pose proof (confined_copy_tree (files w) src [] (Shell.under_glob (files w) src) p Hp)
      as Hc.
    rewrite app_nil_r in Hc. rewrite Hc. by apply H. }
  by destruct ok.
Qed.

Lemma confined_cp_r (src k : path) :
  hoare J (Shell.cp_r src (out ++ k)) (λ _, J) (λ _, J).
Proof.
  intros w H. unfold Shell.cp_r, get_files. rewrite run_bind. cbv beta iota.
  destruct (negb _); [done|].
  set (target := if Fs.is_dir (Fs.stat (files w) (out ++ k))
                 then (out ++ k) ++ [Path.leaf src] else out ++ k).
  destruct (Path.is_prefix src target); [done|].
  destruct (negb _); [done|].
  rewrite run_bind. unfold put_files. cbv beta iota.
  assert (J (World (Shell.copy_tree (files w) src target (λ _, true)).1
               (stdout w) (stderr w))) as H'.
  { intros p Hp. cbn [files]. subst target.
    destruct (Fs.is_dir (Fs.stat (files w) (out ++ k)));
      rewrite <- ?app_assoc; rewrite confined_copy_tree by done; by apply H. }
  by destruct (Shell.copy_tree (files w) src target (λ _, true)).2.
Qed.

Lemma confined_set_field (value : json) (key : string) (v : json) :
  hoare J (set_field value key v) (λ _, J) (λ _, J).
Proof. intros w H. unfold set_field. by destruct (Json.assign value key v). Qed.

Lemma confined_JSON_parse (text : string) : hoare J (JSON_parse text) (λ _, J) (λ _, J).
Proof. intros w H. unfold JSON_parse. by destruct (Json.parse text). Qed.

End Confined.

Ltac confined_auto :=
  repeat first
    [ apply confined_ret | apply confined_throw | apply confined_exit
    | apply confined_log | apply confined_console_error
    | apply confined_existsSync | apply confined_read | apply confined_read_if_exists
    | apply confined_when | apply confined_mkdir | apply confined_cp_r_glob
    | apply confined_set_field | apply confined_JSON_parse
    | apply confined_store | apply confined_copyFile | apply confined_cp_r
    | apply hoare_forEach; intros ? ?
    | (eapply hoare_bind; [|intros ?]) ].

Lemma confined_createExample (dirname : path) (id : string) (out : path)
    (fs0 : gmap path node) :
  let J := λ w : world, ∀ p, apart out p = true → files w !! p = fs0 !! p in
  hoare J (Example.createExample dirname id out) (λ _, J) (λ _, J).
Proof.
  intros J. unfold Example.createExample.
  destruct (Object.get Example.EXAMPLES_MAP id) as [cfg|key|] eqn:Hget.
  - destruct (example_paths dirname id cfg out Hget)
      as (cseg & tseg & _ & _ & _ & Ecd & Etd & Erd & Epk).
    unfold Example.updatePackageJson, Fs.writeFileSync.
    rewrite Ecd, Etd, Erd, Epk. subst J. confined_auto.
  - subst J. confined_auto.
  - subst J. confined_auto.
Qed.

Lemma confined_createCategory (dirname : path) (id : string) (out : path)
    (fs0 : gmap path node) :
  let J := λ w : world, ∀ p, apart out p = true → files w !! p = fs0 !! p in
  hoare J (Category.createCategory dirname id out) (λ _, J) (λ _, J).
Proof.
  intros J. unfold Category.createCategory.
  destruct (Object.get Category.CATEGORIES id) as [cfg|key|] eqn:Hget.
  - destruct (category_paths dirname id cfg out Hget)
      as (c & t & cseg & tseg & Hcs & Hts & _ & _ & _ & _ & _ & Ecd & Etd & Eud
          & Erd & Epk).
    unfold Category.updateCategoryPackageJson, Fs.writeFileSync.
    rewrite Hcs, Hts. cbn [forEach]. unfold Category.copy_artifact.
    rewrite Ecd, Etd, Eud, Erd, Epk. subst J. confined_auto.
  - subst J. confined_auto.
  - subst J. confined_auto.
Qed.



Lemma doc_path_of_inherited_key (id key : string) (outputDir : path) :
  Object.get Docs.DOCS_CONFIG id = Object.Inherited key →
  Path.join outputDir [id +:+ ".md"] = outputDir ++ [id +:+ ".md"].
Proof.
  unfold Object.get. destruct (Object.own Docs.DOCS_CONFIG id); [done|].
  case_bool_decide as H; [|done]. intros _. unfold Object.prototype_keys in H.
  repeat (apply elem_of_cons in H as [->|H]; [by apply join_plain|]).
  by apply elem_of_nil in H.
Qed.

Lemma confined_generateDocs (dirname cwd : path) (id : string) (out : option path)
    (fs0 : gmap path node) :
  let outputDir := default (Path.join cwd ["./docs"]) out in
  let J := λ w : world, ∀ p, apart outputDir p = true → files w !! p = fs0 !! p in
  hoare J (Docs.generateDocs dirname cwd id out) (λ _, J) (λ _, J).
Proof.
  intros outputDir J. unfold Docs.generateDocs. fold outputDir.
  assert (∀ entry, hoare J (Docs.generateMarkdownDoc dirname id entry) (λ _, J) (λ _, J))
    as Hdoc.
  { intros entry. unfold Docs.generateMarkdownDoc, Docs.getContractPath,
      Docs.getTestPath, Docs.artifact_path.
    destruct (Object.get Docs.contractMap id); destruct (Object.get Docs.testMap id);
      destruct entry; subst J; confined_auto. }
  destruct (Object.get Docs.DOCS_CONFIG id) as [cfg|key|] eqn:Hget.
  - destruct (docs_paths dirname id cfg outputDir Hget) as (Hd & Hs & _).
    unfold Docs.updateSummary, Fs.writeFileSync. rewrite Hd, Hs.
    eapply hoare_bind; [apply confined_log|intros []].
    eapply hoare_bind; [apply confined_existsSync|intros there].
    eapply hoare_bind; [apply confined_when, confined_mkdir|intros []].
    eapply hoare_bind; [apply Hdoc|intros doc].
    subst J. confined_auto.
  - unfold Fs.writeFileSync. rewrite (doc_path_of_inherited_key id key) by done.
    eapply hoare_bind; [apply confined_log|intros []].
    eapply hoare_bind; [apply confined_existsSync|intros there].
    eapply hoare_bind; [apply confined_when, confined_mkdir|intros []].
    eapply hoare_bind; [apply Hdoc|intros doc].
    subst J. confined_auto.
  - subst J. confined_auto.
Qed.

(** X16: [generateDocs], and with it [generateAllDocs], writes at the
    output directory, below it and (creating missing directories) above
    it, and nowhere else: whatever the identifier, the state of the file
    system and the outcome, every path that is neither below nor above
    the output directory holds afterwards what it held before.  In
    particular the contracts and tests that are read are not changed. *)
Theorem docs_write_at_output_directory_only
    (dirname cwd : path) (id : string) (out : option path) (w : world) (p : path) :
  (apart (default (Path.join cwd ["./docs"]) out) p = true →
   files (Docs.generateDocs dirname cwd id out w).2 !! p = files w !! p) ∧
  (apart (Path.join cwd ["./docs"]) p = true →
   files (Docs.generateAllDocs dirname cwd w).2 !! p = files w !! p).
Proof.
  split; intros Hp.
  - pose proof (confined_generateDocs dirname cwd id out (files w) w (λ _ _, eq_refl))
      as H.
    destruct (Docs.generateDocs dirname cwd id out w) as [[?|?|?] w']; by apply H.
  - set (docs := Path.join cwd ["./docs"]) in *.
    set (J := λ w' : world, ∀ p, apart docs p = true → files w' !! p = files w !! p).
    assert (hoare J (Docs.generateAllDocs dirname cwd) (λ _, J) (λ _, J)) as H.
    { unfold Docs.generateAllDocs.
      apply (hoare_bind J _ (λ _, J)); [apply (confined_log (files w) docs)|intros []].
      apply (hoare_bind J _ (λ _, J)); [|intros []; apply (confined_log (files w) docs)].
      apply hoare_forEach. intros name _.
      apply (confined_generateDocs dirname cwd name None (files w)). }
    specialize (H w (λ _ _, eq_refl)).
    destruct (Docs.generateAllDocs dirname cwd w) as [[?|?|?] w']; by apply H.
Qed.

Lemma docs_write_at_output_directory_only_witness :
  files (Docs.generateDocs sample_dirname sample_cwd "fhe-counter" None sample_world).2
    !! ["srv"; "hub"; "contracts"; "basic"; "FHECounter.sol"]
    = Some (File "contract FHECounter {}") ∧
  files (Docs.generateAllDocs sample_dirname sample_cwd sample_world).2
    !! ["srv"; "hub"; "test"; "basic"; "FHECounter.ts"]
    = Some (File "describe('FHECounter')").
Proof.
  destruct (docs_write_at_output_directory_only sample_dirname sample_cwd "fhe-counter"
              None sample_world ["srv"; "hub"; "contracts"; "basic"; "FHECounter.sol"])
    as [Hone _].
  destruct (docs_write_at_output_directory_only sample_dirname sample_cwd "fhe-counter"
              None sample_world ["srv"; "hub"; "test"; "basic"; "FHECounter.ts"])
    as [_ Hall].
  split.
  - rewrite Hone; reflexivity.
  - rewrite Hall; reflexivity.
Defined.

